(** * The catalog cache of [XtreamCodesApi]

    A shallow embedding of the API access object of the client
    (class [XtreamCodesApi]): its four single-slot catalog caches, their
    validity test, the fetch-or-serve methods, the persistence to
    [AsyncStorage], [clearCache], [logout] and [login]; then the methods
    without a cache (live content, stream URLs, search) and the callers
    of the object: the list of saved users, the storage keys of a user's
    favorites and parental control, and the authentication context.

    The platform (clock, HTTP client, key-value store, console) is kept
    abstract: a method is a program over platform calls, and a theorem
    about a method holds for every way the platform may answer. *)

From Stdlib Require Import ZArith Ascii String List Bool Lia Permutation Sorted.
From stdpp Require Import base strings gmap pretty.
Import ListNotations.
Local Open Scope string_scope.
Local Open Scope list_scope.
Local Open Scope Z_scope.

(** ** Constants for storage keys *)

Definition AUTH_STORAGE_KEY : string := "huluxtream_auth".
Definition VOD_CACHE_KEY : string := "huluxtream_vod_cache".
Definition VOD_CATEGORIES_CACHE_KEY : string := "huluxtream_vod_categories_cache".
Definition SERIES_CACHE_KEY : string := "huluxtream_series_cache".
Definition SERIES_CATEGORIES_CACHE_KEY : string := "huluxtream_series_categories_cache".

(** 24 hours in milliseconds. *)
Definition CACHE_EXPIRY_TIME : Z := 24 * 60 * 60 * 1000.

(** ** Types *)

(** A TypeScript [number]. The cache layer only computes with timestamps
    (integral epoch milliseconds); the numeric fields of catalog records
    are carried along unchanged. *)
Definition number : Type := Z.

(** A thrown JavaScript value: the error class and its message. *)
Inductive JsError : Type := mkError (name message : string).

Definition Error (message : string) : JsError := mkError "Error" message.
Definition TypeError (message : string) : JsError := mkError "TypeError" message.

Record XtreamCredentials : Type := {
  username : string;
  password : string;
  serverUrl : string
}.

Module UserInfo.
Record t : Type := {
  username : string;
  password : string;
  message : string;
  auth : number;
  status : string;
  exp_date : string;
  is_trial : string;
  active_cons : string;
  created_at : string;
  max_connections : string;
  allowed_output_formats : list string
}.
End UserInfo.

Module ServerInfo.
Record t : Type := {
  url : string;
  port : string;
  https_port : string;
  server_protocol : string;
  rtmp_port : string;
  timezone : string;
  timestamp_now : number;
  time_now : string
}.
End ServerInfo.

Record AuthResponse : Type := {
  user_info : UserInfo.t;
  server_info : ServerInfo.t
}.

Inductive CategoryType : Type := live | movie | series.

Module Category.
Record t : Type := {
  category_id : string;
  category_name : string;
  parent_id : number;
  category_type : option CategoryType
}.

(** [{ ...category, category_type: ty }] *)
Definition with_type (ty : CategoryType) (category : t) : t :=
  {| category_id := category_id category;
     category_name := category_name category;
     parent_id := parent_id category;
     category_type := Some ty |}.
End Category.

Module Channel.
Record t : Type := {
  num : number;
  name : string;
  stream_type : string;
  stream_id : number;
  stream_icon : string;
  epg_channel_id : string;
  added : string;
  category_id : string;
  custom_sid : string;
  tv_archive : number;
  direct_source : string;
  tv_archive_duration : number
}.
End Channel.

Module Movie.
Record t : Type := {
  num : number;
  name : string;
  stream_type : string;
  stream_id : number;
  stream_icon : string;
  added : string;
  category_id : string;
  container_extension : string;
  custom_sid : string;
  direct_source : string
}.
End Movie.

Module Series.
Record t : Type := {
  series_id : number;
  name : string;
  cover : string;
  plot : string;
  cast : string;
  director : string;
  genre : string;
  release_date : string;
  last_modified : string;
  rating : string;
  rating_5based : number;
  backdrop_path : string;
  youtube_trailer : string;
  episode_run_time : string;
  category_id : string
}.
End Series.

(** The object held in a cache slot: [{ data, timestamp, categoryId? }].
    [categoryId = None] is JavaScript's [undefined], which is also what
    reading the property of a categories cache (declared without it)
    gives. *)
Record CacheObject (T : Type) : Type := {
  data : list T;
  timestamp : number;
  categoryId : option string
}.
Arguments data {T} _.
Arguments timestamp {T} _.
Arguments categoryId {T} _.

(** The object written under [AUTH_STORAGE_KEY]. *)
Module StoredAuth.
Record t : Type := {
  credentials : option XtreamCredentials;
  authData : option AuthResponse
}.
End StoredAuth.

(** What [getUserInfo] returns. *)
Module UserSummary.
Record t : Type := {
  username : string;
  exp_date : option string;
  status : option string;
  max_connections : option string
}.
End UserSummary.

(** The fields of the class; [None] is [null]. *)
Record XtreamCodesApi : Type := {
  credentials : option XtreamCredentials;
  authData : option AuthResponse;
  vodCache : option (CacheObject Movie.t);
  vodCategoriesCache : option (CacheObject Category.t);
  seriesCache : option (CacheObject Series.t);
  seriesCategoriesCache : option (CacheObject Category.t)
}.

(** ** The platform *)

(** [JSON.stringify] and [JSON.parse] at the type of a stored object.
    [JSON_parse] answers [inl] when it throws. The stored text is taken
    to be either unparsable or a value of the declared type. *)
Class JSON (A : Type) : Type := {
  JSON_stringify : A -> string;
  JSON_parse : string -> JsError + A
}.

(** The payload the server sends for a request, by kind of request. *)
Inductive RespType : Type := TAuth | TCategories | TChannels | TMovies | TSeries.

Definition resp (T : RespType) : Type :=
  match T with
  | TAuth => AuthResponse
  | TCategories => list Category.t
  | TChannels => list Channel.t
  | TMovies => list Movie.t
  | TSeries => list Series.t
  end.

(** Query parameters, in insertion order. *)
Definition RequestParams : Type := list (string * string).

(** A program over platform calls. Each call carries the continuation
    that receives the platform's answer; a rejected promise is [inl]. *)
Inductive prog (A : Type) : Type :=
| Ret (a : A)
| DateNow (k : Z -> prog A)
| AxiosGet (T : RespType) (url : string) (params : RequestParams)
    (k : JsError + resp T -> prog A)
| GetItem (key : string) (k : JsError + option string -> prog A)
| SetItem (key value : string) (k : JsError + unit -> prog A)
| RemoveItem (key : string) (k : JsError + unit -> prog A)
| ConsoleLog (msg : string) (k : prog A)
| ConsoleError (msg : string) (err : JsError) (k : prog A).
Arguments Ret {A} a.
Arguments DateNow {A} k.
Arguments AxiosGet {A} T url params k.
Arguments GetItem {A} key k.
Arguments SetItem {A} key value k.
Arguments RemoveItem {A} key k.
Arguments ConsoleLog {A} msg k.
Arguments ConsoleError {A} msg err k.

Fixpoint pbind {A B : Type} (p : prog A) (f : A -> prog B) : prog B :=
  match p with
  | Ret a => f a
  | DateNow k => DateNow (fun t => pbind (k t) f)
  | AxiosGet T url params k => AxiosGet T url params (fun r => pbind (k r) f)
  | GetItem key k => GetItem key (fun r => pbind (k r) f)
  | SetItem key value k => SetItem key value (fun r => pbind (k r) f)
  | RemoveItem key k => RemoveItem key (fun r => pbind (k r) f)
  | ConsoleLog msg k => ConsoleLog msg (pbind k f)
  | ConsoleError msg err k => ConsoleError msg err (pbind k f)
  end.

(** One platform call together with the answer it got. *)
Inductive io : Type :=
| io_now (t : Z)
| io_axios (T : RespType) (url : string) (params : RequestParams) (r : JsError + resp T)
| io_getItem (key : string) (r : JsError + option string)
| io_setItem (key value : string) (r : JsError + unit)
| io_removeItem (key : string) (r : JsError + unit)
| io_log (msg : string)
| io_error (msg : string) (err : JsError).

(** [exec p tr a]: the program [p] can perform exactly the calls of [tr],
    with the answers recorded there, and then ends with [a]. *)
Fixpoint exec {A : Type} (p : prog A) (tr : list io) (a : A) : Prop :=
  match p with
  | Ret a' => tr = [] /\ a = a'
  | DateNow k => exists t tr', tr = io_now t :: tr' /\ exec (k t) tr' a
  | AxiosGet T url params k =>
      exists r tr', tr = io_axios T url params r :: tr' /\ exec (k r) tr' a
  | GetItem key k =>
      exists r tr', tr = io_getItem key r :: tr' /\ exec (k r) tr' a
  | SetItem key value k =>
      exists r tr', tr = io_setItem key value r :: tr' /\ exec (k r) tr' a
  | RemoveItem key k =>
      exists r tr', tr = io_removeItem key r :: tr' /\ exec (k r) tr' a
  | ConsoleLog msg k => exists tr', tr = io_log msg :: tr' /\ exec k tr' a
  | ConsoleError msg err k =>
      exists tr', tr = io_error msg err :: tr' /\ exec k tr' a
  end.

(** A platform with internal state [W]: how it answers each call. *)
Record Env (W : Type) : Type := {
  env_now : W -> Z * W;
  env_axios : forall T : RespType, string -> RequestParams -> W -> (JsError + resp T) * W;
  env_getItem : string -> W -> (JsError + option string) * W;
  env_setItem : string -> string -> W -> (JsError + unit) * W;
  env_removeItem : string -> W -> (JsError + unit) * W
}.
Arguments env_now {W} _.
Arguments env_axios {W} _.
Arguments env_getItem {W} _.
Arguments env_setItem {W} _.
Arguments env_removeItem {W} _.

(** Running a program against a platform: the result, the platform's
    final state and the calls made. *)
Fixpoint run {W A : Type} (E : Env W) (p : prog A) (w : W) : A * W * list io :=
  match p with
  | Ret a => (a, w, [])
  | DateNow k =>
      let '(t, w1) := env_now E w in
      let '(a, w2, tr) := run E (k t) w1 in (a, w2, io_now t :: tr)
  | AxiosGet T url params k =>
      let '(r, w1) := env_axios E T url params w in
      let '(a, w2, tr) := run E (k r) w1 in (a, w2, io_axios T url params r :: tr)
  | GetItem key k =>
      let '(r, w1) := env_getItem E key w in
      let '(a, w2, tr) := run E (k r) w1 in (a, w2, io_getItem key r :: tr)
  | SetItem key value k =>
      let '(r, w1) := env_setItem E key value w in
      let '(a, w2, tr) := run E (k r) w1 in (a, w2, io_setItem key value r :: tr)
  | RemoveItem key k =>
      let '(r, w1) := env_removeItem E key w in
      let '(a, w2, tr) := run E (k r) w1 in (a, w2, io_removeItem key r :: tr)
  | ConsoleLog msg k =>
      let '(a, w2, tr) := run E k w in (a, w2, io_log msg :: tr)
  | ConsoleError msg err k =>
      let '(a, w2, tr) := run E k w in (a, w2, io_error msg err :: tr)
  end.

(** ** Methods *)

(** A method of the class: it reads and assigns the fields of [this],
    calls the platform, and either returns ([inr]) or throws ([inl]).
    Assignments made before a throw stay. The promise of an [async]
    method settles with that outcome. *)
Definition Method (A : Type) : Type :=
  XtreamCodesApi -> prog (XtreamCodesApi * (JsError + A)).

Definition ret {A : Type} (a : A) : Method A :=
  fun this => Ret (this, inr a).

Definition throw {A : Type} (e : JsError) : Method A :=
  fun this => Ret (this, inl e).

Definition bind {A B : Type} (m : Method A) (f : A -> Method B) : Method B :=
  fun this =>
    pbind (m this) (fun out =>
      match out with
      | (this', inl e) => Ret (this', inl e)
      | (this', inr a) => f a this'
      end).

(** [try { body } catch (error) { handler }] *)
Definition try_catch {A : Type} (body : Method A) (handler : JsError -> Method A)
  : Method A :=
  fun this =>
    pbind (body this) (fun out =>
      match out with
      | (this', inl e) => handler e this'
      | (this', inr a) => Ret (this', inr a)
      end).

(** Calling an [async] method without [await]: the promise, here already
    settled, is a value, and a rejection stays in it. The callee is run
    to its end in place. In the source it runs up to its first
    suspension before the caller goes on: for the save methods that is
    past the assignment of the slot and the call to the store, and what
    is left only waits for the store and logs; for the two loaders see
    [constructor]. *)
Definition start {A : Type} (m : Method A) : Method (JsError + A) :=
  fun this => pbind (m this) (fun out => Ret (fst out, inr (snd out))).

(** [await] on a settled promise; also a call that may throw. *)
Definition await {A : Type} (r : JsError + A) : Method A :=
  fun this => Ret (this, r).

Declare Scope method_scope.
Delimit Scope method_scope with method.
Notation "x <- m ;; k" := (bind m (fun x => k))
  (at level 100, m at next level, right associativity) : method_scope.
Notation "m ;; k" := (bind m (fun _ => k))
  (at level 100, right associativity) : method_scope.
Local Open Scope method_scope.

Definition get_this : Method XtreamCodesApi :=
  fun this => Ret (this, inr this).

Definition set_credentials (v : option XtreamCredentials) : Method unit :=
  fun this => Ret ({| credentials := v; authData := authData this;
                      vodCache := vodCache this;
                      vodCategoriesCache := vodCategoriesCache this;
                      seriesCache := seriesCache this;
                      seriesCategoriesCache := seriesCategoriesCache this |}, inr tt).

Definition set_authData (v : option AuthResponse) : Method unit :=
  fun this => Ret ({| credentials := credentials this; authData := v;
                      vodCache := vodCache this;
                      vodCategoriesCache := vodCategoriesCache this;
                      seriesCache := seriesCache this;
                      seriesCategoriesCache := seriesCategoriesCache this |}, inr tt).

Definition set_vodCache (v : option (CacheObject Movie.t)) : Method unit :=
  fun this => Ret ({| credentials := credentials this; authData := authData this;
                      vodCache := v;
                      vodCategoriesCache := vodCategoriesCache this;
                      seriesCache := seriesCache this;
                      seriesCategoriesCache := seriesCategoriesCache this |}, inr tt).

Definition set_vodCategoriesCache (v : option (CacheObject Category.t)) : Method unit :=
  fun this => Ret ({| credentials := credentials this; authData := authData this;
                      vodCache := vodCache this;
                      vodCategoriesCache := v;
                      seriesCache := seriesCache this;
                      seriesCategoriesCache := seriesCategoriesCache this |}, inr tt).

Definition set_seriesCache (v : option (CacheObject Series.t)) : Method unit :=
  fun this => Ret ({| credentials := credentials this; authData := authData this;
                      vodCache := vodCache this;
                      vodCategoriesCache := vodCategoriesCache this;
                      seriesCache := v;
                      seriesCategoriesCache := seriesCategoriesCache this |}, inr tt).

Definition set_seriesCategoriesCache (v : option (CacheObject Category.t)) : Method unit :=
  fun this => Ret ({| credentials := credentials this; authData := authData this;
                      vodCache := vodCache this;
                      vodCategoriesCache := vodCategoriesCache this;
                      seriesCache := seriesCache this;
                      seriesCategoriesCache := v |}, inr tt).

(** Platform calls, awaited: a rejection is thrown. *)
Definition Date_now : Method Z :=
  fun this => DateNow (fun t => Ret (this, inr t)).

Definition axios_get (T : RespType) (url : string) (params : RequestParams) : Method (resp T) :=
  fun this => AxiosGet T url params (fun r => Ret (this, r)).

Definition AsyncStorage_getItem (key : string) : Method (option string) :=
  fun this => GetItem key (fun r => Ret (this, r)).

Definition AsyncStorage_setItem (key value : string) : Method unit :=
  fun this => SetItem key value (fun r => Ret (this, r)).

Definition AsyncStorage_removeItem (key : string) : Method unit :=
  fun this => RemoveItem key (fun r => Ret (this, r)).

Definition console_log (msg : string) : Method unit :=
  fun this => ConsoleLog msg (Ret (this, inr tt)).

Definition console_error (msg : string) (err : JsError) : Method unit :=
  fun this => ConsoleError msg err (Ret (this, inr tt)).

(** [Promise.all] of four promises: the values, or the rejection of the
    first rejected one (taken in array order). *)
Definition Promise_all4 {A : Type} (p1 p2 p3 p4 : JsError + A)
  : Method (A * A * A * A) :=
  match p1, p2, p3, p4 with
  | inr a, inr b, inr c, inr d => ret (a, b, c, d)
  | inl e, _, _, _ => throw e
  | _, inl e, _, _ => throw e
  | _, _, inl e, _ => throw e
  | _, _, _, inl e => throw e
  end.

(** A [string | null] used as a condition: [null] and the empty string
    are falsy. *)
Definition truthy (s : option string) : option string :=
  match s with
  | Some str => if String.eqb str "" then None else Some str
  | None => None
  end.

(** [s.replace(/\/+$/, '')]: drop the slashes at the end of [s]. *)
Fixpoint strip_trailing_slashes (s : string) : string :=
  match s with
  | EmptyString => EmptyString
  | String c rest =>
      let rest' := strip_trailing_slashes rest in
      if Ascii.eqb c "/"%char && String.eqb rest' "" then EmptyString
      else String c rest'
  end.

Section XtreamCodesApi.

Context {JSON_auth : JSON StoredAuth.t}.
Context {JSON_vod : JSON (CacheObject Movie.t)}.
Context {JSON_series : JSON (CacheObject Series.t)}.
Context {JSON_categories : JSON (CacheObject Category.t)}.

(** The state of a fresh object, before the constructor body runs. *)
Definition fields_init : XtreamCodesApi :=
  {| credentials := None; authData := None; vodCache := None;
     vodCategoriesCache := None; seriesCache := None;
     seriesCategoriesCache := None |}.

Definition loadCredentials : Method unit :=
  try_catch
    (storedAuth <- AsyncStorage_getItem AUTH_STORAGE_KEY ;;
     match truthy storedAuth with
     | Some storedAuth =>
         parsed <- await (JSON_parse storedAuth) ;;
         set_credentials (StoredAuth.credentials parsed) ;;
         set_authData (StoredAuth.authData parsed)
     | None => ret tt
     end)
    (fun error => console_error "Failed to load auth data:" error).

Definition saveCredentials : Method unit :=
  try_catch
    (this <- get_this ;;
     AsyncStorage_setItem AUTH_STORAGE_KEY
       (JSON_stringify {| StoredAuth.credentials := credentials this;
                          StoredAuth.authData := authData this |}))
    (fun error => console_error "Failed to save auth data:" error).

(** Load caches from AsyncStorage *)
Definition loadCaches : Method unit :=
  try_catch
    (p1 <- start (AsyncStorage_getItem VOD_CACHE_KEY) ;;
     p2 <- start (AsyncStorage_getItem VOD_CATEGORIES_CACHE_KEY) ;;
     p3 <- start (AsyncStorage_getItem SERIES_CACHE_KEY) ;;
     p4 <- start (AsyncStorage_getItem SERIES_CATEGORIES_CACHE_KEY) ;;
     strs <- Promise_all4 p1 p2 p3 p4 ;;
     let '(vodCacheStr, vodCategoriesCacheStr, seriesCacheStr,
           seriesCategoriesCacheStr) := strs in
     match truthy vodCacheStr with
     | Some str => parsed <- await (JSON_parse str) ;; set_vodCache (Some parsed)
     | None => ret tt
     end ;;
     match truthy vodCategoriesCacheStr with
     | Some str =>
         parsed <- await (JSON_parse str) ;; set_vodCategoriesCache (Some parsed)
     | None => ret tt
     end ;;
     match truthy seriesCacheStr with
     | Some str => parsed <- await (JSON_parse str) ;; set_seriesCache (Some parsed)
     | None => ret tt
     end ;;
     match truthy seriesCategoriesCacheStr with
     | Some str =>
         parsed <- await (JSON_parse str) ;; set_seriesCategoriesCache (Some parsed)
     | None => ret tt
     end)
    (fun error => console_error "Failed to load caches:" error).

(** [constructor()]: both loaders are called without [await]. In the
    source their reads are issued first and their assignments follow in
    the order in which the store answers; they assign disjoint fields,
    so the object they leave is the one of running them one after the
    other, which is what is taken here. *)
Definition constructor : prog XtreamCodesApi :=
  pbind ((start loadCredentials ;; start loadCaches) fields_init)
        (fun out => Ret (fst out)).

(** Save VOD cache to AsyncStorage *)
Definition saveVodCache (movies : list Movie.t) (categoryId : option string)
  : Method unit :=
  try_catch
    (now <- Date_now ;;
     let cacheObject :=
       {| data := movies; timestamp := now; categoryId := categoryId |} in
     set_vodCache (Some cacheObject) ;;
     AsyncStorage_setItem VOD_CACHE_KEY (JSON_stringify cacheObject))
    (fun error => console_error "Failed to save VOD cache:" error).

(** Save VOD categories cache to AsyncStorage *)
Definition saveVodCategoriesCache (categories : list Category.t) : Method unit :=
  try_catch
    (now <- Date_now ;;
     let cacheObject :=
       {| data := categories; timestamp := now; categoryId := None |} in
     set_vodCategoriesCache (Some cacheObject) ;;
     AsyncStorage_setItem VOD_CATEGORIES_CACHE_KEY (JSON_stringify cacheObject))
    (fun error => console_error "Failed to save VOD categories cache:" error).

(** Save series cache to AsyncStorage *)
Definition saveSeriesCache (series : list Series.t) (categoryId : option string)
  : Method unit :=
  try_catch
    (now <- Date_now ;;
     let cacheObject :=
       {| data := series; timestamp := now; categoryId := categoryId |} in
     set_seriesCache (Some cacheObject) ;;
     AsyncStorage_setItem SERIES_CACHE_KEY (JSON_stringify cacheObject))
    (fun error => console_error "Failed to save series cache:" error).

(** Save series categories cache to AsyncStorage *)
Definition saveSeriesCategoriesCache (categories : list Category.t) : Method unit :=
  try_catch
    (now <- Date_now ;;
     let cacheObject :=
       {| data := categories; timestamp := now; categoryId := None |} in
     set_seriesCategoriesCache (Some cacheObject) ;;
     AsyncStorage_setItem SERIES_CATEGORIES_CACHE_KEY (JSON_stringify cacheObject))
    (fun error => console_error "Failed to save series categories cache:" error).

(** Check if cache is valid (not expired) *)
Definition isCacheValid (timestamp : number) : Method bool :=
  now <- Date_now ;;
  ret (now - timestamp <? CACHE_EXPIRY_TIME)%Z.

(** [!!(x)] for an object-or-null. *)
Definition notnull {A : Type} (o : option A) : bool :=
  match o with Some _ => true | None => false end.

(** [this.credentials!]: the assertion is erased, a [null] would make
    the property read that follows throw. *)
Definition credentials_nonnull : Method XtreamCredentials :=
  this <- get_this ;;
  match credentials this with
  | Some c => ret c
  | None => throw (TypeError "Cannot read properties of null")
  end.

Definition login (credentials : XtreamCredentials) : Method AuthResponse :=
  try_catch
    ((* Clean up server URL (remove trailing slashes) *)
     let serverUrl' := strip_trailing_slashes (serverUrl credentials) in
     response <- axios_get TAuth (serverUrl' +:+ "/player_api.php")
                   [("username", username credentials);
                    ("password", password credentials)] ;;
     (if (UserInfo.auth (user_info response) =? 0)%Z
      then throw (Error "Authentication failed. Please check your credentials.")
      else ret tt) ;;
     set_credentials (Some {| username := username credentials;
                              password := password credentials;
                              serverUrl := serverUrl' |}) ;;
     set_authData (Some response) ;;
     saveCredentials ;;
     ret response)
    (fun error => console_error "Login error:" error ;; throw error).

Definition isLoggedIn : Method bool :=
  this <- get_this ;;
  ret (notnull (credentials this) && notnull (authData this)).

(** Get user information from the auth data: user info, or [None]
    ([null]) if not logged in. *)
Definition getUserInfo (this : XtreamCodesApi) : option UserSummary.t :=
  match credentials this, authData this with
  | Some c, Some a =>
      Some {| UserSummary.username := username c;
              UserSummary.exp_date := Some (UserInfo.exp_date (user_info a));
              UserSummary.status := Some (UserInfo.status (user_info a));
              UserSummary.max_connections :=
                Some (UserInfo.max_connections (user_info a)) |}
  | _, _ => None
  end.

Definition logout : Method unit :=
  (* Get the username before clearing credentials *)
  this <- get_this ;;
  let userInfo := getUserInfo this in
  let username := option_map UserSummary.username userInfo in
  (* Clear credentials *)
  set_credentials None ;;
  set_authData None ;;
  (* Clear caches *)
  set_vodCache None ;;
  set_vodCategoriesCache None ;;
  set_seriesCache None ;;
  set_seriesCategoriesCache None ;;
  AsyncStorage_removeItem AUTH_STORAGE_KEY ;;
  AsyncStorage_removeItem VOD_CACHE_KEY ;;
  AsyncStorage_removeItem VOD_CATEGORIES_CACHE_KEY ;;
  AsyncStorage_removeItem SERIES_CACHE_KEY ;;
  AsyncStorage_removeItem SERIES_CATEGORIES_CACHE_KEY ;;
  (* Clear user-specific data if we have a username *)
  match truthy username with
  | Some username =>
      try_catch
        (let favoritesKey := "huluxtream_favorites_" +:+ username in
         AsyncStorage_removeItem favoritesKey ;;
         let pcEnabledKey := username +:+ "_huluxtream_parental_control_enabled" in
         let pcPinKey := username +:+ "_huluxtream_parental_control_pin" in
         let pcCategoriesKey := username +:+ "_huluxtream_restricted_categories" in
         AsyncStorage_removeItem pcEnabledKey ;;
         AsyncStorage_removeItem pcPinKey ;;
         AsyncStorage_removeItem pcCategoriesKey ;;
         console_log ("Cleared user-specific data for " +:+ username))
        (fun error => console_error "Error clearing user-specific data:" error)
  | None => ret tt
  end.

Definition ensureAuthenticated : Method unit :=
  this <- get_this ;;
  if negb (notnull (credentials this)) || negb (notnull (authData this))
  then throw (Error "Not authenticated. Please login first.")
  else ret tt.

Definition apiUrl : Method string :=
  ensureAuthenticated ;;
  c <- credentials_nonnull ;;
  ret (serverUrl c +:+ "/player_api.php").

Definition getVodCategories : Method (list Category.t) :=
  ensureAuthenticated ;;
  (* Check cache first *)
  this <- get_this ;;
  cached <- match vodCategoriesCache this with
            | Some c =>
                valid <- isCacheValid (timestamp c) ;;
                ret (if valid then Some c else None)
            | None => ret None
            end ;;
  match cached with
  | Some c =>
      console_log "Using cached VOD categories" ;;
      ret (data c)
  | None =>
      (* If no valid cache, fetch from API *)
      console_log "Fetching VOD categories from API" ;;
      url <- apiUrl ;;
      c <- credentials_nonnull ;;
      response <- axios_get TCategories url
                    [("username", username c);
                     ("password", password c);
                     ("action", "get_vod_categories")] ;;
      let categories := map (Category.with_type movie) response in
      (* Cache the results *)
      start (saveVodCategoriesCache categories) ;;
      ret categories
  end.

Definition getSeriesCategories : Method (list Category.t) :=
  ensureAuthenticated ;;
  (* Check cache first *)
  this <- get_this ;;
  cached <- match seriesCategoriesCache this with
            | Some c =>
                valid <- isCacheValid (timestamp c) ;;
                ret (if valid then Some c else None)
            | None => ret None
            end ;;
  match cached with
  | Some c =>
      console_log "Using cached series categories" ;;
      ret (data c)
  | None =>
      (* If no valid cache, fetch from API *)
      console_log "Fetching series categories from API" ;;
      url <- apiUrl ;;
      c <- credentials_nonnull ;;
      response <- axios_get TCategories url
                    [("username", username c);
                     ("password", password c);
                     ("action", "get_series_categories")] ;;
      let categories := map (Category.with_type series) response in
      (* Cache the results *)
      start (saveSeriesCategoriesCache categories) ;;
      ret categories
  end.

(** [if (category_id) params.category_id = category_id] *)
Definition with_category_id (params : RequestParams) (category_id : option string)
  : RequestParams :=
  match truthy category_id with
  | Some id => (params ++ [("category_id", id)])%list
  | None => params
  end.

Definition getLiveStreams (category_id : option string) : Method (list Channel.t) :=
  ensureAuthenticated ;;
  c <- credentials_nonnull ;;
  let params := [("username", username c);
                 ("password", password c);
                 ("action", "get_live_streams")] in
  let params := with_category_id params category_id in
  url <- apiUrl ;;
  response <- axios_get TChannels url params ;;
  ret response.

Definition getVodStreams (category_id : option string) : Method (list Movie.t) :=
  ensureAuthenticated ;;
  (* Check cache first if the category matches *)
  this <- get_this ;;
  cached <- match vodCache this with
            | Some c =>
                valid <- isCacheValid (timestamp c) ;;
                ret (if valid && bool_decide (categoryId c = category_id)
                     then Some c else None)
            | None => ret None
            end ;;
  match cached with
  | Some c =>
      console_log "Using cached VOD streams" ;;
      ret (data c)
  | None =>
      (* If no valid cache, fetch from API *)
      console_log "Fetching VOD streams from API" ;;
      c <- credentials_nonnull ;;
      let params := [("username", username c);
                     ("password", password c);
                     ("action", "get_vod_streams")] in
      let params := with_category_id params category_id in
      url <- apiUrl ;;
      response <- axios_get TMovies url params ;;
      (* Cache the results *)
      start (saveVodCache response category_id) ;;
      ret response
  end.

Definition getSeries (category_id : option string) : Method (list Series.t) :=
  ensureAuthenticated ;;
  (* Check cache first if the category matches *)
  this <- get_this ;;
  cached <- match seriesCache this with
            | Some c =>
                valid <- isCacheValid (timestamp c) ;;
                ret (if valid && bool_decide (categoryId c = category_id)
                     then Some c else None)
            | None => ret None
            end ;;
  match cached with
  | Some c =>
      console_log "Using cached series data" ;;
      ret (data c)
  | None =>
      (* If no valid cache, fetch from API *)
      console_log "Fetching series data from API" ;;
      c <- credentials_nonnull ;;
      let params := [("username", username c);
                     ("password", password c);
                     ("action", "get_series")] in
      let params := with_category_id params category_id in
      url <- apiUrl ;;
      response <- axios_get TSeries url params ;;
      (* Cache the results *)
      start (saveSeriesCache response category_id) ;;
      ret response
  end.

Definition clearCache : Method unit :=
  try_catch
    ((* Clear in-memory caches *)
     set_vodCache None ;;
     set_vodCategoriesCache None ;;
     set_seriesCache None ;;
     set_seriesCategoriesCache None ;;
     (* Clear AsyncStorage caches *)
     AsyncStorage_removeItem VOD_CACHE_KEY ;;
     AsyncStorage_removeItem VOD_CATEGORIES_CACHE_KEY ;;
     AsyncStorage_removeItem SERIES_CACHE_KEY ;;
     AsyncStorage_removeItem SERIES_CATEGORIES_CACHE_KEY ;;
     (* Keep track of original credentials and auth data *)
     this <- get_this ;;
     let savedCredentials := credentials this in
     let savedAuth := authData this in
     (* Fetch fresh content directly from the API *)
     (if notnull savedCredentials && notnull savedAuth then
        console_log "Reloading fresh content data..." ;;
        (* Force reload of live channels *)
        try_catch
          (liveChannels <- getLiveStreams None ;;
           console_log ("Reloaded " +:+ pretty (length liveChannels)
                        +:+ " live channels"))
          (fun err => console_error "Error reloading live channels:" err) ;;
        (* Force reload of VOD content *)
        try_catch
          (vodContent <- getVodStreams None ;;
           console_log ("Reloaded " +:+ pretty (length vodContent) +:+ " movies"))
          (fun err => console_error "Error reloading movies:" err) ;;
        (* Force reload of series content *)
        try_catch
          (seriesContent <- getSeries None ;;
           console_log ("Reloaded " +:+ pretty (length seriesContent)
                        +:+ " series"))
          (fun err => console_error "Error reloading series:" err)
      else ret tt) ;;
     console_log "Content cache cleared and reloaded successfully" ;;
     ret tt)
    (fun error => console_error "Error clearing cache:" error ;; throw error).

End XtreamCodesApi.

(** ** The four catalog types *)

Inductive CatalogType : Type :=
  VOD_STREAMS | VOD_CATEGORIES | SERIES | SERIES_CATEGORIES.

Definition record_t (ty : CatalogType) : Type :=
  match ty with
  | VOD_STREAMS => Movie.t
  | VOD_CATEGORIES => Category.t
  | SERIES => Series.t
  | SERIES_CATEGORIES => Category.t
  end.

(** The slot of a catalog type. *)
Definition entry (ty : CatalogType) (this : XtreamCodesApi)
  : option (CacheObject (record_t ty)) :=
  match ty with
  | VOD_STREAMS => vodCache this
  | VOD_CATEGORIES => vodCategoriesCache this
  | SERIES => seriesCache this
  | SERIES_CATEGORIES => seriesCategoriesCache this
  end.

(** The key under which the slot of a catalog type is persisted. *)
Definition cache_key (ty : CatalogType) : string :=
  match ty with
  | VOD_STREAMS => VOD_CACHE_KEY
  | VOD_CATEGORIES => VOD_CATEGORIES_CACHE_KEY
  | SERIES => SERIES_CACHE_KEY
  | SERIES_CATEGORIES => SERIES_CATEGORIES_CACHE_KEY
  end.

(** Stream catalogs are fetched under a category filter. *)
Definition is_stream_type (ty : CatalogType) : bool :=
  match ty with
  | VOD_STREAMS | SERIES => true
  | VOD_CATEGORIES | SERIES_CATEGORIES => false
  end.

Section fetchCatalog.

Context {JSON_auth : JSON StoredAuth.t}.
Context {JSON_vod : JSON (CacheObject Movie.t)}.
Context {JSON_series : JSON (CacheObject Series.t)}.
Context {JSON_categories : JSON (CacheObject Category.t)}.

(** The public fetch method of a catalog type; the categories methods
    take no filter. *)
Definition fetchCatalog (ty : CatalogType) (categoryFilter : option string)
  : Method (list (record_t ty)) :=
  match ty with
  | VOD_STREAMS => getVodStreams categoryFilter
  | VOD_CATEGORIES => getVodCategories
  | SERIES => getSeries categoryFilter
  | SERIES_CATEGORIES => getSeriesCategories
  end.

(** [JSON.stringify] of a slot's object. *)
Definition stringify_entry (ty : CatalogType)
  : CacheObject (record_t ty) -> string :=
  match ty with
  | VOD_STREAMS => JSON_stringify
  | VOD_CATEGORIES => JSON_stringify
  | SERIES => JSON_stringify
  | SERIES_CATEGORIES => JSON_stringify
  end.

Definition parse_entry (ty : CatalogType)
  : string -> JsError + CacheObject (record_t ty) :=
  match ty with
  | VOD_STREAMS => JSON_parse
  | VOD_CATEGORIES => JSON_parse
  | SERIES => JSON_parse
  | SERIES_CATEGORIES => JSON_parse
  end.

End fetchCatalog.

(** The entries held for a catalog type. *)
Definition entries (ty : CatalogType) (this : XtreamCodesApi)
  : list (CacheObject (record_t ty)) :=
  match entry ty this with
  | Some e => [e]
  | None => []
  end.

(** The entry of [ty], if any, does not answer a request under [filter]
    in an execution with trace [tr]: the filter differs, or the entry
    has expired at the clock reading that opens the trace. *)
Definition unusable (ty : CatalogType) (filter : option string)
    (this : XtreamCodesApi) (tr : list io) : Prop :=
  match entry ty this with
  | None => True
  | Some e =>
      (is_stream_type ty = true /\ categoryId e <> filter) \/
      (exists now tr', tr = io_now now :: tr' /\
                       CACHE_EXPIRY_TIME <= now - timestamp e)
  end.

(** What is logged when the store rejects the write of an entry. *)
Definition save_failure_msg (ty : CatalogType) : string :=
  match ty with
  | VOD_STREAMS => "Failed to save VOD cache:"
  | VOD_CATEGORIES => "Failed to save VOD categories cache:"
  | SERIES => "Failed to save series cache:"
  | SERIES_CATEGORIES => "Failed to save series categories cache:"
  end.

(** The filter recorded in an entry of [ty] fetched under [filter]. *)
Definition recorded_filter (ty : CatalogType) (filter : option string)
  : option string :=
  if is_stream_type ty then filter else None.

Section stored_text.

Context {JSON_auth : JSON StoredAuth.t}.
Context {JSON_vod : JSON (CacheObject Movie.t)}.
Context {JSON_series : JSON (CacheObject Series.t)}.
Context {JSON_categories : JSON (CacheObject Category.t)}.

(** What a read of the key of [ty] returned is absent, empty, or text
    that [JSON.parse] accepts. *)
Definition parses (ty : CatalogType) (s : option string) : Prop :=
  match truthy s with
  | Some str => exists e, parse_entry ty str = inr e
  | None => True
  end.


End stored_text.

(** ** Observations on a trace *)

Definition is_network (c : io) : bool :=
  match c with io_axios _ _ _ _ => true | _ => false end.

Definition is_store_write (c : io) : bool :=
  match c with
  | io_setItem _ _ _ | io_removeItem _ _ => true
  | _ => false
  end.

(** No call to the remote service. *)
Definition no_network (tr : list io) : Prop := forallb (fun c => negb (is_network c)) tr = true.

(** At least one call to the remote service. *)
Definition calls_network (tr : list io) : Prop := existsb is_network tr = true.

(** No write to the persistent store. *)
Definition no_store_write (tr : list io) : Prop :=
  forallb (fun c => negb (is_store_write c)) tr = true.

(** The remote service rejected a call with [e]. *)
Definition network_rejected (e : JsError) (c : io) : Prop :=
  match c with
  | io_axios _ _ _ (inl e') => e' = e
  | _ => False
  end.

(** The store rejected a call with [e]. *)
Definition store_rejected (e : JsError) (c : io) : Prop :=
  match c with
  | io_getItem _ (inl e') | io_setItem _ _ (inl e') | io_removeItem _ (inl e') =>
      e' = e
  | _ => False
  end.

(** The store rejected the removal [c] with [e]. *)
Definition remove_rejected (e : JsError) (c : io) : Prop :=
  match c with
  | io_removeItem _ (inl e') => e' = e
  | _ => False
  end.

(** The store rejected the write [c] with [e]. *)
Definition write_rejected (e : JsError) (c : io) : Prop :=
  match c with
  | io_setItem _ _ (inl e') => e' = e
  | _ => False
  end.

(** The store rejected the read [c] with [e]. *)
Definition read_rejected (e : JsError) (c : io) : Prop :=
  match c with
  | io_getItem _ (inl e') => e' = e
  | _ => False
  end.

Definition RespType_eqb (T T' : RespType) : bool :=
  match T, T' with
  | TAuth, TAuth | TCategories, TCategories | TChannels, TChannels
  | TMovies, TMovies | TSeries, TSeries => true
  | _, _ => false
  end.

(** A call to the remote service for a payload of kind [T]. *)
Definition requested (T : RespType) (c : io) : bool :=
  match c with
  | io_axios T' _ _ _ => RespType_eqb T T'
  | _ => false
  end.

(** The movies, or the series, that a call to the remote service
    returned. *)
Definition received_movies (c : io) : option (list Movie.t) :=
  match c with
  | io_axios T _ _ r =>
      match T return JsError + resp T -> option (list Movie.t) with
      | TMovies => fun r => match r with inr d => Some d | inl _ => None end
      | _ => fun _ => None
      end r
  | _ => None
  end.

Definition received_series (c : io) : option (list Series.t) :=
  match c with
  | io_axios T _ _ r =>
      match T return JsError + resp T -> option (list Series.t) with
      | TSeries => fun r => match r with inr d => Some d | inl _ => None end
      | _ => fun _ => None
      end r
  | _ => None
  end.

Definition session (this : XtreamCodesApi) : bool :=
  notnull (credentials this) && notnull (authData this).

Definition not_authenticated : JsError :=
  Error "Not authenticated. Please login first.".

(** ** The persistent store, when it works

    What the key-value store holds, as a finite map, used to say what a
    store that answers every call, and truthfully, returns. *)

(** The content after the calls of [tr] (a rejected write changes
    nothing). *)
Fixpoint store_after (s : gmap string string) (tr : list io) : gmap string string :=
  match tr with
  | [] => s
  | io_setItem k v (inr _) :: tr' => store_after (<[k:=v]> s) tr'
  | io_removeItem k (inr _) :: tr' => store_after (delete k s) tr'
  | _ :: tr' => store_after s tr'
  end.

(** Every call to the store in [tr] succeeds, and every read returns
    what the store holds, starting from the content [s]. *)
Fixpoint reliable_store (s : gmap string string) (tr : list io) : Prop :=
  match tr with
  | [] => True
  | io_getItem k r :: tr' => r = inr (s !! k) /\ reliable_store s tr'
  | io_setItem k v r :: tr' => r = inr tt /\ reliable_store (<[k:=v]> s) tr'
  | io_removeItem k r :: tr' => r = inr tt /\ reliable_store (delete k s) tr'
  | _ :: tr' => reliable_store s tr'
  end.

(** The place of a catalog type in the order in which [loadCaches]
    installs the entries. *)
Definition load_order (ty : CatalogType) : nat :=
  match ty with
  | VOD_STREAMS => 0
  | VOD_CATEGORIES => 1
  | SERIES => 2
  | SERIES_CATEGORIES => 3
  end.

(** ** The methods without a cache *)

(** [`${n}`] for an integral [number]: its decimal digits, with a minus
    sign when negative. *)
Definition Number_toString (n : number) : string := pretty n.

(** The [format] of a series stream. *)
Inductive StreamFormat : Type := mp4 | m3u8 | ts.

Definition StreamFormat_text (format : StreamFormat) : string :=
  match format with
  | mp4 => "mp4"
  | m3u8 => "m3u8"
  | ts => "ts"
  end.

(** [String.prototype.toLowerCase], a function of the platform. *)
Class StringPrototype : Type := {
  toLowerCase : string -> string
}.

(** [s.includes(t)]: the text [t] occurs in [s]. *)
Fixpoint includes (s t : string) : bool :=
  String.prefix t s ||
  match s with
  | EmptyString => false
  | String _ s' => includes s' t
  end.

Section XtreamCodesApi_uncached.

Context {JSON_vod : JSON (CacheObject Movie.t)}.
Context {JSON_series : JSON (CacheObject Series.t)}.
Context {String_prototype : StringPrototype}.

Definition getLiveCategories : Method (list Category.t) :=
  ensureAuthenticated ;;
  url <- apiUrl ;;
  c <- credentials_nonnull ;;
  response <- axios_get TCategories url
                [("username", username c);
                 ("password", password c);
                 ("action", "get_live_categories")] ;;
  (* Add category type for filtering purposes *)
  ret (map (Category.with_type live) response).

(** Get stream URL for live TV *)
Definition getLiveStreamUrl (stream_id : number) : Method string :=
  ensureAuthenticated ;;
  c <- credentials_nonnull ;;
  ret (serverUrl c +:+ "/live/" +:+ username c +:+ "/" +:+ password c +:+ "/"
       +:+ Number_toString stream_id +:+ ".m3u8").

(** Get stream URL for VOD (Movies) *)
Definition getVodStreamUrl (stream_id : number) : Method string :=
  ensureAuthenticated ;;
  c <- credentials_nonnull ;;
  ret (serverUrl c +:+ "/movie/" +:+ username c +:+ "/" +:+ password c +:+ "/"
       +:+ Number_toString stream_id +:+ ".mp4").

(** Get stream URL for Series episode; [format = None] is an omitted
    argument, which defaults to ['mp4']. *)
Definition getSeriesStreamUrl (series_id : number) (episode_id : string)
    (format : option StreamFormat) : Method string :=
  let format := default mp4 format in
  ensureAuthenticated ;;
  c <- credentials_nonnull ;;
  ret (serverUrl c +:+ "/series/" +:+ username c +:+ "/" +:+ password c +:+ "/"
       +:+ episode_id +:+ "." +:+ StreamFormat_text format).

(** [name.toLowerCase().includes(query.toLowerCase())] *)
Definition name_matches (query name : string) : bool :=
  includes (toLowerCase name) (toLowerCase query).

(** Search methods *)
Definition searchLiveStreams (query : string) : Method (list Channel.t) :=
  allChannels <- getLiveStreams None ;;
  ret (List.filter (fun channel => name_matches query (Channel.name channel))
         allChannels).

Definition searchVodStreams (query : string) : Method (list Movie.t) :=
  allMovies <- getVodStreams None ;;
  ret (List.filter (fun movie => name_matches query (Movie.name movie))
         allMovies).

Definition searchSeries (query : string) : Method (list Series.t) :=
  allSeries <- getSeries None ;;
  ret (List.filter (fun series => name_matches query (Series.name series))
         allSeries).

End XtreamCodesApi_uncached.

(** ** Asynchronous functions outside the class

    A function of another module or of a component: it runs on a state
    [S], calls the platform, and returns or throws. A method of the
    class is such a function on the fields of the object. *)
Definition Async (S A : Type) : Type := S -> prog (S * (JsError + A)).

Section Async.

Context {S : Type}.

Definition async_ret {A : Type} (a : A) : Async S A :=
  fun s => Ret (s, inr a).

Definition async_throw {A : Type} (e : JsError) : Async S A :=
  fun s => Ret (s, inl e).

Definition async_bind {A B : Type} (m : Async S A) (f : A -> Async S B)
  : Async S B :=
  fun s =>
    pbind (m s) (fun out =>
      match out with
      | (s', inl e) => Ret (s', inl e)
      | (s', inr a) => f a s'
      end).

(** [try { body } catch (error) { handler }] *)
Definition async_try_catch {A : Type} (body : Async S A)
    (handler : JsError -> Async S A) : Async S A :=
  fun s =>
    pbind (body s) (fun out =>
      match out with
      | (s', inl e) => handler e s'
      | (s', inr a) => Ret (s', inr a)
      end).

(** [try { body } finally { final }]: [final] runs whatever [body] did,
    and the outcome is that of [body] unless [final] throws. *)
Definition async_finally {A : Type} (body : Async S A) (final : Async S unit)
  : Async S A :=
  fun s =>
    pbind (body s) (fun out =>
      pbind (final (fst out)) (fun out' =>
        match snd out' with
        | inl e => Ret (fst out', inl e)
        | inr _ => Ret (fst out', snd out)
        end)).

(** An assignment to the state. *)
Definition async_modify (f : S -> S) : Async S unit :=
  fun s => Ret (f s, inr tt).

(** [await] on a settled promise; also a call that may throw. *)
Definition async_await {A : Type} (r : JsError + A) : Async S A :=
  fun s => Ret (s, r).

(** Platform calls, awaited. *)
Definition async_Date_now : Async S Z :=
  fun s => DateNow (fun t => Ret (s, inr t)).

Definition async_getItem (key : string) : Async S (option string) :=
  fun s => GetItem key (fun r => Ret (s, r)).

Definition async_setItem (key value : string) : Async S unit :=
  fun s => SetItem key value (fun r => Ret (s, r)).

Definition async_removeItem (key : string) : Async S unit :=
  fun s => RemoveItem key (fun r => Ret (s, r)).

Definition async_console_error (msg : string) (err : JsError) : Async S unit :=
  fun s => ConsoleError msg err (Ret (s, inr tt)).

End Async.

Declare Scope async_scope.
Delimit Scope async_scope with async.
Notation "x <- m ;; k" := (async_bind m (fun x => k))
  (at level 100, m at next level, right associativity) : async_scope.
Notation "m ;; k" := (async_bind m (fun _ => k))
  (at level 100, right associativity) : async_scope.

(** [Array.prototype.sort(compare)]. The sort is stable; for a
    [compare] that orders the elements consistently its result is the
    one arrangement in that order that keeps equal elements in their
    former order, built here by insertion. *)
Fixpoint Array_sort_insert {A : Type} (compare : A -> A -> Z) (x : A)
    (l : list A) : list A :=
  match l with
  | [] => [x]
  | y :: l' =>
      if (compare x y <=? 0)%Z then x :: l
      else y :: Array_sort_insert compare x l'
  end.

Definition Array_sort {A : Type} (compare : A -> A -> Z) (l : list A) : list A :=
  fold_right (Array_sort_insert compare) [] l.

(** ** The list of saved users (services/UserManager) *)

Module SavedUser.
Record t : Type := {
  username : string;
  password : string;
  serverUrl : string;
  lastLogin : number  (* timestamp *)
}.
End SavedUser.

(** The functions of the module have no state of their own: they run
    on the state [S] of whoever calls them and leave it as it is. *)
Module UserManager.

Definition SAVED_USERS_KEY : string := "huluxtream_saved_users".

Section UserManager.

Context {S : Type}.
Context {JSON_users : JSON (list SavedUser.t)}.

Local Open Scope async_scope.

(** Get all saved users *)
Definition getSavedUsers : Async S (list SavedUser.t) :=
  async_try_catch
    (data <- async_getItem SAVED_USERS_KEY ;;
     match truthy data with
     | Some data => async_await (JSON_parse data)
     | None => async_ret []
     end)
    (fun error =>
       async_console_error "Error getting saved users:" error ;;
       async_ret []).

(** Save a user to the list of saved users; [user] is a saved user
    without its [lastLogin]. *)
Definition saveUser (user : XtreamCredentials) : Async S unit :=
  async_try_catch
    ((* Get current saved users *)
     savedUsers <- getSavedUsers ;;
     (* Update or add the user *)
     let updatedUsers :=
       List.filter
         (fun u => negb (String.eqb (SavedUser.username u) (username user)))
         savedUsers in
     now <- async_Date_now ;;
     let updatedUsers :=
       updatedUsers ++ [ {| SavedUser.username := username user;
                            SavedUser.password := password user;
                            SavedUser.serverUrl := serverUrl user;
                            SavedUser.lastLogin := now |} ] in
     (* Sort by most recent login *)
     let updatedUsers :=
       Array_sort (fun a b => SavedUser.lastLogin b - SavedUser.lastLogin a)
         updatedUsers in
     (* Save back to storage *)
     async_setItem SAVED_USERS_KEY (JSON_stringify updatedUsers))
    (fun error => async_console_error "Error saving user:" error).

(** Remove a user from the saved users list *)
Definition removeUser (username : string) : Async S unit :=
  async_try_catch
    (savedUsers <- getSavedUsers ;;
     let updatedUsers :=
       List.filter
         (fun user => negb (String.eqb (SavedUser.username user) username))
         savedUsers in
     async_setItem SAVED_USERS_KEY (JSON_stringify updatedUsers))
    (fun error => async_console_error "Error removing user:" error).

(** Clear all saved users *)
Definition clearAllUsers : Async S unit :=
  async_try_catch
    (async_removeItem SAVED_USERS_KEY)
    (fun error => async_console_error "Error clearing users:" error).

End UserManager.

End UserManager.

(** ** The storage keys of a user (contexts/FavoritesContext,
    contexts/ParentalControlContext)

    Both modules work on the exported object [xtreamApi]: their
    functions are written as methods over its fields. *)

Module FavoritesContext.

(** Base Storage key *)
Definition FAVORITES_STORAGE_KEY_BASE : string := "huluxtream_favorites".

(** Helper to get user-specific storage key. The [return] inside the
    [try] is the [Some] of the block's value. *)
Definition getUserStorageKey : Method string :=
  returned <-
    try_catch
      ((* Check if logged in first *)
       isLoggedIn <- isLoggedIn ;;
       if isLoggedIn then
         this <- get_this ;;
         match getUserInfo this with
         | Some userInfo =>
             match truthy (Some (UserSummary.username userInfo)) with
             | Some username =>
                 ret (Some (FAVORITES_STORAGE_KEY_BASE +:+ "_" +:+ username))
             | None => ret None
             end
         | None => ret None
         end
       else ret None)
      (fun error =>
         console_error "Error getting user info:" error ;; ret None) ;;
  match returned with
  | Some key => ret key
  | None =>
      (* Default key if not logged in or error *)
      ret FAVORITES_STORAGE_KEY_BASE
  end.

End FavoritesContext.

Module ParentalControlContext.

(** Base storage keys *)
Definition PARENTAL_CONTROL_ENABLED_KEY_BASE : string :=
  "huluxtream_parental_control_enabled".
Definition PARENTAL_CONTROL_PIN_KEY_BASE : string :=
  "huluxtream_parental_control_pin".
Definition RESTRICTED_CATEGORIES_KEY_BASE : string :=
  "huluxtream_restricted_categories".

Record StorageKeys : Type := {
  enabledKey : string;
  pinKey : string;
  categoriesKey : string
}.

(** Helper to get user-specific storage key *)
Definition getUserPrefix : Method string :=
  returned <-
    try_catch
      ((* Check if logged in first *)
       isLoggedIn <- isLoggedIn ;;
       if isLoggedIn then
         this <- get_this ;;
         match getUserInfo this with
         | Some userInfo =>
             match truthy (Some (UserSummary.username userInfo)) with
             | Some username => ret (Some (username +:+ "_"))
             | None => ret None
             end
         | None => ret None
         end
       else ret None)
      (fun error =>
         console_error "Error getting user info:" error ;; ret None) ;;
  match returned with
  | Some prefix => ret prefix
  | None =>
      (* Default empty prefix if not logged in or error *)
      ret ""
  end.

(** Get user-specific storage keys *)
Definition getUserStorageKeys : Method StorageKeys :=
  prefix <- getUserPrefix ;;
  ret {| enabledKey := prefix +:+ PARENTAL_CONTROL_ENABLED_KEY_BASE;
         pinKey := prefix +:+ PARENTAL_CONTROL_PIN_KEY_BASE;
         categoriesKey := prefix +:+ RESTRICTED_CATEGORIES_KEY_BASE |}.

End ParentalControlContext.

(** ** The authentication context (contexts/AuthContext)

    The state of the application as [AuthProvider] sees it: the state
    variables of the component, the exported object [xtreamApi], and
    the routes given to [router.replace], the latest first. The
    functions of the component only assign its state variables, so a
    [setX(v)] is an assignment. *)

Module AuthContext.

Module State.
Record t : Type := {
  isLoading : bool;
  isLoggedIn : bool;
  error : option string;
  authData : option AuthResponse
}.
End State.

Record App : Type := {
  xtreamApi : XtreamCodesApi;
  state : State.t;
  replaced : list string
}.

(** The state of the component when it is first rendered. *)
Definition useState_init : State.t :=
  {| State.isLoading := true; State.isLoggedIn := false;
     State.error := None; State.authData := None |}.

Local Open Scope async_scope.

(** A call of a method of [xtreamApi]. *)
Definition on_xtreamApi {A : Type} (m : Method A) : Async App A :=
  fun app =>
    pbind (m (xtreamApi app)) (fun out =>
      Ret ({| xtreamApi := fst out; state := state app;
              replaced := replaced app |}, snd out)).

Definition setState (f : State.t -> State.t) : Async App unit :=
  async_modify (fun app =>
    {| xtreamApi := xtreamApi app; state := f (state app);
       replaced := replaced app |}).

Definition setIsLoading (v : bool) : Async App unit :=
  setState (fun s =>
    {| State.isLoading := v; State.isLoggedIn := State.isLoggedIn s;
       State.error := State.error s; State.authData := State.authData s |}).

Definition setIsLoggedIn (v : bool) : Async App unit :=
  setState (fun s =>
    {| State.isLoading := State.isLoading s; State.isLoggedIn := v;
       State.error := State.error s; State.authData := State.authData s |}).

Definition setError (v : option string) : Async App unit :=
  setState (fun s =>
    {| State.isLoading := State.isLoading s;
       State.isLoggedIn := State.isLoggedIn s;
       State.error := v; State.authData := State.authData s |}).

Definition setAuthData (v : option AuthResponse) : Async App unit :=
  setState (fun s =>
    {| State.isLoading := State.isLoading s;
       State.isLoggedIn := State.isLoggedIn s;
       State.error := State.error s; State.authData := v |}).

Definition router_replace (route : string) : Async App unit :=
  async_modify (fun app =>
    {| xtreamApi := xtreamApi app; state := state app;
       replaced := route :: replaced app |}).

(** [error.message || fallback] *)
Definition message_or (err : JsError) (fallback : string) : string :=
  match err with
  | mkError _ message => if String.eqb message "" then fallback else message
  end.

Section AuthProvider.

Context {JSON_auth : JSON StoredAuth.t}.
Context {JSON_users : JSON (list SavedUser.t)}.

Definition login (credentials : XtreamCredentials) : Async App unit :=
  setIsLoading true ;;
  setError None ;;
  async_finally
    (async_try_catch
       ((* await xtreamApi.login(credentials) *)
        response <- on_xtreamApi (login credentials) ;;
        setAuthData (Some response) ;;
        setIsLoggedIn true ;;
        (* Save the user credentials for the user list *)
        UserManager.saveUser {| username := username credentials;
                                password := password credentials;
                                serverUrl := serverUrl credentials |} ;;
        (* Navigate to main app *)
        router_replace "/")
       (fun error =>
          setError
            (Some (message_or error
                     "Failed to login. Please check your credentials.")) ;;
          async_console_error "Login error:" error))
    (setIsLoading false).

Definition logout : Async App unit :=
  setIsLoading true ;;
  async_finally
    (async_try_catch
       ((* await xtreamApi.logout() *)
        on_xtreamApi logout ;;
        setIsLoggedIn false ;;
        setAuthData None ;;
        (* Navigate to login *)
        router_replace "/(auth)")
       (fun error => async_console_error "Logout error:" error))
    (setIsLoading false).

End AuthProvider.

End AuthContext.

(** ** Views used in the statements *)

(** The [action] parameter of the request of a catalog type. *)
Definition catalog_action (ty : CatalogType) : string :=
  match ty with
  | VOD_STREAMS => "get_vod_streams"
  | VOD_CATEGORIES => "get_vod_categories"
  | SERIES => "get_series"
  | SERIES_CATEGORIES => "get_series_categories"
  end.

(** The parameters of a request with the given [action], under a
    category filter. *)
Definition request_params (c : XtreamCredentials) (action : string)
    (category_id : option string) : RequestParams :=
  with_category_id [("username", username c); ("password", password c);
                    ("action", action)] category_id.

(** The number of calls to the remote service. *)
Definition network_calls (tr : list io) : nat :=
  length (List.filter is_network tr).

(** The object [saveCredentials] writes for the fields of [this]. *)
Definition stored_auth (this : XtreamCodesApi) : StoredAuth.t :=
  {| StoredAuth.credentials := credentials this;
     StoredAuth.authData := authData this |}.

(** The keys [logout] removes for every user, in the order of the
    removals. *)
Definition logout_keys : list string :=
  [AUTH_STORAGE_KEY; VOD_CACHE_KEY; VOD_CATEGORIES_CACHE_KEY; SERIES_CACHE_KEY;
   SERIES_CATEGORIES_CACHE_KEY].

(** The keys [logout] removes for the user [username], in the order of
    the removals. *)
Definition logout_user_keys (username : string) : list string :=
  ["huluxtream_favorites_" +:+ username;
   username +:+ "_huluxtream_parental_control_enabled";
   username +:+ "_huluxtream_parental_control_pin";
   username +:+ "_huluxtream_restricted_categories"].

(** The user name [logout] has in hand: the one of the session, when
    there is a session and the name is not empty. *)
Definition logout_user (this : XtreamCodesApi) : option string :=
  truthy (option_map UserSummary.username (getUserInfo this)).

(** The keys whose removal was asked of the store, in order. *)
Definition removals (tr : list io) : list string :=
  flat_map (fun c => match c with io_removeItem k _ => [k] | _ => [] end) tr.

Section saved_users.

Context {JSON_users : JSON (list SavedUser.t)}.

(** The list [getSavedUsers] returns for an answer of the store to the
    read of [SAVED_USERS_KEY]. *)
Definition stored_users (answer : JsError + option string) : list SavedUser.t :=
  match answer with
  | inr data =>
      match truthy data with
      | Some text =>
          match JSON_parse text with
          | inr users => users
          | inl _ => []
          end
      | None => []
      end
  | inl _ => []
  end.

(** The error of that read, if any: the rejection of the store, or
    what [JSON.parse] throws. *)
Definition read_failure (answer : JsError + option string) : option JsError :=
  match answer with
  | inr data =>
      match truthy data with
      | Some text =>
          match JSON_parse text : JsError + list SavedUser.t with
          | inr _ => None
          | inl e => Some e
          end
      | None => None
      end
  | inl e => Some e
  end.

End saved_users.

(** A saved user made of [user] at the time [now]. *)
Definition saved_at (user : XtreamCredentials) (now : number) : SavedUser.t :=
  {| SavedUser.username := username user;
     SavedUser.password := password user;
     SavedUser.serverUrl := serverUrl user;
     SavedUser.lastLogin := now |}.

(** The entries of a list that are not those of [name]. *)
Definition other_users (name : string) (users : list SavedUser.t)
  : list SavedUser.t :=
  List.filter (fun u => negb (String.eqb (SavedUser.username u) name)) users.

(** The list [saveUser] writes for [user] at the time [now] when the
    list it read is [users]. *)
Definition updated_users (user : XtreamCredentials) (now : number)
    (users : list SavedUser.t) : list SavedUser.t :=
  Array_sort (fun a b => SavedUser.lastLogin b - SavedUser.lastLogin a)
    (other_users (username user) users ++ [saved_at user now]).

(** Most recent login first. *)
Definition most_recent_first (users : list SavedUser.t) : Prop :=
  StronglySorted
    (fun a b => SavedUser.lastLogin b <= SavedUser.lastLogin a) users.

(** ** A reference platform

    A concrete [JSON] (a printer and a parser of JSON text for the stored
    objects, integers for numbers, no white space) and a concrete
    platform, on which the methods run. The theorems below do not depend
    on them: they hold for every [JSON] and every platform. *)

Local Set Warnings "-register-all".

Module Json.

Inductive value : Type :=
| Null
| Num (z : Z)
| Str (s : string)
| Arr (l : list value)
| Obj (l : list (string * value)).

Definition quote : ascii := ascii_of_nat 34.
Definition backslash : ascii := ascii_of_nat 92.

Fixpoint escape (s : string) : string :=
  match s with
  | EmptyString => EmptyString
  | String c rest =>
      if Ascii.eqb c quote || Ascii.eqb c backslash
      then String backslash (String c (escape rest))
      else String c (escape rest)
  end.

Definition print_string (s : string) : string :=
  String quote (escape s +:+ String quote EmptyString).

Fixpoint print (v : value) : string :=
  match v with
  | Null => "null"
  | Num z => pretty z
  | Str s => print_string s
  | Arr l =>
      "[" +:+
      (fix elems (l : list value) : string :=
         match l with
         | [] => ""
         | x :: rest =>
             match rest with
             | [] => print x
             | _ :: _ => print x +:+ "," +:+ elems rest
             end
         end) l +:+ "]"
  | Obj l =>
      "{" +:+
      (fix members (l : list (string * value)) : string :=
         match l with
         | [] => ""
         | (k, x) :: rest =>
             match rest with
             | [] => print_string k +:+ ":" +:+ print x
             | _ :: _ => print_string k +:+ ":" +:+ print x +:+ "," +:+ members rest
             end
         end) l +:+ "}"
  end.

(** [after p s]: what follows the prefix [p] of [s]. *)
Fixpoint after (p s : string) : option string :=
  match p, s with
  | EmptyString, _ => Some s
  | String a p', String b s' => if Ascii.eqb a b then after p' s' else None
  | String _ _, EmptyString => None
  end.

(** The body of a string literal, up to its closing quote. *)
Fixpoint read_string (s : string) : option (string * string) :=
  match s with
  | EmptyString => None
  | String c rest =>
      if Ascii.eqb c quote then Some (EmptyString, rest)
      else if Ascii.eqb c backslash then
        match rest with
        | String c' rest' =>
            match read_string rest' with
            | Some (body, r) => Some (String c' body, r)
            | None => None
            end
        | EmptyString => None
        end
      else
        match read_string rest with
        | Some (body, r) => Some (String c body, r)
        | None => None
        end
  end.

Definition digit (c : ascii) : option Z :=
  let n := nat_of_ascii c in
  if (48 <=? n)%nat && (n <=? 57)%nat then Some (Z.of_nat (n - 48)) else None.

Fixpoint read_digits (acc : Z) (s : string) : Z * string :=
  match s with
  | String c rest =>
      match digit c with
      | Some d => read_digits (10 * acc + d) rest
      | None => (acc, s)
      end
  | EmptyString => (acc, s)
  end.

Definition read_number (s : string) : option (Z * string) :=
  match after "-" s with
  | Some rest =>
      match rest with
      | String c _ =>
          match digit c with
          | Some _ => let '(n, r) := read_digits 0 rest in Some (- n, r)
          | None => None
          end
      | EmptyString => None
      end
  | None =>
      match s with
      | String c _ =>
          match digit c with
          | Some _ => Some (read_digits 0 s)
          | None => None
          end
      | EmptyString => None
      end
  end.

(** What the parser is reading: a value, the rest of an array, or the
    rest of an object. *)
Inductive mode : Type :=
| Value
| Elems (acc : list value)
| Members (acc : list (string * value)).

Fixpoint parse_from (fuel : nat) (m : mode) (s : string) : option (value * string) :=
  match fuel with
  | O => None
  | S fuel =>
      match m with
      | Value =>
          match after "null" s, after "[]" s, after "[" s, after "{}" s, after "{" s with
          | Some rest, _, _, _, _ => Some (Null, rest)
          | None, Some rest, _, _, _ => Some (Arr [], rest)
          | None, None, Some rest, _, _ => parse_from fuel (Elems []) rest
          | None, None, None, Some rest, _ => Some (Obj [], rest)
          | None, None, None, None, Some rest => parse_from fuel (Members []) rest
          | None, None, None, None, None =>
              match after (String quote EmptyString) s with
              | Some rest =>
                  match read_string rest with
                  | Some (str, r) => Some (Str str, r)
                  | None => None
                  end
              | None =>
                  match read_number s with
                  | Some (n, r) => Some (Num n, r)
                  | None => None
                  end
              end
          end
      | Elems acc =>
          match parse_from fuel Value s with
          | Some (v, rest) =>
              match after "," rest, after "]" rest with
              | Some rest', _ => parse_from fuel (Elems (v :: acc)) rest'
              | None, Some rest' => Some (Arr (rev (v :: acc)), rest')
              | None, None => None
              end
          | None => None
          end
      | Members acc =>
          match after (String quote EmptyString) s with
          | Some rest =>
              match read_string rest with
              | Some (k, r) =>
                  match after ":" r with
                  | Some r' =>
                      match parse_from fuel Value r' with
                      | Some (v, rest') =>
                          match after "," rest', after "}" rest' with
                          | Some rest'', _ =>
                              parse_from fuel (Members ((k, v) :: acc)) rest''
                          | None, Some rest'' =>
                              Some (Obj (rev ((k, v) :: acc)), rest'')
                          | None, None => None
                          end
                      | None => None
                      end
                  | None => None
                  end
              | None => None
              end
          | None => None
          end
      end
  end.

Definition parse (s : string) : option value :=
  match parse_from (S (2 * String.length s)) Value s with
  | Some (v, EmptyString) => Some v
  | _ => None
  end.

(** Reading the properties of an object. *)
Fixpoint field (k : string) (o : list (string * value)) : option value :=
  match o with
  | [] => None
  | (k', v) :: rest => if String.eqb k k' then Some v else field k rest
  end.

Definition get_str (k : string) (o : list (string * value)) : option string :=
  match field k o with Some (Str s) => Some s | _ => None end.

Definition get_num (k : string) (o : list (string * value)) : option Z :=
  match field k o with Some (Num z) => Some z | _ => None end.

Definition get_arr (k : string) (o : list (string * value)) : option (list value) :=
  match field k o with Some (Arr l) => Some l | _ => None end.

(** An [undefined] property is left out of the text. *)
Definition optional {A : Type} (k : string) (enc : A -> value) (o : option A)
  : list (string * value) :=
  match o with
  | Some a => [(k, enc a)]
  | None => []
  end.

(** A [null] property is written as [null]. *)
Definition nullable {A : Type} (enc : A -> value) (o : option A) : value :=
  match o with
  | Some a => enc a
  | None => Null
  end.

Definition as_str (v : value) : option string :=
  match v with Str s => Some s | _ => None end.

End Json.

Definition SyntaxError (message : string) : JsError := mkError "SyntaxError" message.

(** The [JSON] of a type from its encoding as a JSON value; text that
    is no JSON, or JSON of another shape, makes [JSON_parse] throw. *)
Definition JSON_of {A : Type} (enc : A -> Json.value) (dec : Json.value -> option A)
  : JSON A :=
  {| JSON_stringify := fun a => Json.print (enc a);
     JSON_parse := fun s =>
       match Json.parse s with
       | Some v =>
           match dec v with
           | Some a => inr a
           | None => inl (SyntaxError "Unexpected token in JSON")
           end
       | None => inl (SyntaxError "Unexpected token in JSON")
       end |}.

(** *** The stored objects as JSON values *)

Definition enc_CategoryType (ty : CategoryType) : Json.value :=
  match ty with
  | live => Json.Str "live"
  | movie => Json.Str "movie"
  | series => Json.Str "series"
  end.

Definition dec_CategoryType (v : Json.value) : option CategoryType :=
  match v with
  | Json.Str s =>
      if String.eqb s "live" then Some live
      else if String.eqb s "movie" then Some movie
      else if String.eqb s "series" then Some series
      else None
  | _ => None
  end.

Definition enc_Category (c : Category.t) : Json.value :=
  Json.Obj
    ([("category_id", Json.Str (Category.category_id c));
      ("category_name", Json.Str (Category.category_name c));
      ("parent_id", Json.Num (Category.parent_id c))]
     ++ Json.optional "category_type" enc_CategoryType (Category.category_type c)).

Definition dec_Category (v : Json.value) : option Category.t :=
  match v with
  | Json.Obj o =>
      category_id ← Json.get_str "category_id" o;
      category_name ← Json.get_str "category_name" o;
      parent_id ← Json.get_num "parent_id" o;
      Some {| Category.category_id := category_id;
              Category.category_name := category_name;
              Category.parent_id := parent_id;
              Category.category_type :=
                Json.field "category_type" o ≫= dec_CategoryType |}
  | _ => None
  end.

Definition enc_Movie (m : Movie.t) : Json.value :=
  Json.Obj
    [("num", Json.Num (Movie.num m));
     ("name", Json.Str (Movie.name m));
     ("stream_type", Json.Str (Movie.stream_type m));
     ("stream_id", Json.Num (Movie.stream_id m));
     ("stream_icon", Json.Str (Movie.stream_icon m));
     ("added", Json.Str (Movie.added m));
     ("category_id", Json.Str (Movie.category_id m));
     ("container_extension", Json.Str (Movie.container_extension m));
     ("custom_sid", Json.Str (Movie.custom_sid m));
     ("direct_source", Json.Str (Movie.direct_source m))].

Definition dec_Movie (v : Json.value) : option Movie.t :=
  match v with
  | Json.Obj o =>
      num ← Json.get_num "num" o;
      name ← Json.get_str "name" o;
      stream_type ← Json.get_str "stream_type" o;
      stream_id ← Json.get_num "stream_id" o;
      stream_icon ← Json.get_str "stream_icon" o;
      added ← Json.get_str "added" o;
      category_id ← Json.get_str "category_id" o;
      container_extension ← Json.get_str "container_extension" o;
      custom_sid ← Json.get_str "custom_sid" o;
      direct_source ← Json.get_str "direct_source" o;
      Some {| Movie.num := num; Movie.name := name;
              Movie.stream_type := stream_type; Movie.stream_id := stream_id;
              Movie.stream_icon := stream_icon; Movie.added := added;
              Movie.category_id := category_id;
              Movie.container_extension := container_extension;
              Movie.custom_sid := custom_sid;
              Movie.direct_source := direct_source |}
  | _ => None
  end.

Definition enc_Series (s : Series.t) : Json.value :=
  Json.Obj
    [("series_id", Json.Num (Series.series_id s));
     ("name", Json.Str (Series.name s));
     ("cover", Json.Str (Series.cover s));
     ("plot", Json.Str (Series.plot s));
     ("cast", Json.Str (Series.cast s));
     ("director", Json.Str (Series.director s));
     ("genre", Json.Str (Series.genre s));
     ("release_date", Json.Str (Series.release_date s));
     ("last_modified", Json.Str (Series.last_modified s));
     ("rating", Json.Str (Series.rating s));
     ("rating_5based", Json.Num (Series.rating_5based s));
     ("backdrop_path", Json.Str (Series.backdrop_path s));
     ("youtube_trailer", Json.Str (Series.youtube_trailer s));
     ("episode_run_time", Json.Str (Series.episode_run_time s));
     ("category_id", Json.Str (Series.category_id s))].

Definition dec_Series (v : Json.value) : option Series.t :=
  match v with
  | Json.Obj o =>
      series_id ← Json.get_num "series_id" o;
      name ← Json.get_str "name" o;
      cover ← Json.get_str "cover" o;
      plot ← Json.get_str "plot" o;
      cast ← Json.get_str "cast" o;
      director ← Json.get_str "director" o;
      genre ← Json.get_str "genre" o;
      release_date ← Json.get_str "release_date" o;
      last_modified ← Json.get_str "last_modified" o;
      rating ← Json.get_str "rating" o;
      rating_5based ← Json.get_num "rating_5based" o;
      backdrop_path ← Json.get_str "backdrop_path" o;
      youtube_trailer ← Json.get_str "youtube_trailer" o;
      episode_run_time ← Json.get_str "episode_run_time" o;
      category_id ← Json.get_str "category_id" o;
      Some {| Series.series_id := series_id; Series.name := name;
              Series.cover := cover; Series.plot := plot; Series.cast := cast;
              Series.director := director; Series.genre := genre;
              Series.release_date := release_date;
              Series.last_modified := last_modified; Series.rating := rating;
              Series.rating_5based := rating_5based;
              Series.backdrop_path := backdrop_path;
              Series.youtube_trailer := youtube_trailer;
              Series.episode_run_time := episode_run_time;
              Series.category_id := category_id |}
  | _ => None
  end.

Definition enc_CacheObject {T : Type} (enc : T -> Json.value) (c : CacheObject T)
  : Json.value :=
  Json.Obj
    ([("data", Json.Arr (map enc (data c)));
      ("timestamp", Json.Num (timestamp c))]
     ++ Json.optional "categoryId" Json.Str (categoryId c)).

Definition dec_CacheObject {T : Type} (dec : Json.value -> option T)
    (v : Json.value) : option (CacheObject T) :=
  match v with
  | Json.Obj o =>
      items ← Json.get_arr "data" o;
      data ← mapM dec items;
      timestamp ← Json.get_num "timestamp" o;
      Some {| data := data; timestamp := timestamp;
              categoryId := Json.field "categoryId" o ≫= Json.as_str |}
  | _ => None
  end.

Definition enc_XtreamCredentials (c : XtreamCredentials) : Json.value :=
  Json.Obj
    [("username", Json.Str (username c));
     ("password", Json.Str (password c));
     ("serverUrl", Json.Str (serverUrl c))].

Definition dec_XtreamCredentials (v : Json.value) : option XtreamCredentials :=
  match v with
  | Json.Obj o =>
      username ← Json.get_str "username" o;
      password ← Json.get_str "password" o;
      serverUrl ← Json.get_str "serverUrl" o;
      Some {| username := username; password := password; serverUrl := serverUrl |}
  | _ => None
  end.

Definition enc_UserInfo (u : UserInfo.t) : Json.value :=
  Json.Obj
    [("username", Json.Str (UserInfo.username u));
     ("password", Json.Str (UserInfo.password u));
     ("message", Json.Str (UserInfo.message u));
     ("auth", Json.Num (UserInfo.auth u));
     ("status", Json.Str (UserInfo.status u));
     ("exp_date", Json.Str (UserInfo.exp_date u));
     ("is_trial", Json.Str (UserInfo.is_trial u));
     ("active_cons", Json.Str (UserInfo.active_cons u));
     ("created_at", Json.Str (UserInfo.created_at u));
     ("max_connections", Json.Str (UserInfo.max_connections u));
     ("allowed_output_formats",
      Json.Arr (map Json.Str (UserInfo.allowed_output_formats u)))].

Definition dec_UserInfo (v : Json.value) : option UserInfo.t :=
  match v with
  | Json.Obj o =>
      username ← Json.get_str "username" o;
      password ← Json.get_str "password" o;
      message ← Json.get_str "message" o;
      auth ← Json.get_num "auth" o;
      status ← Json.get_str "status" o;
      exp_date ← Json.get_str "exp_date" o;
      is_trial ← Json.get_str "is_trial" o;
      active_cons ← Json.get_str "active_cons" o;
      created_at ← Json.get_str "created_at" o;
      max_connections ← Json.get_str "max_connections" o;
      formats ← Json.get_arr "allowed_output_formats" o;
      allowed_output_formats ← mapM Json.as_str formats;
      Some {| UserInfo.username := username; UserInfo.password := password;
              UserInfo.message := message; UserInfo.auth := auth;
              UserInfo.status := status; UserInfo.exp_date := exp_date;
              UserInfo.is_trial := is_trial; UserInfo.active_cons := active_cons;
              UserInfo.created_at := created_at;
              UserInfo.max_connections := max_connections;
              UserInfo.allowed_output_formats := allowed_output_formats |}
  | _ => None
  end.

Definition enc_ServerInfo (s : ServerInfo.t) : Json.value :=
  Json.Obj
    [("url", Json.Str (ServerInfo.url s));
     ("port", Json.Str (ServerInfo.port s));
     ("https_port", Json.Str (ServerInfo.https_port s));
     ("server_protocol", Json.Str (ServerInfo.server_protocol s));
     ("rtmp_port", Json.Str (ServerInfo.rtmp_port s));
     ("timezone", Json.Str (ServerInfo.timezone s));
     ("timestamp_now", Json.Num (ServerInfo.timestamp_now s));
     ("time_now", Json.Str (ServerInfo.time_now s))].

Definition dec_ServerInfo (v : Json.value) : option ServerInfo.t :=
  match v with
  | Json.Obj o =>
      url ← Json.get_str "url" o;
      port ← Json.get_str "port" o;
      https_port ← Json.get_str "https_port" o;
      server_protocol ← Json.get_str "server_protocol" o;
      rtmp_port ← Json.get_str "rtmp_port" o;
      timezone ← Json.get_str "timezone" o;
      timestamp_now ← Json.get_num "timestamp_now" o;
      time_now ← Json.get_str "time_now" o;
      Some {| ServerInfo.url := url; ServerInfo.port := port;
              ServerInfo.https_port := https_port;
              ServerInfo.server_protocol := server_protocol;
              ServerInfo.rtmp_port := rtmp_port; ServerInfo.timezone := timezone;
              ServerInfo.timestamp_now := timestamp_now;
              ServerInfo.time_now := time_now |}
  | _ => None
  end.

Definition enc_AuthResponse (a : AuthResponse) : Json.value :=
  Json.Obj
    [("user_info", enc_UserInfo (user_info a));
     ("server_info", enc_ServerInfo (server_info a))].

Definition dec_AuthResponse (v : Json.value) : option AuthResponse :=
  match v with
  | Json.Obj o =>
      u ← Json.field "user_info" o ≫= dec_UserInfo;
      s ← Json.field "server_info" o ≫= dec_ServerInfo;
      Some {| user_info := u; server_info := s |}
  | _ => None
  end.

Definition enc_StoredAuth (a : StoredAuth.t) : Json.value :=
  Json.Obj
    [("credentials", Json.nullable enc_XtreamCredentials (StoredAuth.credentials a));
     ("authData", Json.nullable enc_AuthResponse (StoredAuth.authData a))].

(** A [null] property reads as [null]; an object must have the declared
    shape. *)
Definition dec_nullable {A : Type} (dec : Json.value -> option A) (v : Json.value)
  : option (option A) :=
  match v with
  | Json.Null => Some None
  | _ => a ← dec v; Some (Some a)
  end.

Definition dec_StoredAuth (v : Json.value) : option StoredAuth.t :=
  match v with
  | Json.Obj o =>
      c ← Json.field "credentials" o ≫= dec_nullable dec_XtreamCredentials;
      a ← Json.field "authData" o ≫= dec_nullable dec_AuthResponse;
      Some {| StoredAuth.credentials := c; StoredAuth.authData := a |}
  | _ => None
  end.

Definition JSON_auth_ref : JSON StoredAuth.t := JSON_of enc_StoredAuth dec_StoredAuth.
Definition JSON_vod_ref : JSON (CacheObject Movie.t) :=
  JSON_of (enc_CacheObject enc_Movie) (dec_CacheObject dec_Movie).
Definition JSON_series_ref : JSON (CacheObject Series.t) :=
  JSON_of (enc_CacheObject enc_Series) (dec_CacheObject dec_Series).
Definition JSON_categories_ref : JSON (CacheObject Category.t) :=
  JSON_of (enc_CacheObject enc_Category) (dec_CacheObject dec_Category).

(** *** A platform to run on *)

(** The clock advances by one millisecond at each reading; the store
    holds a finite map and rejects the calls on the keys in [broken];
    the server answers as [server] says. *)
Record World : Type := {
  clock : Z;
  storage : gmap string string;
  broken : string -> bool;
  server : forall T : RespType, string -> RequestParams -> JsError + resp T
}.

Definition store_error : JsError := Error "Failed to access storage".

Definition platform : Env World :=
  {| env_now := fun w =>
       (clock w, {| clock := clock w + 1; storage := storage w;
                    broken := broken w; server := server w |});
     env_axios := fun T url params w => (server w T url params, w);
     env_getItem := fun k w =>
       if broken w k then (inl store_error, w) else (inr (storage w !! k), w);
     env_setItem := fun k v w =>
       if broken w k then (inl store_error, w)
       else (inr tt, {| clock := clock w; storage := <[k:=v]> (storage w);
                        broken := broken w; server := server w |});
     env_removeItem := fun k w =>
       if broken w k then (inl store_error, w)
       else (inr tt, {| clock := clock w; storage := delete k (storage w);
                        broken := broken w; server := server w |}) |}.

(** The outcome, the calls made and the platform left by a run. *)
Definition outcome {A : Type} (x : A * World * list io) : A := fst (fst x).
Definition calls {A : Type} (x : A * World * list io) : list io := snd x.
Definition world_after {A : Type} (x : A * World * list io) : World := snd (fst x).

(** *** Sample data *)

Definition alice : XtreamCredentials :=
  {| username := "alice"; password := "secret"; serverUrl := "http://tv.example" |}.

Definition alice_auth : AuthResponse :=
  {| user_info :=
       {| UserInfo.username := "alice"; UserInfo.password := "secret";
          UserInfo.message := "Welcome"; UserInfo.auth := 1;
          UserInfo.status := "Active"; UserInfo.exp_date := "1800000000";
          UserInfo.is_trial := "0"; UserInfo.active_cons := "0";
          UserInfo.created_at := "1600000000"; UserInfo.max_connections := "1";
          UserInfo.allowed_output_formats := ["m3u8"; "ts"] |};
     server_info :=
       {| ServerInfo.url := "tv.example"; ServerInfo.port := "80";
          ServerInfo.https_port := "443"; ServerInfo.server_protocol := "http";
          ServerInfo.rtmp_port := "1935"; ServerInfo.timezone := "UTC";
          ServerInfo.timestamp_now := 1700000000;
          ServerInfo.time_now := "2023-11-14 22:13:20" |} |}.

Definition heat : Movie.t :=
  {| Movie.num := 1; Movie.name := "Heat"; Movie.stream_type := "movie";
     Movie.stream_id := 101; Movie.stream_icon := "http://tv.example/heat.png";
     Movie.added := "1690000000"; Movie.category_id := "5";
     Movie.container_extension := "mp4"; Movie.custom_sid := "";
     Movie.direct_source := "" |}.

Definition dark : Series.t :=
  {| Series.series_id := 7; Series.name := "Dark";
     Series.cover := "http://tv.example/dark.png"; Series.plot := "A town";
     Series.cast := "L. Hofmann"; Series.director := "B. bo Odar";
     Series.genre := "Drama"; Series.release_date := "2017-12-01";
     Series.last_modified := "1690000000"; Series.rating := "9";
     Series.rating_5based := 4; Series.backdrop_path := "";
     Series.youtube_trailer := ""; Series.episode_run_time := "50";
     Series.category_id := "3" |}.

Definition drama : Category.t :=
  {| Category.category_id := "5"; Category.category_name := "Drama";
     Category.parent_id := 0; Category.category_type := None |}.

Definition news : Channel.t :=
  {| Channel.num := 1; Channel.name := "News"; Channel.stream_type := "live";
     Channel.stream_id := 11; Channel.stream_icon := "";
     Channel.epg_channel_id := "news"; Channel.added := "1690000000";
     Channel.category_id := "1"; Channel.custom_sid := "";
     Channel.tv_archive := 0; Channel.direct_source := "";
     Channel.tv_archive_duration := 0 |}.

Definition network_error : JsError := mkError "AxiosError" "Network Error".

(** A server that answers every request. *)
Definition server_up (T : RespType) (url : string) (params : RequestParams)
  : JsError + resp T :=
  inr (match T return resp T with
       | TAuth => alice_auth
       | TCategories => [drama]
       | TChannels => [news]
       | TMovies => [heat]
       | TSeries => [dark]
       end).

(** A server that cannot be reached. *)
Definition server_down (T : RespType) (url : string) (params : RequestParams)
  : JsError + resp T :=
  inl network_error.

(** A server that answers every request but those for series. *)
Definition server_without_series (T : RespType) (url : string) (params : RequestParams)
  : JsError + resp T :=
  match T return JsError + resp T with
  | TSeries => inl network_error
  | T => server_up T url params
  end.

(** 14 November 2023, in epoch milliseconds. *)
Definition t0 : Z := 1700000000000.

Definition world0 : World :=
  {| clock := t0; storage := ∅; broken := fun _ => false; server := server_up |}.

(** *** Sample runs *)

Module Sample.

#[local] Existing Instance JSON_auth_ref.
#[local] Existing Instance JSON_vod_ref.
#[local] Existing Instance JSON_series_ref.
#[local] Existing Instance JSON_categories_ref.

(** A first session: login, then the movies of category 5, then all
    series. *)
Definition logged_in := run platform (login alice fields_init) world0.
Definition api_a : XtreamCodesApi := fst (outcome logged_in).

Definition movies_5 :=
  run platform (fetchCatalog VOD_STREAMS (Some "5") api_a) (world_after logged_in).
Definition api_b : XtreamCodesApi := fst (outcome movies_5).

(** The movies of category 5 again, right after they were fetched. *)
Definition movies_5_again :=
  run platform (fetchCatalog VOD_STREAMS (Some "5") api_b) (world_after movies_5).

Definition all_series :=
  run platform (fetchCatalog SERIES None api_b) (world_after movies_5).
Definition api_c : XtreamCodesApi := fst (outcome all_series).
Definition world_c : World := world_after all_series.

(** The entries that session left. *)
Definition movies_entry : CacheObject Movie.t :=
  {| data := [heat]; timestamp := t0; categoryId := Some "5" |}.
Definition series_entry : CacheObject Series.t :=
  {| data := [dark]; timestamp := t0 + 1; categoryId := None |}.

(** Another category. *)
Definition movies_6 :=
  run platform (fetchCatalog VOD_STREAMS (Some "6") api_c) world_c.

(** Category 5 again, after category 6. *)
Definition movies_5_after_6 :=
  run platform (fetchCatalog VOD_STREAMS (Some "5") (fst (outcome movies_6)))
      (world_after movies_6).

(** The platform, [ms] milliseconds after [t0]. *)
Definition later (ms : Z) (w : World) : World :=
  {| clock := t0 + ms; storage := storage w; broken := broken w; server := server w |}.


(** The platform with the server of [w] replaced. *)
Definition with_server
    (srv : forall T : RespType, string -> RequestParams -> JsError + resp T) (w : World)
  : World :=
  {| clock := clock w; storage := storage w; broken := broken w; server := srv |}.

(** The platform with a store that rejects the calls on the keys [b]. *)
Definition with_broken (b : string -> bool) (w : World) : World :=
  {| clock := clock w; storage := storage w; broken := b; server := server w |}.

(** The same request the next day, the server being out of reach. *)
Definition movies_5_offline :=
  run platform (fetchCatalog VOD_STREAMS (Some "5") api_c)
      (with_server server_down (later CACHE_EXPIRY_TIME world_c)).

(** The object of the first session without its credentials. *)
Definition signed_out_warm : XtreamCodesApi :=
  {| credentials := None; authData := authData api_c;
     vodCache := vodCache api_c; vodCategoriesCache := vodCategoriesCache api_c;
     seriesCache := seriesCache api_c;
     seriesCategoriesCache := seriesCategoriesCache api_c |}.

Definition movies_5_signed_out :=
  run platform (fetchCatalog VOD_STREAMS (Some "5") signed_out_warm) world_c.

(** Clearing the caches, every request being answered. *)
Definition cleared := run platform (clearCache api_c) world_c.

(** Clearing the caches, the requests for series being rejected. *)
Definition cleared_without_series :=
  run platform (clearCache api_c) (with_server server_without_series world_c).

(** Clearing the caches, the store rejecting the calls on the key of
    the movies. *)
Definition cleared_on_broken_store :=
  run platform (clearCache api_c) (with_broken (String.eqb VOD_CACHE_KEY) world_c).

(** The movies of category 6, the store rejecting the write. *)
Definition movies_6_on_broken_store :=
  run platform (fetchCatalog VOD_STREAMS (Some "6") api_c)
      (with_broken (String.eqb VOD_CACHE_KEY) world_c).



(** Loading the caches when the text under the key of the movies is
    damaged. *)
Definition damaged : World :=
  {| clock := clock world_c;
     storage := <[VOD_CACHE_KEY := "{oops"]> (storage world_c);
     broken := broken world_c; server := server world_c |}.

Definition loaded_damaged := run platform (loadCaches fields_init) damaged.

Definition loaded := run platform (loadCaches fields_init) world_c.

(** Logout, then a fetch, then a login and a fetch. *)
Definition logged_out := run platform (logout api_c) world_c.
Definition api_e : XtreamCodesApi := fst (outcome logged_out).

Definition movies_after_logout :=
  run platform (fetchCatalog VOD_STREAMS None api_e) (world_after logged_out).

Definition logged_in_again :=
  run platform (login alice api_e) (world_after logged_out).

Definition movies_after_login :=
  run platform (fetchCatalog VOD_STREAMS None (fst (outcome logged_in_again)))
      (world_after logged_in_again).

End Sample.

(** *** The rest of the reference platform *)

Definition enc_SavedUser (u : SavedUser.t) : Json.value :=
  Json.Obj
    [("username", Json.Str (SavedUser.username u));
     ("password", Json.Str (SavedUser.password u));
     ("serverUrl", Json.Str (SavedUser.serverUrl u));
     ("lastLogin", Json.Num (SavedUser.lastLogin u))].

Definition dec_SavedUser (v : Json.value) : option SavedUser.t :=
  match v with
  | Json.Obj o =>
      username ← Json.get_str "username" o;
      password ← Json.get_str "password" o;
      serverUrl ← Json.get_str "serverUrl" o;
      lastLogin ← Json.get_num "lastLogin" o;
      Some {| SavedUser.username := username; SavedUser.password := password;
              SavedUser.serverUrl := serverUrl;
              SavedUser.lastLogin := lastLogin |}
  | _ => None
  end.

Definition JSON_users_ref : JSON (list SavedUser.t) :=
  JSON_of (fun users => Json.Arr (map enc_SavedUser users))
          (fun v => match v with
                    | Json.Arr items => mapM dec_SavedUser items
                    | _ => None
                    end).

(** The lower case of the letters A to Z; every other character is
    left as it is. *)
Definition lower_ascii (c : ascii) : ascii :=
  let n := nat_of_ascii c in
  if (65 <=? n)%nat && (n <=? 90)%nat then ascii_of_nat (n + 32) else c.

Fixpoint lower_string (s : string) : string :=
  match s with
  | EmptyString => EmptyString
  | String c s' => String (lower_ascii c) (lower_string s')
  end.

Definition StringPrototype_ref : StringPrototype :=
  {| toLowerCase := lower_string |}.

(** *** More sample data *)

(** The credentials of [alice] as typed, with slashes after the server
    URL. *)
Definition alice_typed : XtreamCredentials :=
  {| username := "alice"; password := "secret";
     serverUrl := "http://tv.example//" |}.

Definition bob : XtreamCredentials :=
  {| username := "bob"; password := "hunter2"; serverUrl := "http://tv.example" |}.

Definition alien : Movie.t :=
  {| Movie.num := 2; Movie.name := "Alien"; Movie.stream_type := "movie";
     Movie.stream_id := 102; Movie.stream_icon := "http://tv.example/alien.png";
     Movie.added := "1690000001"; Movie.category_id := "6";
     Movie.container_extension := "mkv"; Movie.custom_sid := "";
     Movie.direct_source := "" |}.

Definition sports : Channel.t :=
  {| Channel.num := 2; Channel.name := "Sports"; Channel.stream_type := "live";
     Channel.stream_id := 12; Channel.stream_icon := "";
     Channel.epg_channel_id := "sports"; Channel.added := "1690000002";
     Channel.category_id := "2"; Channel.custom_sid := "";
     Channel.tv_archive := 0; Channel.direct_source := "";
     Channel.tv_archive_duration := 0 |}.

Definition refused_auth : AuthResponse :=
  {| user_info :=
       {| UserInfo.username := "alice"; UserInfo.password := "wrong";
          UserInfo.message := ""; UserInfo.auth := 0;
          UserInfo.status := ""; UserInfo.exp_date := "";
          UserInfo.is_trial := "0"; UserInfo.active_cons := "0";
          UserInfo.created_at := ""; UserInfo.max_connections := "0";
          UserInfo.allowed_output_formats := [] |};
     server_info := server_info alice_auth |}.

(** What [login] throws when the server refuses. *)
Definition authentication_failed : JsError :=
  Error "Authentication failed. Please check your credentials.".

(** A server that refuses every login. *)
Definition server_refusing (T : RespType) (url : string) (params : RequestParams)
  : JsError + resp T :=
  match T return JsError + resp T with
  | TAuth => inr refused_auth
  | T => server_up T url params
  end.

(** A server with two movies and two channels. *)
Definition server_larger (T : RespType) (url : string) (params : RequestParams)
  : JsError + resp T :=
  match T return JsError + resp T with
  | TMovies => inr [heat; alien]
  | TChannels => inr [news; sports]
  | T => server_up T url params
  end.

(** *** More sample runs *)

Module Scenario.

Import Sample.

#[local] Existing Instance JSON_auth_ref.
#[local] Existing Instance JSON_vod_ref.
#[local] Existing Instance JSON_series_ref.
#[local] Existing Instance JSON_categories_ref.
#[local] Existing Instance JSON_users_ref.
#[local] Existing Instance StringPrototype_ref.

(** A login with the credentials as typed. *)
Definition logged_in_typed := run platform (login alice_typed fields_init) world0.
Definition api_t : XtreamCodesApi := fst (outcome logged_in_typed).

(** A login that the server refuses, in the middle of the first
    session. *)
Definition login_refused :=
  run platform (login bob api_c) (with_server server_refusing world_c).

(** A new instance right after the first login. *)
Definition restarted_session := run platform constructor (world_after logged_in).

(** Another user logs in on the object of the first session, then asks
    for the series. *)
Definition logged_in_bob := run platform (login bob api_c) world_c.
Definition series_of_bob :=
  run platform (fetchCatalog SERIES None (fst (outcome logged_in_bob)))
      (world_after logged_in_bob).

Definition asked_isLoggedIn := run platform (isLoggedIn api_c) world_c.

(** Logout, the store rejecting the removal of the series. *)
Definition logout_on_broken_store :=
  run platform (logout api_c) (with_broken (String.eqb SERIES_CACHE_KEY) world_c).

(** Logout, the store rejecting the removal of the PIN of [alice]. *)
Definition logout_on_broken_pin :=
  run platform (logout api_c)
      (with_broken (String.eqb "alice_huluxtream_parental_control_pin") world_c).

(** The keys of the favorites and of the parental control in the first
    session. *)
Definition favorites_key :=
  run platform (FavoritesContext.getUserStorageKey api_c) world_c.
Definition parental_keys :=
  run platform (ParentalControlContext.getUserStorageKeys api_c) world_c.

(** The live channels of category 1, and the live categories. *)
Definition live_1 := run platform (getLiveStreams (Some "1") api_c) world_c.
Definition live_categories := run platform (getLiveCategories api_c) world_c.

(** The movies under the empty filter, then the whole catalog. *)
Definition movies_empty_filter :=
  run platform (fetchCatalog VOD_STREAMS (Some "") api_a) (world_after logged_in).
Definition movies_all_after_empty :=
  run platform (fetchCatalog VOD_STREAMS None (fst (outcome movies_empty_filter)))
      (world_after movies_empty_filter).

(** The categories of the movies and of the series. *)
Definition movie_categories := run platform (getVodCategories api_c) world_c.
Definition series_categories := run platform (getSeriesCategories api_c) world_c.


(** Searches, on a server with two movies and two channels. *)
Definition world_larger : World := with_server server_larger world_c.
Definition search_heat := run platform (searchVodStreams "HEA" api_c) world_larger.
Definition search_alien :=
  run platform (searchVodStreams "lie" (fst (outcome search_heat)))
      (world_after search_heat).
Definition search_sports :=
  run platform (searchLiveStreams "sport" api_c) world_larger.
Definition search_everything :=
  run platform (searchVodStreams "" api_c) world_larger.

(** The list of saved users: [alice] is saved, then [bob], then
    [alice] again; the list is read; [bob] is removed; the list is
    cleared. The functions of the user manager are run on the state
    [tt]: they have none. *)
Definition saved_alice := run platform (UserManager.saveUser alice tt) world0.
Definition saved_bob :=
  run platform (UserManager.saveUser bob tt) (world_after saved_alice).
Definition saved_alice_again :=
  run platform (UserManager.saveUser alice tt) (world_after saved_bob).
Definition users_read :=
  run platform (UserManager.getSavedUsers tt) (world_after saved_alice_again).
Definition removed_bob :=
  run platform (UserManager.removeUser "bob" tt) (world_after saved_alice_again).
Definition users_without_bob :=
  run platform (UserManager.getSavedUsers tt) (world_after removed_bob).
Definition users_cleared :=
  run platform (UserManager.clearAllUsers tt) (world_after saved_alice_again).
Definition users_after_clear :=
  run platform (UserManager.getSavedUsers tt) (world_after users_cleared).

(** The list when the text under its key is damaged. *)
Definition damaged_users : World :=
  {| clock := clock (world_after saved_bob);
     storage := <[UserManager.SAVED_USERS_KEY := "[oops"]>
                  (storage (world_after saved_bob));
     broken := broken (world_after saved_bob);
     server := server (world_after saved_bob) |}.
Definition users_read_damaged :=
  run platform (UserManager.getSavedUsers tt) damaged_users.
Definition saved_over_damaged :=
  run platform (UserManager.saveUser alice tt) damaged_users.

(** The application at its start, and a login and a logout through the
    authentication context. *)
Definition app0 : AuthContext.App :=
  {| AuthContext.xtreamApi := fields_init;
     AuthContext.state := AuthContext.useState_init;
     AuthContext.replaced := [] |}.

Definition app_logged_in := run platform (AuthContext.login alice_typed app0) world0.
Definition app1 : AuthContext.App := fst (outcome app_logged_in).

Definition app_login_refused :=
  run platform (AuthContext.login alice_typed app0)
      (with_server server_refusing world0).

Definition app_logged_out :=
  run platform (AuthContext.logout app1) (world_after app_logged_in).

Definition app_logout_on_broken_store :=
  run platform (AuthContext.logout app1)
      (with_broken (String.eqb AUTH_STORAGE_KEY) (world_after app_logged_in)).

End Scenario.

(** ** Tactics *)

(** Unfold the methods of an execution down to platform calls. *)
Ltac exec_norm H :=
  cbv [exec fetchCatalog getVodStreams getSeries getVodCategories
       getSeriesCategories getLiveStreams clearCache logout login constructor
       loadCaches loadCredentials saveCredentials saveVodCache
       saveVodCategoriesCache saveSeriesCache saveSeriesCategoriesCache
       isCacheValid isLoggedIn ensureAuthenticated apiUrl credentials_nonnull
       Promise_all4 bind ret throw try_catch start await get_this
       set_credentials set_authData set_vodCache set_vodCategoriesCache
       set_seriesCache set_seriesCategoriesCache
       Date_now axios_get AsyncStorage_getItem AsyncStorage_setItem
       AsyncStorage_removeItem console_log console_error
       pbind fst snd notnull negb orb andb
       credentials authData vodCache vodCategoriesCache seriesCache
       seriesCategoriesCache fields_init] in H.

(** Take an execution apart, one platform call at a time; where the
    program waits on a value (an answer of the platform, a test), split
    on that value. *)
Ltac exec_go H :=
  exec_norm H;
  lazymatch type of H with
  | ex _ => let x := fresh "x" in destruct H as [x H]; exec_go H
  | _ /\ _ =>
      let E := fresh "E" in
      destruct H as [E H];
      first [ match type of E with ?v = _ => is_var v; subst v end
            | inversion E; clear E; subst ];
      exec_go H
  | _ = _ => inversion H; clear H; subst
  | _ =>
      match type of H with
      | context [match ?x with _ => _ end] => destruct x eqn:?; exec_go H
      | context [if ?x then _ else _] => destruct x eqn:?; exec_go H
      end
  end.

Ltac exec_cases H := exec_go H; simpl in *.

(** Decide the tests recorded while splitting: the expiry comparison and
    the filter comparison. *)
Ltac test_cases :=
  repeat match goal with
  | H : context [(?a <? ?b)%Z] |- _ => destruct (Z.ltb_spec a b)
  | H : context [bool_decide ?P] |- _ => destruct (bool_decide_reflect P)
  | H : Some _ = Some _ |- _ => inversion H; clear H; subst
  | H : Some _ = None |- _ => discriminate H
  | H : None = Some _ |- _ => discriminate H
  | H : inl _ = inr _ |- _ => discriminate H
  | H : inr _ = inl _ |- _ => discriminate H
  | H : inl _ = inl _ |- _ => inversion H; clear H; subst
  | H : inr _ = inr _ |- _ => inversion H; clear H; subst
  end; simpl in *.

(** Membership in an explicit trace. *)
Ltac in_trace := simpl; solve [repeat (first [left; reflexivity | right])].

Ltac exists_in_trace :=
  solve [repeat (first [apply Exists_cons_hd; simpl; reflexivity
                       | apply Exists_cons_tl])].

(** From [In c tr] for an explicit [tr], the cases that are possible. *)
Ltac in_cases H :=
  simpl in H;
  repeat (destruct H as [H|H]; [try discriminate H; inversion H; subst|]);
  try contradiction.

Ltac destruct_and :=
  repeat match goal with H : _ /\ _ |- _ => destruct H end.

(** Split on the key of a read. *)
Ltac key_cases H :=
  cbv [cache_key AUTH_STORAGE_KEY VOD_CACHE_KEY VOD_CATEGORIES_CACHE_KEY
       SERIES_CACHE_KEY SERIES_CATEGORIES_CACHE_KEY] in H;
  in_cases H.

Ltac exists_cases H :=
  repeat (apply Exists_cons in H as [H|H];
          [simpl in H; try contradiction; try discriminate H|]);
  try (apply Exists_nil in H; contradiction).

(** The same for the functions outside the class. *)
Ltac async_norm H :=
  cbv [exec fetchCatalog getVodStreams getSeries getVodCategories
       getSeriesCategories getLiveStreams clearCache logout login constructor
       loadCaches loadCredentials saveCredentials saveVodCache
       saveVodCategoriesCache saveSeriesCache saveSeriesCategoriesCache
       isCacheValid isLoggedIn ensureAuthenticated apiUrl credentials_nonnull
       Promise_all4 bind ret throw try_catch start await get_this
       set_credentials set_authData set_vodCache set_vodCategoriesCache
       set_seriesCache set_seriesCategoriesCache
       Date_now axios_get AsyncStorage_getItem AsyncStorage_setItem
       AsyncStorage_removeItem console_log console_error
       pbind fst snd notnull negb orb andb
       credentials authData vodCache vodCategoriesCache seriesCache
       seriesCategoriesCache fields_init
       getLiveCategories getLiveStreamUrl getVodStreamUrl getSeriesStreamUrl
       searchLiveStreams searchVodStreams searchSeries
       FavoritesContext.getUserStorageKey ParentalControlContext.getUserPrefix
       ParentalControlContext.getUserStorageKeys
       async_ret async_throw async_bind async_try_catch async_finally
       async_modify async_await async_Date_now async_getItem async_setItem
       async_removeItem async_console_error
       UserManager.getSavedUsers UserManager.saveUser UserManager.removeUser
       UserManager.clearAllUsers
       AuthContext.login AuthContext.logout
       AuthContext.on_xtreamApi AuthContext.setState AuthContext.setIsLoading
       AuthContext.setIsLoggedIn AuthContext.setError AuthContext.setAuthData
       AuthContext.router_replace AuthContext.xtreamApi AuthContext.state
       AuthContext.replaced] in H.

Ltac async_go H :=
  async_norm H;
  lazymatch type of H with
  | ex _ => let x := fresh "x" in destruct H as [x H]; async_go H
  | _ /\ _ =>
      let E := fresh "E" in
      destruct H as [E H];
      first [ match type of E with ?v = _ => is_var v; subst v end
            | inversion E; clear E; subst ];
      async_go H
  | _ = _ => inversion H; clear H; subst
  | _ =>
      match type of H with
      | context [match ?x with _ => _ end] => destruct x eqn:?; async_go H
      | context [if ?x then _ else _] => destruct x eqn:?; async_go H
      end
  end.

Ltac async_cases H := async_go H; simpl in *.

(** ** Executions *)

Lemma exec_pbind {A B : Type} (p : prog A) (f : A -> prog B) tr b :
  exec (pbind p f) tr b <->
  exists tr1 tr2 a, tr = tr1 ++ tr2 /\ exec p tr1 a /\ exec (f a) tr2 b.
Proof.
  revert tr. induction p as [a|k IH|T url ps k IH|key k IH|key v k IH|key k IH|msg k IH|msg err k IH];
    intros tr; simpl.
  - split.
    + intros H. exists [], tr, a. auto.
    + intros (tr1 & tr2 & a' & -> & [-> ->] & H). exact H.
  - split.
    + intros (t & tr' & -> & H). apply IH in H as (tr1 & tr2 & a & -> & H1 & H2).
      exists (io_now t :: tr1), tr2, a. eauto 10.
    + intros (tr1 & tr2 & a & -> & (t & tr' & -> & H1) & H2).
      exists t, (tr' ++ tr2). split; [reflexivity|]. apply IH. eauto 10.
  - split.
    + intros (t & tr' & -> & H). apply IH in H as (tr1 & tr2 & a & -> & H1 & H2).
      exists (io_axios T url ps t :: tr1), tr2, a. eauto 10.
    + intros (tr1 & tr2 & a & -> & (t & tr' & -> & H1) & H2).
      exists t, (tr' ++ tr2). split; [reflexivity|]. apply IH. eauto 10.
  - split.
    + intros (t & tr' & -> & H). apply IH in H as (tr1 & tr2 & a & -> & H1 & H2).
      exists (io_getItem key t :: tr1), tr2, a. eauto 10.
    + intros (tr1 & tr2 & a & -> & (t & tr' & -> & H1) & H2).
      exists t, (tr' ++ tr2). split; [reflexivity|]. apply IH. eauto 10.
  - split.
    + intros (t & tr' & -> & H). apply IH in H as (tr1 & tr2 & a & -> & H1 & H2).
      exists (io_setItem key v t :: tr1), tr2, a. eauto 10.
    + intros (tr1 & tr2 & a & -> & (t & tr' & -> & H1) & H2).
      exists t, (tr' ++ tr2). split; [reflexivity|]. apply IH. eauto 10.
  - split.
    + intros (t & tr' & -> & H). apply IH in H as (tr1 & tr2 & a & -> & H1 & H2).
      exists (io_removeItem key t :: tr1), tr2, a. eauto 10.
    + intros (tr1 & tr2 & a & -> & (t & tr' & -> & H1) & H2).
      exists t, (tr' ++ tr2). split; [reflexivity|]. apply IH. eauto 10.
  - split.
    + intros (tr' & -> & H). apply IH in H as (tr1 & tr2 & a & -> & H1 & H2).
      exists (io_log msg :: tr1), tr2, a. eauto 10.
    + intros (tr1 & tr2 & a & -> & (tr' & -> & H1) & H2).
      exists (tr' ++ tr2). split; [reflexivity|]. apply IH. eauto 10.
  - split.
    + intros (tr' & -> & H). apply IH in H as (tr1 & tr2 & a & -> & H1 & H2).
      exists (io_error msg err :: tr1), tr2, a. eauto 10.
    + intros (tr1 & tr2 & a & -> & (tr' & -> & H1) & H2).
      exists (tr' ++ tr2). split; [reflexivity|]. apply IH. eauto 10.
Qed.

(** Every run against a platform is an execution: a method always
    returns or throws, whatever the platform answers. *)
Lemma run_exec {W A : Type} (E : Env W) (p : prog A) (w : W) :
  exec p (snd (run E p w)) (fst (fst (run E p w))).
Proof.
  revert w. induction p as [a|k IH|T url ps k IH|key k IH|key v k IH|key k IH|msg k IH|msg err k IH];
    intros w; simpl.
  - auto.
  - destruct (env_now E w) as [t w1]. specialize (IH t w1).
    destruct (run E (k t) w1) as [[a w2] tr]. simpl in *. eauto.
  - destruct (env_axios E T url ps w) as [r w1]. specialize (IH r w1).
    destruct (run E (k r) w1) as [[a w2] tr]. simpl in *. eauto.
  - destruct (env_getItem E key w) as [r w1]. specialize (IH r w1).
    destruct (run E (k r) w1) as [[a w2] tr]. simpl in *. eauto.
  - destruct (env_setItem E key v w) as [r w1]. specialize (IH r w1).
    destruct (run E (k r) w1) as [[a w2] tr]. simpl in *. eauto.
  - destruct (env_removeItem E key w) as [r w1]. specialize (IH r w1).
    destruct (run E (k r) w1) as [[a w2] tr]. simpl in *. eauto.
  - specialize (IH w). destruct (run E k w) as [[a w2] tr]. simpl in *. eauto.
  - specialize (IH w). destruct (run E k w) as [[a w2] tr]. simpl in *. eauto.
Qed.

(** The same, for a method run on the reference platform. *)
Lemma run_outcome {A B : Type} (E : Env World) (p : prog (A * B)) (w : World) :
  exec p (calls (run E p w))
       (fst (outcome (run E p w)), snd (outcome (run E p w))).
Proof.
  unfold calls, outcome. rewrite <- surjective_pairing. apply run_exec.
Qed.

Section Properties.

Context {JSON_auth : JSON StoredAuth.t}.
Context {JSON_vod : JSON (CacheObject Movie.t)}.
Context {JSON_series : JSON (CacheObject Series.t)}.
Context {JSON_categories : JSON (CacheObject Category.t)}.

(** *** The authentication gate *)

Lemma fetch_unauthenticated ty filter this tr this' r :
  session this = false ->
  exec (fetchCatalog ty filter this) tr (this', r) ->
  tr = [] /\ this' = this /\ r = inl not_authenticated.
Proof.
  intros Hs H. destruct this as [[c|] [a|] vc vcc sc scc]; try discriminate Hs;
    destruct ty; exec_cases H; auto.
Qed.

(** *** A fetch that finds a valid entry *)

Lemma fetch_hit ty filter this e tr this' r :
  session this = true ->
  entry ty this = Some e ->
  (is_stream_type ty = true -> categoryId e = filter) ->
  (forall now, In (io_now now) tr -> now - timestamp e < CACHE_EXPIRY_TIME) ->
  exec (fetchCatalog ty filter this) tr (this', r) ->
  r = inr (data e) /\ this' = this /\ no_network tr.
Proof.
  intros Hs He Hf Hnow H.
  destruct this as [[c|] [a|] vc vcc sc scc]; try discriminate Hs.
  destruct ty; simpl in He; subst; exec_cases H.
  all: test_cases; auto.
  all: try (specialize (Hnow _ (or_introl eq_refl)); lia).
  all: exfalso; match goal with Hn : _ <> _ |- _ => apply Hn; auto end.
Qed.

(** *** A fetch that returned *)

Lemma fetch_success ty filter this tr this' d :
  exec (fetchCatalog ty filter this) tr (this', inr d) ->
  session this' = true /\
  credentials this' = credentials this /\ authData this' = authData this /\
  (forall ty', ty' <> ty -> entry ty' this' = entry ty' this) /\
  exists e, entry ty this' = Some e /\ data e = d /\
            (is_stream_type ty = true -> categoryId e = filter).
Proof.
  intros H. destruct this as [[c|] [a|] vc vcc sc scc];
    destruct ty; exec_cases H; test_cases.
  all: repeat split; try reflexivity;
    try (intros [] Hne; try reflexivity; now contradict Hne);
    eexists; repeat split; auto; intros; discriminate.
Qed.

(** *** A fetch that finds no valid entry *)

Lemma fetch_miss ty filter this tr this' r :
  session this = true ->
  unusable ty filter this tr ->
  exec (fetchCatalog ty filter this) tr (this', r) ->
  calls_network tr.
Proof.
  unfold unusable. intros Hs Hu H.
  destruct this as [[c|] [a|] vc vcc sc scc]; try discriminate Hs.
  destruct ty; simpl in Hu; exec_cases H; test_cases; try reflexivity.
  all: exfalso; destruct Hu as [[Hst Hne]|(now & tr' & Heq & Hexp)];
    try discriminate Hst; try (now apply Hne);
    inversion Heq; subst; lia.
Qed.

(** A fetch that called the remote service either was rejected, and
    then changed nothing, or replaced the slot by a fresh entry and
    wrote that entry to the store. *)
Lemma fetch_network ty filter this tr this' r :
  exec (fetchCatalog ty filter this) tr (this', r) ->
  calls_network tr ->
  (exists err, Exists (network_rejected err) tr /\ r = inl err /\
               this' = this /\ no_store_write tr) \/
  (exists d now sr,
      let e := {| data := d; timestamp := now;
                  categoryId := recorded_filter ty filter |} in
      r = inr d /\ entry ty this' = Some e /\ In (io_now now) tr /\
      In (io_setItem (cache_key ty) (stringify_entry ty e) sr) tr /\
      (forall k v err, In (io_setItem k v (inl err)) tr ->
                       In (io_error (save_failure_msg ty) err) tr)).
Proof.
  intros H Hn. destruct this as [[c|] [a|] vc vcc sc scc];
    destruct ty; exec_cases H; test_cases; try discriminate Hn.
  all: try (left; eexists; split; [exists_in_trace|repeat split]).
  all: right; do 3 eexists; cbv zeta;
    (split; [reflexivity|]); (split; [reflexivity|]);
    (split; [in_trace|]); (split; [in_trace|]);
    intros k v err Hin; in_cases Hin; in_trace.
Qed.

Lemma network_rejected_calls e tr :
  Exists (network_rejected e) tr -> calls_network tr.
Proof.
  unfold calls_network. induction 1 as [c tr Hc|c tr _ IH]; simpl.
  - destruct c; try contradiction. reflexivity.
  - rewrite IH. apply orb_true_r.
Qed.

Lemma fetch_rejected ty filter this tr this' r e :
  exec (fetchCatalog ty filter this) tr (this', r) ->
  Exists (network_rejected e) tr ->
  r = inl e /\ this' = this /\ no_store_write tr.
Proof.
  intros H Hrej. destruct this as [c a vc vcc sc scc].
  destruct ty; exec_cases H.
  all: try (exfalso; clear -Hrej;
            repeat (apply Exists_cons in Hrej as [Hrej|Hrej];
                    [now simpl in Hrej|]);
            now apply Exists_nil in Hrej).
  all: repeat (apply Exists_cons in Hrej as [Hrej|Hrej];
               [try now simpl in Hrej|]); try now apply Exists_nil in Hrej.
  all: simpl in Hrej; subst; repeat split.
Qed.

Lemma entries_single_slot ty this : (length (entries ty this) <= 1)%nat.
Proof. unfold entries. destruct (entry ty this); simpl; lia. Qed.

(** *** Restoring the caches *)

Lemma loadCaches_returns this tr this' r :
  exec (loadCaches this) tr (this', r) ->
  r = inr tt /\ credentials this' = credentials this /\
  authData this' = authData this.
Proof.
  intros H. destruct this as [c a vc vcc sc scc]. exec_cases H; auto.
Qed.

Lemma loadCaches_in_order this tr this' r :
  exec (loadCaches this) tr (this', r) ->
  (forall k e, ~ In (io_getItem k (inl e)) tr) ->
  forall ty s,
    In (io_getItem (cache_key ty) (inr s)) tr ->
    (forall ty' s', (load_order ty' < load_order ty)%nat ->
                    In (io_getItem (cache_key ty') (inr s')) tr ->
                    parses ty' s') ->
    match truthy s with
    | None => entry ty this' = entry ty this
    | Some str =>
        match parse_entry ty str with
        | inr e => entry ty this' = Some e
        | inl err =>
            In (io_error "Failed to load caches:" err) tr /\
            forall ty'', (load_order ty <= load_order ty'')%nat ->
                         entry ty'' this' = entry ty'' this
        end
    end.
Proof.
  intros H Hok ty s Hin Hpre. destruct this as [c a vc vcc sc scc].
  exec_cases H.
  all: try (exfalso; eapply Hok; in_trace).
  all: clear Hok; destruct ty; key_cases Hin.
  all: cbv [parse_entry entry record_t vodCache vodCategoriesCache seriesCache
            seriesCategoriesCache].
  all: repeat match goal with
         | Ht : truthy _ = _ |- _ => rewrite Ht
         | Hp : @JSON_parse _ _ _ = _ |- _ => rewrite Hp
         end; try reflexivity.
  all: try (split; [in_trace|intros []; simpl; intros; try lia; reflexivity]).
  all: exfalso;
    match goal with
    | Ht : truthy ?o = Some ?s0, Hp : @JSON_parse _ _ ?s0 = inl _ |- _ =>
        first [ assert (X : parses VOD_STREAMS o)
                  by (apply Hpre; [simpl; lia|in_trace])
              | assert (X : parses VOD_CATEGORIES o)
                  by (apply Hpre; [simpl; lia|in_trace])
              | assert (X : parses SERIES o)
                  by (apply Hpre; [simpl; lia|in_trace]) ];
        unfold parses in X; rewrite Ht in X; destruct X as [? X];
        cbv [parse_entry record_t] in X; congruence
    end.
Qed.



Lemma store_after_no_write s tr : no_store_write tr -> store_after s tr = s.
Proof.
  unfold no_store_write. revert s. induction tr as [|c tr IH]; intros s H.
  - reflexivity.
  - simpl in H. apply andb_true_iff in H as [Hc H].
    destruct c; simpl in *; try discriminate Hc; auto.
Qed.

Lemma reliable_store_app s tr1 tr2 :
  reliable_store s (tr1 ++ tr2) <->
  reliable_store s tr1 /\ reliable_store (store_after s tr1) tr2.
Proof.
  revert s. induction tr1 as [|c tr1 IH]; intros s; simpl.
  - tauto.
  - destruct c; simpl; try apply IH.
    + rewrite IH. tauto.
    + rewrite IH. split.
      * intros [-> [H1 H2]]. auto.
      * intros [[-> H1] H2]. auto.
    + rewrite IH. split.
      * intros [-> [H1 H2]]. auto.
      * intros [[-> H1] H2]. auto.
Qed.

Lemma no_network_app tr1 tr2 :
  no_network tr1 -> no_network tr2 -> no_network (tr1 ++ tr2).
Proof.
  unfold no_network. intros H1 H2. rewrite forallb_app, H1, H2. reflexivity.
Qed.

Lemma loadCaches_quiet this tr this' r :
  exec (loadCaches this) tr (this', r) ->
  no_network tr /\ no_store_write tr /\
  forall ty, exists a, In (io_getItem (cache_key ty) a) tr.
Proof.
  intros H. destruct this as [c a vc vcc sc scc]. exec_cases H.
  all: repeat split; intros []; eexists; in_trace.
Qed.


Lemma loadCredentials_quiet this tr this' r :
  exec (loadCredentials this) tr (this', r) ->
  r = inr tt /\ no_network tr /\ no_store_write tr /\
  forall ty, entry ty this' = entry ty this.
Proof.
  intros H. destruct this as [c a vc vcc sc scc]. exec_cases H.
  all: repeat split; intros []; reflexivity.
Qed.

Lemma constructor_exec tr this :
  exec constructor tr this ->
  exists tr1 tr2 this1 r1 r2,
    tr = tr1 ++ tr2 /\
    exec (loadCredentials fields_init) tr1 (this1, r1) /\
    exec (loadCaches this1) tr2 (this, r2).
Proof.
  unfold constructor. intros H.
  apply exec_pbind in H as (tr' & tr0 & [this' r'] & -> & H & H0).
  simpl in H0. destruct H0 as [-> ->].
  unfold bind in H. apply exec_pbind in H as (tr1 & tr2 & [this1 r1] & -> & H1 & H2).
  unfold start in H1. apply exec_pbind in H1 as (tr1' & tr0 & [thisA rA] & -> & H1 & H0).
  simpl in H0. destruct H0 as [-> H0]. inversion H0; subst; clear H0.
  apply exec_pbind in H2 as (tr2' & tr0 & [thisB rB] & -> & H2 & H0).
  simpl in H0. destruct H0 as [-> H0]. inversion H0; subst; clear H0.
  rewrite !app_nil_r. eauto 10.
Qed.

(** *** Writing an entry *)


Lemma fetch_store_failure ty filter this tr this' r k v err :
  exec (fetchCatalog ty filter this) tr (this', r) ->
  In (io_setItem k v (inl err)) tr ->
  In (io_error (save_failure_msg ty) err) tr /\
  exists e, entry ty this' = Some e /\ r = inr (data e).
Proof.
  intros H Hin. destruct this as [[c|] [a|] vc vcc sc scc];
    destruct ty; exec_cases H; in_cases Hin.
  all: split; [in_trace|eexists; split; reflexivity].
Qed.

Lemma logout_clears this tr this' r :
  exec (logout this) tr (this', r) ->
  credentials this' = None /\ authData this' = None /\
  forall ty, entry ty this' = None.
Proof.
  intros H. destruct this as [c a vc vcc sc scc]. exec_cases H.
  all: repeat split; intros []; reflexivity.
Qed.

Lemma logout_store this tr this' r s :
  exec (logout this) tr (this', r) ->
  reliable_store s tr ->
  r = inr tt /\ store_after s tr !! AUTH_STORAGE_KEY = None /\
  forall ty, store_after s tr !! cache_key ty = None.
Proof.
  intros H Hs. destruct this as [c a vc vcc sc scc]. exec_cases H.
  all: destruct_and; test_cases.
  all: split; [reflexivity|].
  all: split; [|intros []]; simpl;
    repeat (apply lookup_delete_None; first [left; reflexivity|right]).
Qed.

Lemma login_session creds this tr this' response :
  exec (login creds this) tr (this', inr response) ->
  session this' = true /\ forall ty, entry ty this' = entry ty this.
Proof.
  intros H. destruct this as [c a vc vcc sc scc]. exec_cases H.
  all: split; [reflexivity|intros []; reflexivity].
Qed.

(** *** Clearing the caches *)


Lemma clearCache_exec this tr this' r :
  exec (clearCache this) tr (this', r) ->
  entry VOD_CATEGORIES this' = None /\ entry SERIES_CATEGORIES this' = None /\
  Forall (fun c => requested TCategories c = false) tr /\
  ((forall d, ~ Exists (fun c => received_movies c = Some d) tr) ->
   entry VOD_STREAMS this' = None) /\
  ((forall d, ~ Exists (fun c => received_series c = Some d) tr) ->
   entry SERIES this' = None) /\
  (forall e, Exists (remove_rejected e) tr ->
             r = inl e /\ (forall ty, entry ty this' = None) /\
             In (io_error "Error clearing cache:" e) tr /\ no_network tr) /\
  ((forall e, ~ Exists (remove_rejected e) tr) ->
   r = inr tt /\
   (forall ty, In (io_removeItem (cache_key ty) (inr tt)) tr) /\
   (session this = false -> no_network tr /\ forall ty, entry ty this' = None) /\
   (session this = true ->
    Exists (fun c => requested TChannels c = true) tr /\
    Exists (fun c => requested TMovies c = true) tr /\
    Exists (fun c => requested TSeries c = true) tr /\
    (forall e, Exists (network_rejected e) tr ->
               exists msg, In (io_error msg e) tr) /\
    (forall d, Exists (fun c => received_movies c = Some d) tr ->
               exists now, entry VOD_STREAMS this' =
                 Some {| data := d; timestamp := now; categoryId := None |}) /\
    (forall d, Exists (fun c => received_series c = Some d) tr ->
               exists now, entry SERIES this' =
                 Some {| data := d; timestamp := now; categoryId := None |}))).
Proof.
  intros H. destruct this as [[c|] [a|] vc vcc sc scc]; exec_go H.
  all: split; [reflexivity|].
  all: split; [reflexivity|].
  all: split; [repeat constructor|].
  all: split;
    [ intros Hnone; try reflexivity; exfalso; eapply Hnone; exists_in_trace|].
  all: split;
    [ intros Hnone; try reflexivity; exfalso; eapply Hnone; exists_in_trace|].
  all: split;
    [ intros e He; exists_cases He; subst;
      (split; [reflexivity
              |split; [intros []; reflexivity|split; [in_trace|reflexivity]]])
    | ].
  all: intros Hok; try (exfalso; eapply Hok; exists_in_trace).
  all: clear Hok; repeat match goal with u : unit |- _ => destruct u end.
  all: split; [reflexivity|].
  all: split; [intros []; in_trace|].
  all: split;
    [ intros Hs;
      first [discriminate Hs|split; [reflexivity|intros []; reflexivity]]
    | intros Hs; try discriminate Hs ].
  all: split; [exists_in_trace|].
  all: split; [exists_in_trace|].
  all: split; [exists_in_trace|].
  all: split; [intros e He; exists_cases He; subst; eexists; in_trace|].
  all: split; intros d Hd; exists_cases Hd; inversion Hd; subst;
    eexists; reflexivity.
Qed.

End Properties.

(** ** The claims *)

Section Claims.

Context {JSON_auth : JSON StoredAuth.t}.
Context {JSON_vod : JSON (CacheObject Movie.t)}.
Context {JSON_series : JSON (CacheObject Series.t)}.
Context {JSON_categories : JSON (CacheObject Category.t)}.

(** C1. Cache hit skips fetch. For every catalog type: after a fetch
    that returned [d], a second fetch of the same type under the same
    filter, made on the object the first one left and while
    [now - entry.timestamp < CACHE_EXPIRY_TIME] at its clock readings,
    makes no call to the remote service, returns [d], the data of the
    cached entry, and leaves the object as it is. *)
Theorem cache_hit_skips_fetch ty filter this0 tr1 this1 d tr2 this2 r2 :
  exec (fetchCatalog ty filter this0) tr1 (this1, inr d) ->
  exec (fetchCatalog ty filter this1) tr2 (this2, r2) ->
  (forall e now, entry ty this1 = Some e -> In (io_now now) tr2 ->
                 now - timestamp e < CACHE_EXPIRY_TIME) ->
  no_network tr2 /\ r2 = inr d /\ this2 = this1 /\
  exists e, entry ty this1 = Some e /\ data e = d.
Proof.
  intros H1 H2 Hfresh.
  destruct (fetch_success _ _ _ _ _ _ H1) as (Hs & _ & _ & _ & e & He & Hd & Hf).
  destruct (fetch_hit _ _ _ e _ _ _ Hs He Hf (fun now => Hfresh e now He) H2)
    as (-> & -> & Hn).
  subst d. eauto 10.
Qed.

(** C2. Single slot, replaced wholesale. Each catalog type holds at most
    one entry, whatever was executed. For a stream catalog, with a
    session, a fetch under a filter other than the one of the cached
    entry calls the remote service, expired or not; when that call
    returns [d], the slot holds exactly the new entry, under the new
    filter, the other slots are as before, and a later fetch under the
    old filter calls the remote service again. *)
Theorem filter_mismatch_replaces_entry ty filter this e0 tr this' r :
  is_stream_type ty = true ->
  session this = true ->
  entry ty this = Some e0 ->
  categoryId e0 <> filter ->
  exec (fetchCatalog ty filter this) tr (this', r) ->
  calls_network tr /\
  (forall ty', (length (entries ty' this') <= 1)%nat) /\
  forall d, r = inr d ->
    (exists now, entry ty this' =
                   Some {| data := d; timestamp := now; categoryId := filter |}) /\
    (forall ty', ty' <> ty -> entry ty' this' = entry ty' this) /\
    forall tr2 this2 r2,
      exec (fetchCatalog ty (categoryId e0) this') tr2 (this2, r2) ->
      calls_network tr2.
Proof.
  intros Hst Hs He Hne H.
  assert (Hn : calls_network tr).
  { apply (fetch_miss _ _ _ _ _ _ Hs) in H; [exact H|].
    unfold unusable. rewrite He. left. auto. }
  split; [exact Hn|]. split; [intros ty'; apply entries_single_slot|].
  intros d ->.
  destruct (fetch_success _ _ _ _ _ _ H) as (Hs' & _ & _ & Hothers & _).
  destruct (fetch_network _ _ _ _ _ _ H Hn)
    as [(err & _ & Hr & _)|(d' & now & sr & Hr & He' & _)]; [discriminate Hr|].
  inversion Hr; subst d'. unfold recorded_filter in He'. rewrite Hst in He'.
  split; [eauto|]. split; [exact Hothers|].
  intros tr2 this2 r2 H2. apply (fetch_miss _ _ _ _ _ _ Hs' ) in H2; [exact H2|].
  unfold unusable. rewrite He'. left. split; [exact Hst|]. simpl. congruence.
Qed.


(** C4. A fetch failure propagates and leaves the cache alone. For every
    catalog type, when the remote service rejects the call of a fetch
    with [e], the fetch throws [e] itself, every field of the object
    (the stale or absent entry among them) is as before, and nothing was
    written to or removed from the persistent store; no data is
    returned, the stale entry included. *)
Theorem fetch_failure_propagates ty filter this tr this' r e :
  exec (fetchCatalog ty filter this) tr (this', r) ->
  Exists (network_rejected e) tr ->
  r = inl e /\ this' = this /\ entry ty this' = entry ty this /\
  no_store_write tr.
Proof.
  intros H Hrej.
  destruct (fetch_rejected _ _ _ _ _ _ _ H Hrej) as (-> & -> & Hw). auto.
Qed.

(** C10. The authentication gate precedes the cache lookup. Whenever the
    credentials or the auth data are absent, every fetch method throws
    'Not authenticated. Please login first.' before any platform call
    (no clock reading, no request) and changes nothing, whatever the
    slots hold, a valid entry included. *)
Theorem auth_gate_precedes_cache ty filter this tr this' r :
  credentials this = None \/ authData this = None ->
  exec (fetchCatalog ty filter this) tr (this', r) ->
  r = inl (Error "Not authenticated. Please login first.") /\
  tr = [] /\ this' = this.
Proof.
  intros Hno H.
  assert (Hs : session this = false).
  { unfold session. destruct Hno as [-> | ->]; [reflexivity|].
    destruct (credentials this); reflexivity. }
  destruct (fetch_unauthenticated _ _ _ _ _ _ Hs H) as (-> & -> & ->). auto.
Qed.

Lemma read_rejected_In e tr :
  Exists (read_rejected e) tr <-> exists k, In (io_getItem k (inl e)) tr.
Proof.
  rewrite List.Exists_exists. split.
  - intros (c & Hin & Hc).
    destruct c as [t|T u p a|k a|k v a|k a|m|m e0]; simpl in Hc;
      try contradiction; destruct a as [e'|]; try contradiction; subst; eauto.
  - intros (k & Hin). exists (io_getItem k (inl e)). simpl. auto.
Qed.

Lemma write_rejected_In e tr :
  Exists (write_rejected e) tr <-> exists k v, In (io_setItem k v (inl e)) tr.
Proof.
  rewrite List.Exists_exists. split.
  - intros (c & Hin & Hc).
    destruct c as [t|T u p a|k a|k v a|k a|m|m e0]; simpl in Hc;
      try contradiction; destruct a as [e'|]; try contradiction; subst; eauto.
  - intros (k & v & Hin). exists (io_setItem k v (inl e)). simpl. auto.
Qed.

Lemma loadCaches_failed_read this tr this' r e :
  exec (loadCaches this) tr (this', r) ->
  Exists (read_rejected e) tr ->
  this' = this /\ exists e', In (io_error "Failed to load caches:" e') tr.
Proof.
  intros H He. destruct this as [c a vc vcc sc scc]. exec_go H.
  all: exists_cases He.
  all: split; [reflexivity|eexists; in_trace].
Qed.

(** C6 (amended). [loadCaches] never throws. It asks the store for all
    four keys at once. If a read is rejected, nothing is restored and
    the failure is logged. If no read is rejected, the entries are
    installed in the order VOD streams, VOD categories, series, series
    categories, as long as the texts parse: for a key whose
    predecessors are absent, empty or parse, an absent or empty text
    leaves its slot as it was, a text that parses becomes its slot, and
    a text that does not parse is logged and leaves its slot and every
    later slot as they were. *)
Theorem loadCaches_restores_in_order this tr this' r :
  exec (loadCaches this) tr (this', r) ->
  r = inr tt /\
  (forall ty, exists a, In (io_getItem (cache_key ty) a) tr) /\
  (forall e, Exists (read_rejected e) tr ->
             this' = this /\
             exists e', In (io_error "Failed to load caches:" e') tr) /\
  ((forall e, ~ Exists (read_rejected e) tr) ->
   forall ty s,
     In (io_getItem (cache_key ty) (inr s)) tr ->
     (forall ty' s', (load_order ty' < load_order ty)%nat ->
                     In (io_getItem (cache_key ty') (inr s')) tr ->
                     parses ty' s') ->
     match truthy s with
     | None => entry ty this' = entry ty this
     | Some str =>
         match parse_entry ty str with
         | inr e => entry ty this' = Some e
         | inl err =>
             In (io_error "Failed to load caches:" err) tr /\
             forall ty'', (load_order ty <= load_order ty'')%nat ->
                          entry ty'' this' = entry ty'' this
         end
     end).
Proof.
  intros H.
  split; [apply (loadCaches_returns _ _ _ _ H)|].
  split; [apply (loadCaches_quiet _ _ _ _ H)|].
  split; [intros e; apply (loadCaches_failed_read _ _ _ _ _ H)|].
  intros Hok. apply (loadCaches_in_order _ _ _ _ H).
  intros k e Hin. apply (Hok e). apply read_rejected_In. eauto.
Qed.


(** C9 (amended). [logout] clears the credentials, the auth data and the
    four slots in every execution; when the store works, it resolves
    and none of the four cache keys nor the key of the credentials is
    left in the store. After it no catalog is served from the cache: a
    fetch is refused as not authenticated, without any platform call,
    and once [login] has succeeded again every fetch, of any type and
    under any filter, calls the remote service. *)
Theorem logout_clears_everything this tr this' r :
  exec (logout this) tr (this', r) ->
  (credentials this' = None /\ authData this' = None /\
   forall ty, entry ty this' = None) /\
  (forall s, reliable_store s tr ->
             r = inr tt /\ store_after s tr !! AUTH_STORAGE_KEY = None /\
             forall ty, store_after s tr !! cache_key ty = None) /\
  (forall ty filter tr2 this2 r2,
     exec (fetchCatalog ty filter this') tr2 (this2, r2) ->
     r2 = inl not_authenticated /\ tr2 = []) /\
  (forall creds tr1 this1 response,
     exec (login creds this') tr1 (this1, inr response) ->
     forall ty filter tr2 this2 r2,
       exec (fetchCatalog ty filter this1) tr2 (this2, r2) ->
       calls_network tr2).
Proof.
  intros H. pose proof (logout_clears _ _ _ _ H) as (Hc & Ha & He).
  split; [auto|]. split; [intros s; apply (logout_store _ _ _ _ _ H)|].
  split.
  - intros ty filter tr2 this2 r2 H2.
    assert (Hs : session this' = false) by (unfold session; rewrite Hc; reflexivity).
    destruct (fetch_unauthenticated _ _ _ _ _ _ Hs H2) as (-> & _ & ->). auto.
  - intros creds tr1 this1 response Hl ty filter tr2 this2 r2 H2.
    destruct (login_session _ _ _ _ _ Hl) as [Hs Hsame].
    apply (fetch_miss _ _ _ _ _ _ Hs) in H2; [exact H2|].
    unfold unusable. rewrite Hsame, He. exact I.
Qed.

(** C5 (amended). When the store accepts the removals, [clearCache]
    resolves, whatever the re-fetches do. It removes the four persisted
    keys and clears the four slots; then, with a session, it requests
    the live streams, the VOD streams and the series, each of them
    whatever became of the others, and no categories: the two
    categories slots stay empty. A rejected request is logged; the VOD
    streams and the series that were received become the entries of
    their slots, unfiltered, and a slot whose request was rejected
    stays empty. Without a session nothing is requested. *)
Theorem clearCache_rewarms_streams_only this tr this' r :
  exec (clearCache this) tr (this', r) ->
  (forall e, ~ Exists (remove_rejected e) tr) ->
  r = inr tt /\
  (forall ty, In (io_removeItem (cache_key ty) (inr tt)) tr) /\
  entry VOD_CATEGORIES this' = None /\ entry SERIES_CATEGORIES this' = None /\
  Forall (fun c => requested TCategories c = false) tr /\
  ((forall d, ~ Exists (fun c => received_movies c = Some d) tr) ->
   entry VOD_STREAMS this' = None) /\
  ((forall d, ~ Exists (fun c => received_series c = Some d) tr) ->
   entry SERIES this' = None) /\
  (session this = false -> no_network tr) /\
  (session this = true ->
   Exists (fun c => requested TChannels c = true) tr /\
   Exists (fun c => requested TMovies c = true) tr /\
   Exists (fun c => requested TSeries c = true) tr /\
   (forall e, Exists (network_rejected e) tr ->
              exists msg, In (io_error msg e) tr) /\
   (forall d, Exists (fun c => received_movies c = Some d) tr ->
              exists now, entry VOD_STREAMS this' =
                Some {| data := d; timestamp := now; categoryId := None |}) /\
   (forall d, Exists (fun c => received_series c = Some d) tr ->
              exists now, entry SERIES this' =
                Some {| data := d; timestamp := now; categoryId := None |})).
Proof.
  intros H Hok.
  destruct (clearCache_exec _ _ _ _ H)
    as (Hvc & Hsc & Hcat & Hm & Hs & _ & Hres).
  destruct (Hres Hok) as (Hr & Hkeys & Hno & Hyes).
  repeat (split; [assumption|]).
  split; [intros Hn; apply Hno; exact Hn|exact Hyes].
Qed.

(** C7 (amended). A failure of the persistent store is caught and logged
    where an entry is saved or the caches are loaded, and is thrown on
    by [clearCache]; it never undoes an update of the slots.
    (a) A rejected write of a fetched entry is logged; the fetch still
    returns the data, and the slot holds the new entry.
    (b) [loadCaches] never throws; a rejected read is logged.
    (c) In [clearCache] a rejected removal is logged and then thrown to
    the caller; the four slots are cleared all the same.
    (d) [logout] clears the four slots in every execution, whatever the
    store answers. *)
Theorem store_failures_contained :
  (forall ty filter this tr this' r e,
     exec (fetchCatalog ty filter this) tr (this', r) ->
     Exists (write_rejected e) tr ->
     In (io_error (save_failure_msg ty) e) tr /\
     exists en, entry ty this' = Some en /\ r = inr (data en)) /\
  (forall this tr this' r,
     exec (loadCaches this) tr (this', r) ->
     r = inr tt /\
     forall e, Exists (read_rejected e) tr ->
               exists e', In (io_error "Failed to load caches:" e') tr) /\
  (forall this tr this' r e,
     exec (clearCache this) tr (this', r) ->
     Exists (remove_rejected e) tr ->
     In (io_error "Error clearing cache:" e) tr /\ r = inl e /\
     forall ty, entry ty this' = None) /\
  (forall this tr this' r,
     exec (logout this) tr (this', r) ->
     forall ty, entry ty this' = None).
Proof.
  split; [|split; [|split]].
  - intros ty filter this tr this' r e H He.
    apply write_rejected_In in He as (k & v & Hin).
    apply (fetch_store_failure _ _ _ _ _ _ _ _ _ H Hin).
  - intros this tr this' r H. split; [apply (loadCaches_returns _ _ _ _ H)|].
    intros e He. apply (loadCaches_failed_read _ _ _ _ _ H He).
  - intros this tr this' r e H He.
    destruct (clearCache_exec _ _ _ _ H) as (_ & _ & _ & _ & _ & Hfail & _).
    destruct (Hfail e He) as (Hr & Hent & Hlog & _). auto.
  - intros this tr this' r H. apply (logout_clears _ _ _ _ H).
Qed.

End Claims.

(** ** Further properties *)

(** *** Texts *)

Lemma append_empty_l (s : string) : "" +:+ s = s.
Proof. reflexivity. Qed.

Lemma append_String (c : ascii) (s t : string) :
  String c s +:+ t = String c (s +:+ t).
Proof. reflexivity. Qed.

Lemma length_append (s t : string) :
  String.length (s +:+ t) = (String.length s + String.length t)%nat.
Proof.
  induction s as [|c s IH]; [reflexivity|].
  change (S (String.length (s +:+ t)) = S (String.length s + String.length t)).
  now rewrite IH.
Qed.

(** Two storage keys that cannot be the same text: they differ at some
    character, or in length. *)
Ltac key_clash H :=
  first
    [ cbv in H; discriminate H
    | apply (f_equal String.length) in H; simpl in H;
      rewrite ?length_append in H; simpl in H; lia
    | match type of H with
      | context [?s +:+ _] =>
          is_var s; let c := fresh "c" in
          destruct s as [|c s];
          rewrite ?append_empty_l, ?append_String in H; key_clash H
      end ].

Lemma append_assoc (s t u : string) : (s +:+ t) +:+ u = s +:+ (t +:+ u).
Proof.
  induction s as [|c s IH]; [reflexivity|].
  change (String c ((s +:+ t) +:+ u) = String c (s +:+ (t +:+ u))).
  now rewrite IH.
Qed.


(** *** The server URL *)

Lemma strip_trailing_slashes_no_slash s t :
  strip_trailing_slashes s <> t +:+ "/".
Proof.
  revert t. induction s as [|c s IH]; simpl; intros t.
  - destruct t; discriminate.
  - destruct (Ascii.eqb c "/"%char && String.eqb (strip_trailing_slashes s) "")
      eqn:E; [destruct t; discriminate|].
    destruct t as [|c' t]; rewrite ?append_empty_l, ?append_String;
      intros Ht; inversion Ht; subst.
    + rewrite H1 in E. rewrite andb_true_r in E. simpl in E. discriminate E.
    + now apply (IH t).
Qed.

(** X1. [strip_trailing_slashes], the [replace(/\/+$/, '')] of [login],
    removes exactly the slashes at the end of the text: the text is the
    result followed by slashes only, the result does not end with a
    slash, and cleaning a cleaned text changes nothing. *)
Theorem strip_trailing_slashes_spec s :
  (exists n, s = strip_trailing_slashes s
                 +:+ string_of_list_ascii (repeat "/"%char n)) /\
  (forall t, strip_trailing_slashes s <> t +:+ "/") /\
  strip_trailing_slashes (strip_trailing_slashes s) = strip_trailing_slashes s.
Proof.
  split; [|split; [apply strip_trailing_slashes_no_slash|]].
  - induction s as [|c s [n Hn]]; simpl; [exists 0%nat; reflexivity|].
    destruct (Ascii.eqb c "/"%char && String.eqb (strip_trailing_slashes s) "")
      eqn:E.
    + apply andb_true_iff in E as [Hc He].
      apply Ascii.eqb_eq in Hc as ->. apply String.eqb_eq in He.
      rewrite He, append_empty_l in Hn.
      exists (S n). rewrite append_empty_l. simpl. congruence.
    + exists n. rewrite append_String. congruence.
  - induction s as [|c s IH]; simpl; [reflexivity|].
    destruct (Ascii.eqb c "/"%char && String.eqb (strip_trailing_slashes s) "")
      eqn:E; [reflexivity|].
    simpl. rewrite IH, E. reflexivity.
Qed.

Section Session_properties.

Context {JSON_auth : JSON StoredAuth.t}.
Context {JSON_vod : JSON (CacheObject Movie.t)}.
Context {JSON_series : JSON (CacheObject Series.t)}.
Context {JSON_categories : JSON (CacheObject Category.t)}.

(** *** Login *)

(** What a login that resolved leaves in the object and in the trace. *)
Lemma login_resolved creds this tr this' response :
  exec (login creds this) tr (this', inr response) ->
  credentials this' =
    Some {| username := username creds; password := password creds;
            serverUrl := strip_trailing_slashes (serverUrl creds) |} /\
  authData this' = Some response /\
  exists url params sr rest,
    tr = io_axios TAuth url params (inr response)
         :: io_setItem AUTH_STORAGE_KEY (JSON_stringify (stored_auth this')) sr
         :: rest /\
    no_store_write rest.
Proof.
  intros H. destruct this as [c a vc vcc sc scc]. exec_cases H.
  all: split; [reflexivity|]; split; [reflexivity|].
  all: do 4 eexists; split; reflexivity.
Qed.

(** X2. A login that resolves: the server did not answer [auth = 0]; the
    object holds the credentials with the trailing slashes of the server
    URL removed, and the answer of the server; the cache slots are as
    before. It made one request, to the cleaned URL followed by
    [/player_api.php] with the user name and the password, and then
    wrote the credentials and the answer under [AUTH_STORAGE_KEY]; a
    rejection of that write is logged and does not make the login
    fail. *)
Theorem login_stores_cleaned_credentials creds this tr this' response :
  exec (login creds this) tr (this', inr response) ->
  let url := strip_trailing_slashes (serverUrl creds) in
  let stored := {| username := username creds; password := password creds;
                   serverUrl := url |} in
  UserInfo.auth (user_info response) <> 0 /\
  credentials this' = Some stored /\
  authData this' = Some response /\
  (forall ty, entry ty this' = entry ty this) /\
  exists sr,
    tr = io_axios TAuth (url +:+ "/player_api.php")
           [("username", username creds); ("password", password creds)]
           (inr response)
         :: io_setItem AUTH_STORAGE_KEY (JSON_stringify (stored_auth this')) sr
         :: match sr with
            | inl e => [io_error "Failed to save auth data:" e]
            | inr _ => []
            end.
Proof.
  intros H. destruct this as [c a vc vcc sc scc]. exec_cases H.
  all: match goal with Hz : (_ =? 0) = false |- _ => apply Z.eqb_neq in Hz end.
  all: split; [assumption|]; split; [reflexivity|]; split; [reflexivity|].
  all: split; [intros []; reflexivity|].
  all: first [eexists (inl _); reflexivity | eexists (inr _); reflexivity].
Qed.

(** X3. A login that rejects changes no field of the object (an earlier
    session stays as it was) and writes nothing to the store; the error
    is logged, and it is either the rejection of the request or, when
    the server answered [auth = 0], the error 'Authentication failed.
    Please check your credentials.'. *)
Theorem login_failure_changes_nothing creds this tr this' e :
  exec (login creds this) tr (this', inl e) ->
  this' = this /\ no_store_write tr /\ In (io_error "Login error:" e) tr /\
  (Exists (network_rejected e) tr \/
   e = Error "Authentication failed. Please check your credentials." /\
   exists url params response,
     In (io_axios TAuth url params (inr response)) tr /\
     UserInfo.auth (user_info response) = 0).
Proof.
  intros H. destruct this as [c a vc vcc sc scc]. exec_cases H.
  - split; [reflexivity|]. split; [reflexivity|]. split; [in_trace|].
    left. exists_in_trace.
  - match goal with Hz : (_ =? 0) = true |- _ => apply Z.eqb_eq in Hz end.
    split; [reflexivity|]. split; [reflexivity|]. split; [in_trace|].
    right. split; [reflexivity|]. do 3 eexists. split; [in_trace|assumption].
Qed.

Lemma loadCredentials_restores this tr this' r s a :
  exec (loadCredentials this) tr (this', r) ->
  reliable_store s tr ->
  s !! AUTH_STORAGE_KEY = Some (JSON_stringify a) ->
  JSON_stringify a <> "" ->
  JSON_parse (JSON_stringify a) = inr a ->
  credentials this' = StoredAuth.credentials a /\
  authData this' = StoredAuth.authData a.
Proof.
  intros H Hs Hk Hne Hp. destruct this as [c a0 vc vcc sc scc]. exec_cases H.
  all: destruct_and; test_cases.
  all: rewrite Hk in *; unfold truthy in *.
  all: destruct (String.eqb_spec (JSON_stringify a) ""); try contradiction.
  all: test_cases; try congruence.
  all: rewrite Hp in *; test_cases; auto.
Qed.

(** X4. The session survives a restart. After a login that resolved, on
    a store that works, and when [JSON.parse] gives back the object that
    [JSON.stringify] wrote, a new instance constructed over that store
    holds the credentials and the answer of the server of that login: it
    has a session, and it made no request to get it. *)
Theorem login_survives_restart creds this tr this1 response s tr2 this2 :
  exec (login creds this) tr (this1, inr response) ->
  reliable_store s tr ->
  JSON_stringify (stored_auth this1) <> "" ->
  JSON_parse (JSON_stringify (stored_auth this1)) = inr (stored_auth this1) ->
  exec constructor tr2 this2 ->
  reliable_store (store_after s tr) tr2 ->
  credentials this2 = credentials this1 /\
  authData this2 = Some response /\
  session this2 = true /\
  no_network tr2.
Proof.
  intros H Hs Hne Hp H2 Hs2.
  destruct (login_resolved _ _ _ _ _ H)
    as (Hc & Ha & url & params & sr & rest & -> & Hrest).
  simpl in Hs. destruct Hs as [-> _]. simpl in Hs2.
  rewrite (store_after_no_write _ _ Hrest) in Hs2.
  apply constructor_exec in H2 as (tr1 & tr3 & thisA & r1 & r2 & -> & HA & HB).
  apply reliable_store_app in Hs2 as [Hs2 _].
  destruct (loadCredentials_restores _ _ _ _ _ _ HA Hs2
              (lookup_insert_eq _ _ _) Hne Hp) as [Hc' Ha'].
  destruct (loadCaches_returns _ _ _ _ HB) as (_ & Hc2 & Ha2).
  destruct (loadCredentials_quiet _ _ _ _ HA) as (_ & Hn1 & _).
  destruct (loadCaches_quiet _ _ _ _ HB) as (Hn2 & _).
  simpl in Hc', Ha'. rewrite Hc2, Ha2, Hc', Ha'.
  split; [reflexivity|]. split; [exact Ha|].
  split; [|now apply no_network_app].
  unfold session. rewrite Hc2, Ha2, Hc', Ha', Hc, Ha. reflexivity.
Qed.

(** X5. A login does not clear the cache. The entries the object holds
    when [login] is called are still there when it has resolved, so a
    fetch made in the new session, within 24 hours of the entry and
    under its filter, returns the data cached before the login, under
    whatever credentials they were fetched, without any request. *)
Theorem login_keeps_the_cache creds this tr this1 response ty e filter tr2 this2 r2 :
  exec (login creds this) tr (this1, inr response) ->
  entry ty this = Some e ->
  (is_stream_type ty = true -> categoryId e = filter) ->
  exec (fetchCatalog ty filter this1) tr2 (this2, r2) ->
  (forall now, In (io_now now) tr2 -> now - timestamp e < CACHE_EXPIRY_TIME) ->
  entry ty this1 = Some e /\ no_network tr2 /\ r2 = inr (data e).
Proof.
  intros H He Hf H2 Hnow.
  destruct (login_session _ _ _ _ _ H) as [Hs Hentries].
  rewrite <- Hentries in He. split; [exact He|].
  destruct (fetch_hit _ _ _ _ _ _ _ Hs He Hf Hnow H2) as (-> & _ & Hn). auto.
Qed.

(** *** The three tests of a session *)

(** X6. [isLoggedIn], [getUserInfo] and [ensureAuthenticated] agree.
    [isLoggedIn] never rejects and calls nothing; it answers [true]
    exactly when [getUserInfo] is not [null], which is exactly when
    [ensureAuthenticated] does not throw. The user name that
    [getUserInfo] reports is the one of the credentials given to
    [login], whatever name the server sent back. *)
Theorem session_tests_agree this tr this' r :
  exec (isLoggedIn this) tr (this', r) ->
  tr = [] /\ this' = this /\ r = inr (session this) /\
  (session this = true <-> getUserInfo this <> None) /\
  (forall tr1 this1 r1,
     exec (ensureAuthenticated this) tr1 (this1, r1) ->
     tr1 = [] /\ this1 = this /\
     r1 = if session this then inr tt else inl not_authenticated) /\
  forall info, getUserInfo this = Some info ->
    exists c, credentials this = Some c /\
              UserSummary.username info = username c.
Proof.
  intros H. destruct this as [c a vc vcc sc scc]. exec_cases H.
  split; [reflexivity|]. split; [reflexivity|]. split; [reflexivity|].
  split; [|split].
  - unfold session, getUserInfo. simpl. destruct c, a; simpl; split;
      congruence.
  - intros tr1 this1 r1 H1. destruct c, a; exec_cases H1; auto.
  - unfold getUserInfo. simpl. intros info Hi. destruct c, a; try discriminate Hi.
    inversion Hi; subst. eauto.
Qed.

End Session_properties.

Section Logout_properties.

Context {JSON_auth : JSON StoredAuth.t}.
Context {JSON_vod : JSON (CacheObject Movie.t)}.
Context {JSON_series : JSON (CacheObject Series.t)}.
Context {JSON_categories : JSON (CacheObject Category.t)}.

(** *** Logout *)

Lemma logout_exec this tr this' r :
  exec (logout this) tr (this', r) ->
  let keys := logout_keys ++ match logout_user this with
                             | Some u => logout_user_keys u
                             | None => []
                             end in
  (forall k e, In (io_removeItem k (inl e)) tr ->
     (exists n, (n < 5)%nat /\ removals tr = firstn (S n) keys /\
                nth_error keys n = Some k /\
                r = inl e /\ last tr = Some (io_removeItem k (inl e)) /\
                forall msg err, ~ In (io_error msg err) tr) \/
     (exists n, (5 <= n)%nat /\ removals tr = firstn (S n) keys /\
                nth_error keys n = Some k /\
                r = inr tt /\
                In (io_error "Error clearing user-specific data:" e) tr)) /\
  ((forall k e, ~ In (io_removeItem k (inl e)) tr) ->
   r = inr tt /\ removals tr = keys /\
   forall k, In k keys -> In (io_removeItem k (inr tt)) tr).
Proof.
  intros H. unfold logout_user. destruct this as [c a vc vcc sc scc].
  exec_go H.
  all: repeat match goal with u : unit |- _ => destruct u end.
  all: cbv zeta; split; [intros k e Hin|intros Hok].
  all: try (exfalso; eapply Hok; in_trace).
  all: try (clear Hok; split; [reflexivity|]; split; [reflexivity|];
            intros k Hk;
            repeat (destruct Hk as [<-|Hk]; [in_trace|]); destruct Hk).
  all: in_cases Hin.
  all: try solve
    [ left; (exists 0%nat + exists 1%nat + exists 2%nat + exists 3%nat
             + exists 4%nat);
      split; [lia|]; split; [reflexivity|]; split; [reflexivity|];
      split; [reflexivity|]; split; [reflexivity|];
      intros msg err Hm; in_cases Hm ].
  all: right; (exists 5%nat + exists 6%nat + exists 7%nat + exists 8%nat);
    (split; [lia|]); (split; [reflexivity|]); (split; [reflexivity|]);
    (split; [reflexivity|]); in_trace.
Qed.

Lemma nth_error_logout_keys (rest : list string) n k :
  nth_error (logout_keys ++ rest) n = Some k ->
  ((n < 5)%nat -> In k logout_keys) /\
  ((5 <= n)%nat -> In k rest).
Proof.
  intros H. split; intros Hn.
  - rewrite nth_error_app1 in H by (simpl; lia). now apply nth_error_In in H.
  - rewrite nth_error_app2 in H by (simpl; lia). now apply nth_error_In in H.
Qed.

(** X7. A removal that the store rejects during [logout]. The session
    and the four slots are cleared in any case. If the key is one of the
    five that are removed for every user, [logout] rejects with the
    error of the store, the rejected removal is the last call it makes
    (the keys after it are not removed) and nothing is logged. If the
    key is one of the four keys of the user, the error is caught and
    logged, and [logout] resolves. *)
Theorem logout_stops_at_a_rejected_removal this tr this' r k e :
  exec (logout this) tr (this', r) ->
  In (io_removeItem k (inl e)) tr ->
  session this' = false /\ (forall ty, entry ty this' = None) /\
  ((In k logout_keys /\ r = inl e /\
    last tr = Some (io_removeItem k (inl e)) /\
    forall msg err, ~ In (io_error msg err) tr) \/
   (exists u, logout_user this = Some u /\ In k (logout_user_keys u) /\
              r = inr tt /\
              In (io_error "Error clearing user-specific data:" e) tr)).
Proof.
  intros H Hin.
  destruct (logout_clears _ _ _ _ H) as (Hc & Ha & He).
  split; [unfold session; rewrite Hc; reflexivity|]. split; [exact He|].
  destruct (logout_exec _ _ _ _ H) as [Hrej _].
  destruct (Hrej _ _ Hin) as [(n & Hn & _ & Hk & -> & Hl & Hlog)
                              |(n & Hn & _ & Hk & -> & Hlog)];
    apply nth_error_logout_keys in Hk as [Hk1 Hk2].
  - left. auto.
  - right. specialize (Hk2 Hn). destruct (logout_user this) as [u|]; [|destruct Hk2].
    exists u. auto.
Qed.

Lemma getUserStorageKey_exec this tr this' r :
  exec (FavoritesContext.getUserStorageKey this) tr (this', r) ->
  tr = [] /\ this' = this /\
  r = inr match logout_user this with
          | Some u => "huluxtream_favorites_" +:+ u
          | None => FavoritesContext.FAVORITES_STORAGE_KEY_BASE
          end.
Proof.
  intros H. unfold logout_user.
  destruct this as [[c|] [a|] vc vcc sc scc]; async_cases H; auto.
  all: unfold getUserInfo in *; simpl in *; test_cases.
  all: match goal with Ht : (if _ then _ else _) = _ |- _ => rewrite Ht end; auto.
Qed.

Lemma getUserStorageKeys_exec this tr this' r :
  exec (ParentalControlContext.getUserStorageKeys this) tr (this', r) ->
  tr = [] /\ this' = this /\
  exists keys, r = inr keys /\
    match logout_user this with
    | Some u =>
        ParentalControlContext.enabledKey keys =
          u +:+ "_huluxtream_parental_control_enabled" /\
        ParentalControlContext.pinKey keys =
          u +:+ "_huluxtream_parental_control_pin" /\
        ParentalControlContext.categoriesKey keys =
          u +:+ "_huluxtream_restricted_categories"
    | None =>
        ParentalControlContext.enabledKey keys =
          ParentalControlContext.PARENTAL_CONTROL_ENABLED_KEY_BASE /\
        ParentalControlContext.pinKey keys =
          ParentalControlContext.PARENTAL_CONTROL_PIN_KEY_BASE /\
        ParentalControlContext.categoriesKey keys =
          ParentalControlContext.RESTRICTED_CATEGORIES_KEY_BASE
    end.
Proof.
  intros H. unfold logout_user.
  destruct this as [[c|] [a|] vc vcc sc scc]; async_cases H.
  all: split; [reflexivity|]; split; [reflexivity|]; eexists;
    (split; [reflexivity|]).
  all: unfold getUserInfo in *; simpl in *; test_cases.
  all: try match goal with Ht : (if _ then _ else _) = _ |- _ => rewrite Ht end.
  all: simpl; rewrite ?append_assoc; auto.
Qed.

(** X8. The keys [logout] removes are the keys the user's data are
    stored under. When the store accepts every removal, [logout]
    resolves after asking for the removal of the five fixed keys and,
    if it has a user name in hand, of the key [getUserStorageKey] of the
    favorites and the three keys [getUserStorageKeys] of the parental
    control compute for that session, in that order. Without a session
    or with an empty user name these functions give the base keys, and
    [logout] removes none of them. *)
Theorem logout_removes_the_keys_of_the_user
    this tr this' r tr1 this1 r1 tr2 this2 r2 :
  exec (logout this) tr (this', r) ->
  (forall k e, ~ In (io_removeItem k (inl e)) tr) ->
  exec (FavoritesContext.getUserStorageKey this) tr1 (this1, r1) ->
  exec (ParentalControlContext.getUserStorageKeys this) tr2 (this2, r2) ->
  r = inr tt /\ tr1 = [] /\ tr2 = [] /\
  exists favoritesKey keys,
    r1 = inr favoritesKey /\ r2 = inr keys /\
    let user_keys := [favoritesKey;
                      ParentalControlContext.enabledKey keys;
                      ParentalControlContext.pinKey keys;
                      ParentalControlContext.categoriesKey keys] in
    match logout_user this with
    | Some _ =>
        removals tr = logout_keys ++ user_keys /\
        forall k, In k user_keys -> In (io_removeItem k (inr tt)) tr
    | None =>
        removals tr = logout_keys /\
        favoritesKey = FavoritesContext.FAVORITES_STORAGE_KEY_BASE /\
        forall k, In k user_keys -> ~ In k (removals tr)
    end.
Proof.
  intros H Hok H1 H2.
  destruct (logout_exec _ _ _ _ H) as [_ Hall].
  destruct (Hall Hok) as (-> & Hrem & Hin). clear Hall.
  destruct (getUserStorageKey_exec _ _ _ _ H1) as (-> & _ & ->).
  destruct (getUserStorageKeys_exec _ _ _ _ H2) as (-> & _ & keys & -> & Hk).
  split; [reflexivity|]. split; [reflexivity|]. split; [reflexivity|].
  do 2 eexists. split; [reflexivity|]. split; [reflexivity|]. cbv zeta.
  destruct (logout_user this) as [u|]; destruct Hk as (-> & -> & ->).
  - split; [exact Hrem|]. intros k Hk. apply Hin, in_or_app. right. exact Hk.
  - rewrite app_nil_r in Hrem. split; [exact Hrem|]. split; [reflexivity|].
    rewrite Hrem. intros k Hk Hk'.
    repeat (destruct Hk as [<-|Hk];
            [repeat (destruct Hk' as [Hk'|Hk']; [discriminate Hk'|]);
             destruct Hk'|]).
    destruct Hk.
Qed.

End Logout_properties.

Section Request_properties.

Context {JSON_auth : JSON StoredAuth.t}.
Context {JSON_vod : JSON (CacheObject Movie.t)}.
Context {JSON_series : JSON (CacheObject Series.t)}.
Context {JSON_categories : JSON (CacheObject Category.t)}.
Context {String_prototype : StringPrototype}.

(** *** Live content *)

Lemma getLiveStreams_exec filter this tr this' r :
  exec (getLiveStreams filter this) tr (this', r) ->
  this' = this /\
  match credentials this, authData this with
  | Some c, Some _ =>
      tr = [io_axios TChannels (serverUrl c +:+ "/player_api.php")
              (request_params c "get_live_streams" filter) r]
  | _, _ => tr = [] /\ r = inl not_authenticated
  end.
Proof.
  intros H. destruct this as [[c|] [a|] vc vcc sc scc]; exec_cases H; auto.
Qed.

Lemma getLiveCategories_exec this tr this' r :
  exec (getLiveCategories this) tr (this', r) ->
  this' = this /\
  match credentials this, authData this with
  | Some c, Some _ =>
      exists answer,
        tr = [io_axios TCategories (serverUrl c +:+ "/player_api.php")
                (request_params c "get_live_categories" None) answer] /\
        r = match answer with
            | inl e => inl e
            | inr response => inr (map (Category.with_type live) response)
            end
  | _, _ => tr = [] /\ r = inl not_authenticated
  end.
Proof.
  intros H. destruct this as [[c|] [a|] vc vcc sc scc]; async_cases H; auto.
  all: split; [reflexivity|]; eexists; split; reflexivity.
Qed.

(** X9. Live content is never cached. With a session, every call of
    [getLiveStreams] and of [getLiveCategories] makes exactly one
    request and no other platform call (no clock reading, no access to
    the store), and leaves the object as it is; [getLiveStreams] settles
    with the answer of the server as it is, [getLiveCategories] with the
    categories of the answer, each marked ['live']. *)
Theorem live_content_is_never_cached this c :
  session this = true ->
  credentials this = Some c ->
  (forall filter tr this' r,
     exec (getLiveStreams filter this) tr (this', r) ->
     this' = this /\
     tr = [io_axios TChannels (serverUrl c +:+ "/player_api.php")
             (request_params c "get_live_streams" filter) r]) /\
  (forall tr this' r,
     exec (getLiveCategories this) tr (this', r) ->
     this' = this /\
     exists answer,
       tr = [io_axios TCategories (serverUrl c +:+ "/player_api.php")
               (request_params c "get_live_categories" None) answer] /\
       r = match answer with
           | inl e => inl e
           | inr response => inr (map (Category.with_type live) response)
           end).
Proof.
  intros Hs Hc. unfold session in Hs. rewrite Hc in Hs. split.
  - intros filter tr this' r H. apply getLiveStreams_exec in H as [-> H].
    rewrite Hc in H. destruct (authData this); [auto|discriminate Hs].
  - intros tr this' r H. apply getLiveCategories_exec in H as [-> H].
    rewrite Hc in H. destruct (authData this); [auto|discriminate Hs].
Qed.

(** *** The requests of the cached catalogs *)

Lemma fetch_request ty filter this tr this' r :
  exec (fetchCatalog ty filter this) tr (this', r) ->
  (network_calls tr <= 1)%nat /\
  forall T url params answer,
    In (io_axios T url params answer) tr ->
    exists c, credentials this = Some c /\
      url = serverUrl c +:+ "/player_api.php" /\
      params = request_params c (catalog_action ty) (recorded_filter ty filter).
Proof.
  intros H. destruct this as [[c|] [a|] vc vcc sc scc];
    destruct ty; exec_cases H.
  all: split; [unfold network_calls; simpl; lia|].
  all: intros T url params answer Hin; in_cases Hin.
  all: eexists; split; [reflexivity|]; split; reflexivity.
Qed.

(** X10. The request of a fetch. A fetch of a cached catalog makes at
    most one request; it goes to the server URL of the credentials
    followed by [/player_api.php], with the parameters [username],
    [password] and the [action] of the catalog type, and with
    [category_id] exactly when a stream catalog is asked under a
    non-empty filter. *)
Theorem fetch_request_contract ty filter this tr this' r :
  exec (fetchCatalog ty filter this) tr (this', r) ->
  (network_calls tr <= 1)%nat /\
  forall T url params answer,
    In (io_axios T url params answer) tr ->
    exists c, credentials this = Some c /\
      url = serverUrl c +:+ "/player_api.php" /\
      params =
        [("username", username c); ("password", password c);
         ("action", catalog_action ty)]
        ++ match recorded_filter ty filter with
           | Some id => if String.eqb id "" then [] else [("category_id", id)]
           | None => []
           end.
Proof.
  intros H. destruct (fetch_request _ _ _ _ _ _ H) as [Hn Hreq].
  split; [exact Hn|]. intros T url params answer Hin.
  destruct (Hreq _ _ _ _ Hin) as (c & Hc & -> & ->).
  exists c. split; [exact Hc|]. split; [reflexivity|].
  unfold request_params, with_category_id, truthy.
  destruct (recorded_filter ty filter) as [id|]; [|now rewrite app_nil_r].
  destruct (String.eqb id ""); [now rewrite app_nil_r|reflexivity].
Qed.

(** X11. The empty filter. A stream catalog fetched under the filter
    [''] is requested without [category_id], as the whole catalog is,
    but the entry records the filter ['']; so a following fetch of the
    whole catalog (no filter), which would make the very same request,
    does not use that entry and calls the remote service again. *)
Theorem empty_filter_is_cached_apart ty this tr this' d :
  is_stream_type ty = true ->
  exec (fetchCatalog ty (Some "") this) tr (this', inr d) ->
  calls_network tr ->
  (forall T url params answer,
     In (io_axios T url params answer) tr ->
     exists c, credentials this = Some c /\
       params = [("username", username c); ("password", password c);
                 ("action", catalog_action ty)]) /\
  (exists e, entry ty this' = Some e /\ categoryId e = Some "" /\ data e = d) /\
  forall tr2 this2 r2,
    exec (fetchCatalog ty None this') tr2 (this2, r2) ->
    calls_network tr2 /\
    forall T url params answer,
      In (io_axios T url params answer) tr2 ->
      exists c, credentials this = Some c /\
        params = [("username", username c); ("password", password c);
                  ("action", catalog_action ty)].
Proof.
  intros Hst H Hn.
  destruct (fetch_request _ _ _ _ _ _ H) as [_ Hreq].
  destruct (fetch_success _ _ _ _ _ _ H) as (Hs & Hc & _ & _ & e & He & Hd & Hf).
  specialize (Hf Hst).
  split; [|split].
  - intros T url params answer Hin.
    destruct (Hreq _ _ _ _ Hin) as (c & Hcr & _ & ->). exists c.
    split; [exact Hcr|]. unfold recorded_filter. rewrite Hst. reflexivity.
  - eauto.
  - intros tr2 this2 r2 H2. split.
    + apply (fetch_miss _ _ _ _ _ _ Hs) in H2; [exact H2|].
      unfold unusable. rewrite He. left. split; [exact Hst|]. congruence.
    + intros T url params answer Hin.
      destruct (fetch_request _ _ _ _ _ _ H2) as [_ Hreq2].
      destruct (Hreq2 _ _ _ _ Hin) as (c & Hcr & _ & ->). exists c.
      rewrite <- Hc. split; [exact Hcr|].
      unfold recorded_filter. destruct (is_stream_type ty); reflexivity.
Qed.

(** *** The categories *)

Lemma Forall_with_type ty (l : list Category.t) :
  Forall (fun c => Category.category_type c = Some ty)
         (map (Category.with_type ty) l).
Proof.
  induction l as [|c l IH]; simpl; constructor; [reflexivity|exact IH].
Qed.

(** X12. Categories carry the type of their catalog. When
    [getVodCategories] (resp. [getSeriesCategories]) fetches from the
    remote service, what it returns, and caches, are the categories of
    the answer, in the same order and with the same fields, each with
    [category_type] set to ['movie'] (resp. ['series']), whatever type
    the server sent. *)
Theorem categories_are_tagged :
  (forall this tr this' d,
     exec (getVodCategories this) tr (this', inr d) ->
     calls_network tr ->
     exists url params response e,
       In (io_axios TCategories url params (inr response)) tr /\
       d = map (Category.with_type movie) response /\
       vodCategoriesCache this' = Some e /\ data e = d /\
       Forall (fun c => Category.category_type c = Some movie) d) /\
  (forall this tr this' d,
     exec (getSeriesCategories this) tr (this', inr d) ->
     calls_network tr ->
     exists url params response e,
       In (io_axios TCategories url params (inr response)) tr /\
       d = map (Category.with_type series) response /\
       seriesCategoriesCache this' = Some e /\ data e = d /\
       Forall (fun c => Category.category_type c = Some series) d).
Proof.
  split; intros this tr this' d H Hn.
  all: destruct this as [[c|] [a|] vc vcc sc scc]; exec_cases H; test_cases;
    try discriminate Hn.
  all: do 4 eexists; split; [in_trace|]; split; [reflexivity|];
    split; [reflexivity|]; split; [reflexivity|]; apply Forall_with_type.
Qed.

(** *** The stream URLs *)



End Request_properties.

Lemma exec_bind {A B : Type} (m : Method A) (f : A -> Method B) this tr this' r :
  exec (bind m f this) tr (this', r) ->
  exists tr1 tr2 this1 r1,
    tr = tr1 ++ tr2 /\ exec (m this) tr1 (this1, r1) /\
    match r1 with
    | inl e => tr2 = [] /\ this' = this1 /\ r = inl e
    | inr a => exec (f a this1) tr2 (this', r)
    end.
Proof.
  unfold bind. intros H.
  apply exec_pbind in H as (tr1 & tr2 & [this1 r1] & -> & H1 & H2).
  exists tr1, tr2, this1, r1. split; [reflexivity|]. split; [exact H1|].
  destruct r1 as [e|a]; [|exact H2].
  simpl in H2. destruct H2 as [-> H2]. inversion H2. auto.
Qed.

Lemma includes_empty (s : string) : includes s "" = true.
Proof. destruct s; reflexivity. Qed.

Lemma filter_all {A : Type} (f : A -> bool) (l : list A) :
  (forall x, f x = true) -> List.filter f l = l.
Proof.
  intros Hf. induction l as [|x l IH]; simpl; [reflexivity|].
  now rewrite Hf, IH.
Qed.

Section Search_properties.

Context {JSON_auth : JSON StoredAuth.t}.
Context {JSON_vod : JSON (CacheObject Movie.t)}.
Context {JSON_series : JSON (CacheObject Series.t)}.
Context {JSON_categories : JSON (CacheObject Category.t)}.
Context {String_prototype : StringPrototype}.

(** *** Search *)

(** A search is the fetch of the whole catalog followed by the
    selection of the names. *)
Lemma searchVodStreams_exec query this tr this' r :
  exec (searchVodStreams query this) tr (this', r) ->
  exists r0,
    exec (fetchCatalog VOD_STREAMS None this) tr (this', r0) /\
    r = match r0 with
        | inl e => inl e
        | inr allMovies =>
            inr (List.filter
                   (fun movie => name_matches query (Movie.name movie))
                   allMovies)
        end.
Proof.
  intros H. apply exec_bind in H as (tr1 & tr2 & this1 & r1 & -> & H1 & H2).
  exists r1. destruct r1 as [e|a].
  - destruct H2 as (-> & -> & ->). rewrite app_nil_r. auto.
  - simpl in H2. destruct H2 as [-> H2]. inversion H2; subst.
    rewrite app_nil_r. auto.
Qed.

Lemma searchSeries_exec query this tr this' r :
  exec (searchSeries query this) tr (this', r) ->
  exists r0,
    exec (fetchCatalog SERIES None this) tr (this', r0) /\
    r = match r0 with
        | inl e => inl e
        | inr allSeries =>
            inr (List.filter
                   (fun series => name_matches query (Series.name series))
                   allSeries)
        end.
Proof.
  intros H. apply exec_bind in H as (tr1 & tr2 & this1 & r1 & -> & H1 & H2).
  exists r1. destruct r1 as [e|a].
  - destruct H2 as (-> & -> & ->). rewrite app_nil_r. auto.
  - simpl in H2. destruct H2 as [-> H2]. inversion H2; subst.
    rewrite app_nil_r. auto.
Qed.

Lemma searchLiveStreams_exec query this tr this' r :
  exec (searchLiveStreams query this) tr (this', r) ->
  exists r0,
    exec (getLiveStreams None this) tr (this', r0) /\
    r = match r0 with
        | inl e => inl e
        | inr allChannels =>
            inr (List.filter
                   (fun channel => name_matches query (Channel.name channel))
                   allChannels)
        end.
Proof.
  intros H. apply exec_bind in H as (tr1 & tr2 & this1 & r1 & -> & H1 & H2).
  exists r1. destruct r1 as [e|a].
  - destruct H2 as (-> & -> & ->). rewrite app_nil_r. auto.
  - simpl in H2. destruct H2 as [-> H2]. inversion H2; subst.
    rewrite app_nil_r. auto.
Qed.

(** X14. A search of the movies, or of the series, works on the whole
    catalog and leaves it in the cache. When [searchVodStreams] (resp.
    [searchSeries]) returns, the slot of the catalog holds an entry with
    no filter, and the result is the records of that entry, in their
    order, whose lower-cased name includes the lower-cased query. The
    entry holds the whole catalog, not the result: a later search, for
    any query, made while the entry is within its 24 hours calls the
    remote service no more and selects from the same entry. *)
Theorem search_selects_from_the_cached_catalog :
  (forall query this tr this' d,
     exec (searchVodStreams query this) tr (this', inr d) ->
     exists e,
       vodCache this' = Some e /\ categoryId e = None /\
       d = List.filter (fun movie => name_matches query (Movie.name movie))
             (data e) /\
       forall query2 tr2 this2 r2,
         exec (searchVodStreams query2 this') tr2 (this2, r2) ->
         (forall now, In (io_now now) tr2 ->
                      now - timestamp e < CACHE_EXPIRY_TIME) ->
         no_network tr2 /\ this2 = this' /\
         r2 = inr (List.filter
                     (fun movie => name_matches query2 (Movie.name movie))
                     (data e))) /\
  (forall query this tr this' d,
     exec (searchSeries query this) tr (this', inr d) ->
     exists e,
       seriesCache this' = Some e /\ categoryId e = None /\
       d = List.filter (fun series => name_matches query (Series.name series))
             (data e) /\
       forall query2 tr2 this2 r2,
         exec (searchSeries query2 this') tr2 (this2, r2) ->
         (forall now, In (io_now now) tr2 ->
                      now - timestamp e < CACHE_EXPIRY_TIME) ->
         no_network tr2 /\ this2 = this' /\
         r2 = inr (List.filter
                     (fun series => name_matches query2 (Series.name series))
                     (data e))).
Proof.
  split; intros query this tr this' d H.
  - apply searchVodStreams_exec in H as ([e0|all] & H & Hr); [discriminate Hr|].
    inversion Hr; subst; clear Hr.
    destruct (fetch_success VOD_STREAMS _ _ _ _ _ H)
      as (Hs & _ & _ & _ & e & He & Hd & Hf).
    specialize (Hf eq_refl). simpl in He, Hd. subst all.
    exists e. split; [exact He|]. split; [exact Hf|]. split; [reflexivity|].
    intros query2 tr2 this2 r2 H2 Hnow.
    apply searchVodStreams_exec in H2 as (r0 & H2 & ->).
    destruct (fetch_hit VOD_STREAMS None _ e _ _ _ Hs He (fun _ => Hf) Hnow H2)
      as (-> & -> & Hn). auto.
  - apply searchSeries_exec in H as ([e0|all] & H & Hr); [discriminate Hr|].
    inversion Hr; subst; clear Hr.
    destruct (fetch_success SERIES _ _ _ _ _ H)
      as (Hs & _ & _ & _ & e & He & Hd & Hf).
    specialize (Hf eq_refl). simpl in He, Hd. subst all.
    exists e. split; [exact He|]. split; [exact Hf|]. split; [reflexivity|].
    intros query2 tr2 this2 r2 H2 Hnow.
    apply searchSeries_exec in H2 as (r0 & H2 & ->).
    destruct (fetch_hit SERIES None _ e _ _ _ Hs He (fun _ => Hf) Hnow H2)
      as (-> & -> & Hn). auto.
Qed.

(** X15. A search of the live channels always asks the server. With a
    session, every [searchLiveStreams] makes exactly one request, for
    the live streams of all categories, and no other platform call; it
    rejects with the error of the request, or returns the channels of
    the answer, in their order, whose lower-cased name includes the
    lower-cased query. Nothing is kept: the object is as before. *)
Theorem search_of_live_channels_always_fetches query this c tr this' r :
  session this = true ->
  credentials this = Some c ->
  exec (searchLiveStreams query this) tr (this', r) ->
  this' = this /\
  exists answer,
    tr = [io_axios TChannels (serverUrl c +:+ "/player_api.php")
            [("username", username c); ("password", password c);
             ("action", "get_live_streams")] answer] /\
    r = match answer with
        | inl e => inl e
        | inr allChannels =>
            inr (List.filter
                   (fun channel => name_matches query (Channel.name channel))
                   allChannels)
        end.
Proof.
  intros Hs Hc H. apply searchLiveStreams_exec in H as (r0 & H & ->).
  apply getLiveStreams_exec in H as [-> H]. split; [reflexivity|].
  unfold session in Hs. rewrite Hc in *.
  destruct (authData this); [|discriminate Hs]. exists r0. auto.
Qed.

(** X16. The empty query. When the lower case of the empty text is the
    empty text, a search with the query [''] selects every record: the
    search of the movies and of the series return the whole cached
    catalog, the search of the live channels the whole answer of the
    server. *)
Theorem search_with_the_empty_query :
  toLowerCase "" = "" ->
  (forall this tr this' d,
     exec (searchVodStreams "" this) tr (this', inr d) ->
     exists e, vodCache this' = Some e /\ d = data e) /\
  (forall this tr this' d,
     exec (searchSeries "" this) tr (this', inr d) ->
     exists e, seriesCache this' = Some e /\ d = data e) /\
  (forall this tr this' d,
     exec (searchLiveStreams "" this) tr (this', inr d) ->
     exists url params,
       In (io_axios TChannels url params (inr d)) tr).
Proof.
  intros Hlow.
  assert (Hall : forall name, name_matches "" name = true).
  { intros name. unfold name_matches. rewrite Hlow. apply includes_empty. }
  split; [|split]; intros this tr this' d H.
  - apply searchVodStreams_exec in H as ([e0|all] & H & Hr); [discriminate Hr|].
    inversion Hr; subst; clear Hr. rewrite filter_all by (intros; apply Hall).
    destruct (fetch_success VOD_STREAMS _ _ _ _ _ H)
      as (_ & _ & _ & _ & e & He & Hd & _). eauto.
  - apply searchSeries_exec in H as ([e0|all] & H & Hr); [discriminate Hr|].
    inversion Hr; subst; clear Hr. rewrite filter_all by (intros; apply Hall).
    destruct (fetch_success SERIES _ _ _ _ _ H)
      as (_ & _ & _ & _ & e & He & Hd & _). eauto.
  - apply searchLiveStreams_exec in H as ([e0|all] & H & Hr); [discriminate Hr|].
    inversion Hr; subst; clear Hr. rewrite filter_all by (intros; apply Hall).
    apply getLiveStreams_exec in H as [-> H].
    destruct (credentials this), (authData this);
      try (match type of H with _ /\ _ => destruct H as [_ H] end;
           discriminate H).
    subst tr. do 2 eexists. left. reflexivity.
Qed.

End Search_properties.

(** ** The list of saved users *)

(** *** Sorting *)

Lemma Array_sort_insert_perm {A : Type} (compare : A -> A -> Z) x l :
  Permutation (Array_sort_insert compare x l) (x :: l).
Proof.
  induction l as [|y l IH]; simpl; [reflexivity|].
  destruct (compare x y <=? 0); [reflexivity|].
  rewrite IH. apply perm_swap.
Qed.

Lemma Array_sort_perm {A : Type} (compare : A -> A -> Z) l :
  Permutation (Array_sort compare l) l.
Proof.
  induction l as [|x l IH]; simpl; [reflexivity|].
  rewrite Array_sort_insert_perm. now constructor.
Qed.

Section descending.

Context {A : Type} (key : A -> Z).

Let compare (a b : A) : Z := key b - key a.
Let sorted : list A -> Prop := StronglySorted (fun a b => key b <= key a).

Lemma Array_sort_insert_sorted x l :
  sorted l -> sorted (Array_sort_insert compare x l).
Proof.
  unfold sorted, compare. induction 1 as [|y l Hl IH Hy]; simpl.
  - repeat constructor.
  - destruct (Z.leb_spec (key y - key x) 0) as [Hle|Hgt].
    + constructor; [constructor; assumption|].
      constructor; [lia|].
      eapply List.Forall_impl; [|exact Hy]. simpl. intros; lia.
    + constructor; [exact IH|].
      eapply Permutation_Forall;
        [symmetry; apply Array_sort_insert_perm|].
      constructor; [lia|exact Hy].
Qed.

Lemma Array_sort_sorted l : sorted (Array_sort compare l).
Proof.
  induction l as [|x l IH]; simpl; [constructor|].
  now apply Array_sort_insert_sorted.
Qed.

(** An element more recent than all the others, put at the end, comes
    first. *)
Lemma Array_sort_newest_last x l :
  (forall y, In y l -> key y < key x) ->
  Array_sort compare (l ++ [x]) = x :: Array_sort compare l.
Proof.
  unfold compare. induction l as [|y l IH]; intros Hx; [reflexivity|].
  simpl. rewrite IH by (intros; apply Hx; now right). simpl.
  destruct (Z.leb_spec (key x - key y) 0) as [Hle|_]; [|reflexivity].
  specialize (Hx y (or_introl eq_refl)). lia.
Qed.

End descending.

Lemma other_users_no_entry name users :
  List.filter (fun u => String.eqb (SavedUser.username u) name)
    (other_users name users) = [].
Proof.
  unfold other_users. induction users as [|u users IH]; simpl; [reflexivity|].
  destruct (String.eqb (SavedUser.username u) name) eqn:E; simpl;
    [exact IH|]. now rewrite E.
Qed.

Lemma NoDup_map_filter {A B : Type} (f : A -> B) (p : A -> bool) l :
  List.NoDup (map f l) -> List.NoDup (map f (List.filter p l)).
Proof.
  induction l as [|x l IH]; simpl; intros H; [constructor|].
  inversion H as [|? ? Hx Hl]; subst.
  destruct (p x); simpl; [|now apply IH].
  constructor; [|now apply IH].
  intros Hin. apply Hx. apply in_map_iff in Hin as (y & Hy & Hin).
  apply filter_In in Hin as [Hin _]. apply in_map_iff. eauto.
Qed.

Lemma Permutation_filter {A : Type} (p : A -> bool) l l' :
  Permutation l l' -> Permutation (List.filter p l) (List.filter p l').
Proof.
  induction 1 as [|x l l' _ IH|x y l|l l' l'' _ IH1 _ IH2]; simpl.
  - constructor.
  - destruct (p x); [now constructor|exact IH].
  - destruct (p x), (p y); try reflexivity. apply perm_swap.
  - now rewrite IH1.
Qed.

Section SavedUsers_properties.

Context {S : Type}.
Context {JSON_users : JSON (list SavedUser.t)}.

(** The list [saveUser] writes: the former entries of the other users
    and one entry for the user, the most recent login first. *)
Lemma updated_users_spec user now users :
  let l := updated_users user now users in
  Permutation l (saved_at user now :: other_users (username user) users) /\
  most_recent_first l /\
  List.filter (fun u => String.eqb (SavedUser.username u) (username user)) l
    = [saved_at user now] /\
  (List.NoDup (map SavedUser.username users) ->
   List.NoDup (map SavedUser.username l)) /\
  ((forall u, In u users -> SavedUser.lastLogin u < now) ->
   exists rest, l = saved_at user now :: rest).
Proof.
  intros l.
  assert (Hp : Permutation l
                 (saved_at user now :: other_users (username user) users)).
  { unfold l, updated_users. rewrite Array_sort_perm.
    rewrite Permutation_app_comm. reflexivity. }
  split; [exact Hp|]. split; [apply (Array_sort_sorted SavedUser.lastLogin)|].
  split; [|split].
  - apply Permutation_length_1_inv. symmetry.
    rewrite (Permutation_filter _ _ _ Hp). simpl.
    rewrite String.eqb_refl, other_users_no_entry. reflexivity.
  - intros Hnd. eapply Permutation_NoDup.
    + symmetry. apply Permutation_map. exact Hp.
    + simpl. constructor; [|now apply NoDup_map_filter].
      intros Hin. apply in_map_iff in Hin as (u & Hu & Hin).
      apply filter_In in Hin as [_ Hne]. rewrite Hu, String.eqb_refl in Hne.
      discriminate Hne.
  - intros Hnew. eexists. unfold l, updated_users.
    apply (Array_sort_newest_last SavedUser.lastLogin).
    intros y Hy. apply filter_In in Hy as [Hy _]. now apply Hnew.
Qed.

Lemma getSavedUsers_exec (s : S) tr s' r :
  exec (UserManager.getSavedUsers s) tr (s', r) ->
  s' = s /\
  exists answer,
    r = inr (stored_users answer) /\
    tr = io_getItem UserManager.SAVED_USERS_KEY answer
         :: match read_failure answer with
            | Some e => [io_error "Error getting saved users:" e]
            | None => []
            end.
Proof.
  intros H. async_cases H.
  all: split; [reflexivity|];
    match goal with
    | |- exists _, _ /\ (io_getItem _ ?a :: _) = _ => exists a
    end;
    unfold stored_users, read_failure;
    repeat match goal with
           | Ht : truthy _ = _ |- _ => rewrite Ht
           | Hp : JSON_parse _ = _ |- _ => rewrite Hp
           end; split; reflexivity.
Qed.

(** X17. [getSavedUsers] never rejects. It reads [SAVED_USERS_KEY] once
    and touches nothing else. It returns the empty list when the store
    rejects the read or [JSON.parse] throws (the error is logged), and
    when the key is absent or holds the empty text (nothing is logged);
    otherwise it returns the list parsed from the text. *)
Theorem getSavedUsers_never_rejects (s : S) tr s' r :
  exec (UserManager.getSavedUsers s) tr (s', r) ->
  s' = s /\ no_network tr /\ no_store_write tr /\
  exists answer users,
    r = inr users /\
    match answer with
    | inl e =>
        users = [] /\
        tr = [io_getItem UserManager.SAVED_USERS_KEY answer;
              io_error "Error getting saved users:" e]
    | inr None =>
        users = [] /\ tr = [io_getItem UserManager.SAVED_USERS_KEY answer]
    | inr (Some text) =>
        if String.eqb text "" then
          users = [] /\ tr = [io_getItem UserManager.SAVED_USERS_KEY answer]
        else
          match JSON_parse text with
          | inl e =>
              users = [] /\
              tr = [io_getItem UserManager.SAVED_USERS_KEY answer;
                    io_error "Error getting saved users:" e]
          | inr parsed =>
              users = parsed /\
              tr = [io_getItem UserManager.SAVED_USERS_KEY answer]
          end
    end.
Proof.
  intros H. apply getSavedUsers_exec in H as (-> & answer & -> & ->).
  split; [reflexivity|].
  split; [destruct (read_failure answer); reflexivity|].
  split; [destruct (read_failure answer); reflexivity|].
  exists answer. eexists. split; [reflexivity|].
  unfold stored_users, read_failure, truthy.
  destruct answer as [e|[text|]]; auto.
  destruct (String.eqb text ""); auto.
  destruct (JSON_parse text); auto.
Qed.

Lemma saveUser_exec user (s : S) tr s' r :
  exec (UserManager.saveUser user s) tr (s', r) ->
  s' = s /\ r = inr tt /\
  exists answer now sr,
    tr = io_getItem UserManager.SAVED_USERS_KEY answer
         :: match read_failure answer with
            | Some e => [io_error "Error getting saved users:" e]
            | None => []
            end
         ++ [io_now now;
             io_setItem UserManager.SAVED_USERS_KEY
               (JSON_stringify (updated_users user now (stored_users answer)))
               sr]
         ++ match sr with
            | inl e => [io_error "Error saving user:" e]
            | inr _ => []
            end.
Proof.
  intros H. async_cases H.
  all: repeat match goal with u : unit |- _ => destruct u end.
  all: split; [reflexivity|]; split; [reflexivity|].
  all: match goal with
       | |- exists _ _ _, (io_getItem _ ?a :: ?rest) = _ =>
           exists a;
           match rest with
           | context [io_now ?t :: io_setItem _ _ ?sr :: _] => exists t, sr
           end
       end.
  all: unfold stored_users, read_failure;
    repeat match goal with
           | Ht : truthy _ = _ |- _ => rewrite Ht
           | Hp : JSON_parse _ = _ |- _ => rewrite Hp
           end; reflexivity.
Qed.

Lemma removeUser_exec name (s : S) tr s' r :
  exec (UserManager.removeUser name s) tr (s', r) ->
  s' = s /\ r = inr tt /\
  exists answer sr,
    tr = io_getItem UserManager.SAVED_USERS_KEY answer
         :: match read_failure answer with
            | Some e => [io_error "Error getting saved users:" e]
            | None => []
            end
         ++ [io_setItem UserManager.SAVED_USERS_KEY
               (JSON_stringify (other_users name (stored_users answer))) sr]
         ++ match sr with
            | inl e => [io_error "Error removing user:" e]
            | inr _ => []
            end.
Proof.
  intros H. async_cases H.
  all: repeat match goal with u : unit |- _ => destruct u end.
  all: split; [reflexivity|]; split; [reflexivity|].
  all: match goal with
       | |- exists _ _, (io_getItem _ ?a :: ?rest) = _ =>
           exists a;
           match rest with
           | context [io_setItem _ _ ?sr :: _] => exists sr
           end
       end.
  all: unfold stored_users, read_failure;
    repeat match goal with
           | Ht : truthy _ = _ |- _ => rewrite Ht
           | Hp : JSON_parse _ = _ |- _ => rewrite Hp
           end; reflexivity.
Qed.

(** What [getSavedUsers] returns on a store that works and holds what
    was written with [JSON.stringify]. *)
Lemma getSavedUsers_reads_back (s : S) tr s' r st users :
  exec (UserManager.getSavedUsers s) tr (s', r) ->
  reliable_store st tr ->
  st !! UserManager.SAVED_USERS_KEY = Some (JSON_stringify users) ->
  JSON_stringify users <> "" ->
  JSON_parse (JSON_stringify users) = inr users ->
  r = inr users.
Proof.
  intros H Hst Hk Hne Hp. apply getSavedUsers_exec in H as (_ & answer & -> & ->).
  simpl in Hst. destruct Hst as [-> _]. rewrite Hk.
  unfold stored_users, truthy.
  destruct (String.eqb_spec (JSON_stringify users) ""); [contradiction|].
  now rewrite Hp.
Qed.

(** X18. Saving a user, then reading the list. On a store that works
    and holds the list [users], and when [JSON.parse] gives back the
    list that [saveUser] writes: after [saveUser(user)],
    [getSavedUsers] returns [users] with the entries of that user name
    replaced by one entry, made of [user] and of the time of the save.
    The list is in the order of the most recent login first; it has one
    entry per user name if [users] had; and the user comes first when
    the time of the save is later than every login recorded. *)
Theorem saveUser_then_getSavedUsers user (s : S) tr s1 r st users tr2 s2 r2 :
  exec (UserManager.saveUser user s) tr (s1, r) ->
  reliable_store st tr ->
  users = stored_users (inr (st !! UserManager.SAVED_USERS_KEY)) ->
  (forall now, In (io_now now) tr ->
     JSON_stringify (updated_users user now users) <> "" /\
     JSON_parse (JSON_stringify (updated_users user now users))
       = inr (updated_users user now users)) ->
  exec (UserManager.getSavedUsers s1) tr2 (s2, r2) ->
  reliable_store (store_after st tr) tr2 ->
  r = inr tt /\
  exists now l,
    In (io_now now) tr /\ r2 = inr l /\
    Permutation l (saved_at user now :: other_users (username user) users) /\
    most_recent_first l /\
    List.filter (fun u => String.eqb (SavedUser.username u) (username user)) l
      = [saved_at user now] /\
    (List.NoDup (map SavedUser.username users) ->
     List.NoDup (map SavedUser.username l)) /\
    ((forall u, In u users -> SavedUser.lastLogin u < now) ->
     exists rest, l = saved_at user now :: rest).
Proof.
  intros H Hst -> Hjson H2 Hst2.
  apply saveUser_exec in H as (-> & -> & answer & now & sr & ->).
  split; [reflexivity|].
  simpl in Hst. destruct Hst as [-> Hst].
  set (l := updated_users _ _ _) in *.
  assert (Hnow : In (io_now now)
            (io_getItem UserManager.SAVED_USERS_KEY
               (inr (st !! UserManager.SAVED_USERS_KEY))
             :: match read_failure (inr (st !! UserManager.SAVED_USERS_KEY)) with
                | Some e => [io_error "Error getting saved users:" e]
                | None => []
                end
             ++ [io_now now; io_setItem UserManager.SAVED_USERS_KEY
                               (JSON_stringify l) sr]
             ++ match sr with
                | inl e => [io_error "Error saving user:" e]
                | inr _ => []
                end)).
  { destruct (read_failure _); simpl; auto. }
  assert (Hafter : store_after st
            (io_getItem UserManager.SAVED_USERS_KEY
               (inr (st !! UserManager.SAVED_USERS_KEY))
             :: match read_failure (inr (st !! UserManager.SAVED_USERS_KEY)) with
                | Some e => [io_error "Error getting saved users:" e]
                | None => []
                end
             ++ [io_now now; io_setItem UserManager.SAVED_USERS_KEY
                               (JSON_stringify l) sr]
             ++ match sr with
                | inl e => [io_error "Error saving user:" e]
                | inr _ => []
                end) !! UserManager.SAVED_USERS_KEY
          = Some (JSON_stringify l)).
  { destruct (read_failure _); simpl in Hst |- *; destruct Hst as [-> _];
      simpl; apply lookup_insert_eq. }
  destruct (Hjson now Hnow) as [Hne Hp].
  pose proof (getSavedUsers_reads_back _ _ _ _ _ _ H2 Hst2 Hafter Hne Hp) as ->.
  exists now, l. split; [exact Hnow|].
  split; [reflexivity|]. apply updated_users_spec.
Qed.

(** X19. Saving a user when the list cannot be read. If the store
    rejects the read of the list, or the text under the key does not
    parse, [saveUser] logs the error, takes the list to be empty, and
    writes a list holding the saved user alone: the text that was under
    the key is replaced. *)
Theorem saveUser_after_a_failed_read user (s : S) tr s' r answer e :
  exec (UserManager.saveUser user s) tr (s', r) ->
  In (io_getItem UserManager.SAVED_USERS_KEY answer) tr ->
  read_failure answer = Some e ->
  r = inr tt /\
  In (io_error "Error getting saved users:" e) tr /\
  exists now sr,
    In (io_now now) tr /\
    In (io_setItem UserManager.SAVED_USERS_KEY
          (JSON_stringify [saved_at user now]) sr) tr.
Proof.
  intros H Hin Hf.
  apply saveUser_exec in H as (-> & -> & answer' & now & sr & ->).
  assert (answer' = answer) as ->.
  { destruct Hin as [Hin|Hin]; [now inversion Hin|].
    exfalso. destruct (read_failure answer'), sr; in_cases Hin. }
  split; [reflexivity|]. rewrite Hf. split; [in_trace|].
  exists now, sr.
  assert (stored_users answer = []) as ->.
  { unfold stored_users, read_failure in *.
    destruct answer as [?|data]; [reflexivity|].
    destruct (truthy data); [|reflexivity].
    destruct (JSON_parse s0); [reflexivity|discriminate Hf]. }
  split; in_trace.
Qed.

(** X20. Removing a user, then reading the list. On a store that works
    and holds the list [users], and when [JSON.parse] gives back the
    list that [removeUser] writes: after [removeUser(name)],
    [getSavedUsers] returns [users] without the entries of that user
    name, the others in their former order. *)
Theorem removeUser_then_getSavedUsers name (s : S) tr s1 r st users tr2 s2 r2 :
  exec (UserManager.removeUser name s) tr (s1, r) ->
  reliable_store st tr ->
  users = stored_users (inr (st !! UserManager.SAVED_USERS_KEY)) ->
  JSON_stringify (other_users name users) <> "" ->
  JSON_parse (JSON_stringify (other_users name users))
    = inr (other_users name users) ->
  exec (UserManager.getSavedUsers s1) tr2 (s2, r2) ->
  reliable_store (store_after st tr) tr2 ->
  r = inr tt /\
  r2 = inr (List.filter
              (fun u => negb (String.eqb (SavedUser.username u) name)) users) /\
  forall l, r2 = inr l ->
    (forall u, In u l -> SavedUser.username u <> name) /\
    (forall u, In u users -> SavedUser.username u <> name -> In u l).
Proof.
  intros H Hst -> Hne Hp H2 Hst2.
  apply removeUser_exec in H as (-> & -> & answer & sr & ->).
  split; [reflexivity|].
  simpl in Hst. destruct Hst as [-> Hst].
  set (l := other_users name _) in *.
  assert (Hafter : store_after st
            (io_getItem UserManager.SAVED_USERS_KEY
               (inr (st !! UserManager.SAVED_USERS_KEY))
             :: match read_failure (inr (st !! UserManager.SAVED_USERS_KEY)) with
                | Some e => [io_error "Error getting saved users:" e]
                | None => []
                end
             ++ [io_setItem UserManager.SAVED_USERS_KEY (JSON_stringify l) sr]
             ++ match sr with
                | inl e => [io_error "Error removing user:" e]
                | inr _ => []
                end) !! UserManager.SAVED_USERS_KEY
          = Some (JSON_stringify l)).
  { destruct (read_failure _); simpl in Hst |- *; destruct Hst as [-> _];
      simpl; apply lookup_insert_eq. }
  pose proof (getSavedUsers_reads_back _ _ _ _ _ _ H2 Hst2 Hafter Hne Hp) as ->.
  split; [reflexivity|]. intros l' Hl'. inversion Hl'; subst l'. split.
  - intros u Hu. apply filter_In in Hu as [_ Hu].
    intros Heq. rewrite Heq, String.eqb_refl in Hu. discriminate Hu.
  - intros u Hu Hne'. apply filter_In. split; [exact Hu|].
    apply negb_true_iff, String.eqb_neq. exact Hne'.
Qed.

(** X21. Clearing the list, then reading it. [clearAllUsers] never
    rejects: a rejection of the removal is logged. On a store that
    works, the key is absent afterwards and [getSavedUsers] returns the
    empty list without logging anything. *)
Theorem clearAllUsers_then_getSavedUsers (s : S) tr s1 r :
  exec (UserManager.clearAllUsers s) tr (s1, r) ->
  r = inr tt /\ s1 = s /\
  (forall e, In (io_removeItem UserManager.SAVED_USERS_KEY (inl e)) tr ->
             In (io_error "Error clearing users:" e) tr) /\
  forall st tr2 s2 r2,
    reliable_store st tr ->
    exec (UserManager.getSavedUsers s1) tr2 (s2, r2) ->
    reliable_store (store_after st tr) tr2 ->
    store_after st tr !! UserManager.SAVED_USERS_KEY = None /\
    r2 = inr [] /\
    tr2 = [io_getItem UserManager.SAVED_USERS_KEY (inr None)].
Proof.
  intros H. async_cases H.
  all: repeat match goal with u : unit |- _ => destruct u end.
  - split; [reflexivity|]. split; [reflexivity|].
    split; [intros e Hin; in_cases Hin; in_trace|].
    intros st tr2 s2 r2 [Hst _]. discriminate Hst.
  - split; [reflexivity|]. split; [reflexivity|].
    split; [intros e Hin; in_cases Hin|].
    intros st tr2 s2 r2 _ H2 Hst2.
    split; [apply lookup_delete_eq|].
    apply getSavedUsers_exec in H2 as (_ & answer & -> & ->).
    simpl in Hst2. destruct Hst2 as [-> _].
    rewrite lookup_delete_eq. auto.
Qed.

End SavedUsers_properties.

(** ** The authentication context *)

Section AuthContext_properties.

Context {JSON_auth : JSON StoredAuth.t}.
Context {JSON_users : JSON (list SavedUser.t)}.


(** X23. [logout] of the authentication context never rejects and always
    ends with [isLoading = false]; the session and the cache slots of
    [xtreamApi] are cleared in any case. If the logout of [xtreamApi]
    resolves, the context is logged out and has navigated to
    ['/(auth)']. If it rejects, because the store rejected the removal
    of one of the five fixed keys, the error is logged and the context
    is left as it was: it still says logged in if it did, over an
    [xtreamApi] that has no session, and no navigation is made. *)
Theorem AuthContext_logout_outcome app tr app' r :
  exec (AuthContext.logout app) tr (app', r) ->
  let before := AuthContext.state app in
  let after := AuthContext.state app' in
  r = inr tt /\
  AuthContext.State.isLoading after = false /\
  session (AuthContext.xtreamApi app') = false /\
  (forall ty, entry ty (AuthContext.xtreamApi app') = None) /\
  (((forall k e, In k logout_keys -> ~ In (io_removeItem k (inl e)) tr) /\
    AuthContext.State.isLoggedIn after = false /\
    AuthContext.State.authData after = None /\
    AuthContext.replaced app' = "/(auth)" :: AuthContext.replaced app) \/
   (exists k e,
      In k logout_keys /\
      In (io_removeItem k (inl e)) tr /\
      In (io_error "Logout error:" e) tr /\
      AuthContext.State.isLoggedIn after = AuthContext.State.isLoggedIn before /\
      AuthContext.State.authData after = AuthContext.State.authData before /\
      AuthContext.replaced app' = AuthContext.replaced app)).
Proof.
  intros H. destruct app as [[c a vc vcc sc scc] [ld li er ad] rep].
  async_go H.
  all: repeat match goal with u : unit |- _ => destruct u end.
  all: cbv zeta.
  all: split; [reflexivity|]; split; [reflexivity|]; split; [reflexivity|].
  all: split; [intros []; reflexivity|].
  all: try solve [right; do 2 eexists; split; [|split; [in_trace|]];
                  [|split; [in_trace|repeat split]]; in_trace].
  all: left; split; [|repeat split].
  all: intros k e Hk Hin; in_cases Hin; clear -Hk;
    repeat (destruct Hk as [Hk|Hk]; [key_clash Hk|]);
    destruct Hk.
Qed.

End AuthContext_properties.

(** ** The claims on the sample runs *)

Import Sample.

#[local] Existing Instance JSON_auth_ref.
#[local] Existing Instance JSON_vod_ref.
#[local] Existing Instance JSON_series_ref.
#[local] Existing Instance JSON_categories_ref.

(** The movies of category 5, asked for again a millisecond later, come
    from the cache. *)
Lemma cache_hit_skips_fetch_witness :
  no_network (calls movies_5_again) /\
  snd (outcome movies_5_again) = inr [heat] /\
  fst (outcome movies_5_again) = api_b /\
  exists e, entry VOD_STREAMS api_b = Some e /\ data e = [heat].
Proof.
  apply (cache_hit_skips_fetch VOD_STREAMS (Some "5") api_a
           (calls movies_5) api_b [heat]
           (calls movies_5_again) (fst (outcome movies_5_again))
           (snd (outcome movies_5_again))).
  - exact (run_exec platform (fetchCatalog VOD_STREAMS (Some "5") api_a)
                     (world_after logged_in)).
  - exact (run_exec platform (fetchCatalog VOD_STREAMS (Some "5") api_b)
                     (world_after movies_5)).
  - intros e now He Hin. vm_compute in He. inversion He; subst e.
    vm_compute in Hin. destruct Hin as [Hin|[Hin|[]]]; [|discriminate Hin].
    inversion Hin; subst now. vm_compute. reflexivity.
Defined.

(** Category 6 after category 5: the remote service is called, the slot
    holds the movies of category 6, and category 5 has to be fetched
    again. *)
Lemma filter_mismatch_replaces_entry_witness :
  calls_network (calls movies_6) /\
  (exists now, entry VOD_STREAMS (fst (outcome movies_6)) =
                 Some {| data := [heat]; timestamp := now;
                         categoryId := Some "6" |}) /\
  calls_network (calls movies_5_after_6).
Proof.
  destruct (filter_mismatch_replaces_entry VOD_STREAMS (Some "6") api_c
              movies_entry (calls movies_6) (fst (outcome movies_6))
              (snd (outcome movies_6)) eq_refl eq_refl eq_refl
              ltac:(discriminate)
              (run_exec platform (fetchCatalog VOD_STREAMS (Some "6") api_c)
                        world_c))
    as (Hn & _ & Hrep).
  destruct (Hrep [heat] eq_refl) as (He & _ & Hagain).
  split; [exact Hn|]. split; [exact He|].
  exact (Hagain _ _ _
           (run_exec platform
              (fetchCatalog VOD_STREAMS (Some "5") (fst (outcome movies_6)))
              (world_after movies_6))).
Defined.


(** The next day, the server out of reach: the error of the transport
    reaches the caller, and the stale entry stays where it is. *)
Lemma fetch_failure_propagates_witness :
  snd (outcome movies_5_offline) = inl network_error /\
  fst (outcome movies_5_offline) = api_c /\
  entry VOD_STREAMS (fst (outcome movies_5_offline)) = Some movies_entry /\
  no_store_write (calls movies_5_offline).
Proof.
  apply (fetch_failure_propagates VOD_STREAMS (Some "5") api_c
           (calls movies_5_offline) (fst (outcome movies_5_offline))
           (snd (outcome movies_5_offline)) network_error).
  - exact (run_exec platform (fetchCatalog VOD_STREAMS (Some "5") api_c)
                     (with_server server_down (later CACHE_EXPIRY_TIME world_c))).
  - vm_compute. exists_in_trace.
Defined.

(** Without credentials the valid entry of the movies is not served. *)
Lemma auth_gate_precedes_cache_witness :
  entry VOD_STREAMS signed_out_warm = Some movies_entry /\
  snd (outcome movies_5_signed_out) =
    inl (Error "Not authenticated. Please login first.") /\
  calls movies_5_signed_out = [] /\
  fst (outcome movies_5_signed_out) = signed_out_warm.
Proof.
  split; [reflexivity|].
  apply (auth_gate_precedes_cache VOD_STREAMS (Some "5") signed_out_warm).
  - left. reflexivity.
  - exact (run_exec platform (fetchCatalog VOD_STREAMS (Some "5") signed_out_warm)
                     world_c).
Defined.

(** C5, as stated, fails: with a session and every request answered,
    [clearCache] requests no categories. *)
Lemma clearCache_rewarms_all_four_refuted :
  ~ (forall tr this' r,
       exec (clearCache api_c) tr (this', r) ->
       session api_c = true ->
       Exists (fun c => requested TCategories c = true) tr).
Proof.
  intros Hclaim.
  assert (Hs : session api_c = true) by (vm_compute; reflexivity).
  pose proof (Hclaim _ _ _ (run_outcome platform (clearCache api_c) world_c) Hs)
    as Hreq.
  vm_compute in Hreq. exists_cases Hreq.
Qed.

(** The requests for series being rejected, [clearCache] resolves, the
    movies are warm, the series and the categories are not, and the
    rejection is logged. *)
Lemma clearCache_rewarms_streams_only_witness :
  snd (outcome cleared_without_series) = inr tt /\
  (exists now, entry VOD_STREAMS (fst (outcome cleared_without_series)) =
                 Some {| data := [heat]; timestamp := now; categoryId := None |}) /\
  entry SERIES (fst (outcome cleared_without_series)) = None /\
  entry VOD_CATEGORIES (fst (outcome cleared_without_series)) = None /\
  entry SERIES_CATEGORIES (fst (outcome cleared_without_series)) = None /\
  exists msg, In (io_error msg network_error) (calls cleared_without_series).
Proof.
  destruct (clearCache_rewarms_streams_only api_c (calls cleared_without_series)
              (fst (outcome cleared_without_series))
              (snd (outcome cleared_without_series))
              (run_exec platform (clearCache api_c)
                        (with_server server_without_series world_c)))
    as (Hr & _ & Hvc & Hsc & _ & _ & Hnone & _ & Hwarm).
  - intros e He. vm_compute in He. exists_cases He.
  - destruct (Hwarm eq_refl) as (_ & _ & _ & Hlog & Hmovies & _).
    split; [exact Hr|].
    split; [apply Hmovies; vm_compute; exists_in_trace|].
    split; [apply Hnone; intros d Hd; vm_compute in Hd; exists_cases Hd|].
    split; [exact Hvc|]. split; [exact Hsc|].
    apply Hlog. vm_compute. exists_in_trace.
Defined.

(** C6, as stated, fails: the text of the series is read and parses, yet
    the series are not restored, because the text of the movies, which
    is read first, does not parse. *)
Lemma loadCaches_isolation_refuted :
  ~ (forall tr this' r,
       exec (loadCaches fields_init) tr (this', r) ->
       forall ty s e,
         In (io_getItem (cache_key ty) (inr (Some s))) tr ->
         parse_entry ty s = inr e ->
         entry ty this' = Some e).
Proof.
  intros Hclaim.
  assert (H : entry SERIES (fst (outcome loaded_damaged)) = Some series_entry).
  { apply (Hclaim _ _ _ (run_exec platform (loadCaches fields_init) damaged)
                  SERIES (stringify_entry SERIES series_entry) series_entry).
    - vm_compute. in_trace.
    - vm_compute. reflexivity. }
  vm_compute in H. discriminate H.
Qed.

(** Over the store the first session left, [loadCaches] restores the
    movies and the series. *)
Lemma loadCaches_restores_in_order_witness :
  snd (outcome loaded) = inr tt /\
  entry VOD_STREAMS (fst (outcome loaded)) = Some movies_entry /\
  entry SERIES (fst (outcome loaded)) = Some series_entry.
Proof.
  destruct (loadCaches_restores_in_order fields_init (calls loaded)
              (fst (outcome loaded)) (snd (outcome loaded))
              (run_outcome platform (loadCaches fields_init) world_c))
    as (Hr & _ & _ & Hord).
  assert (Hok : forall e, ~ Exists (read_rejected e) (calls loaded)).
  { intros e He. vm_compute in He. exists_cases He. }
  assert (Hm : In (io_getItem (cache_key VOD_STREAMS)
                     (inr (Some (stringify_entry VOD_STREAMS movies_entry))))
                  (calls loaded)) by (vm_compute; in_trace).
  assert (Hs : In (io_getItem (cache_key SERIES)
                     (inr (Some (stringify_entry SERIES series_entry))))
                  (calls loaded)) by (vm_compute; in_trace).
  split; [exact Hr|]. split.
  - assert (H := Hord Hok VOD_STREAMS _ Hm).
    assert (H' := H (fun ty' s' Hlt _ =>
                       ltac:(destruct ty'; vm_compute in Hlt; lia))).
    vm_compute in H'. vm_compute. exact H'.
  - assert (H := Hord Hok SERIES _ Hs).
    assert (Hpre : forall ty' s', (load_order ty' < load_order SERIES)%nat ->
                     In (io_getItem (cache_key ty') (inr s')) (calls loaded) ->
                     parses ty' s').
    { intros ty' s' Hlt Hin. destruct ty'; try (vm_compute in Hlt; lia);
        vm_compute in Hin;
        destruct Hin as [Hin|[Hin|[Hin|[Hin|[]]]]]; try discriminate Hin;
        injection Hin as <-; vm_compute; try exact I; eexists; reflexivity. }
    assert (H' := H Hpre). vm_compute in H'. vm_compute. exact H'.
Defined.

(** C7, as stated, fails: the store rejecting the removal of the key of
    the movies, [clearCache] throws the error of the store to its
    caller. *)
Lemma store_failure_reaches_caller :
  ~ (forall tr this' r e,
       exec (clearCache api_c) tr (this', r) ->
       Exists (store_rejected e) tr ->
       r <> inl e).
Proof.
  intros Hclaim.
  apply (Hclaim _ _ _ store_error
           (run_outcome platform (clearCache api_c)
                        (with_broken (String.eqb VOD_CACHE_KEY) world_c))).
  - vm_compute. exists_in_trace.
  - vm_compute. reflexivity.
Qed.

(** The store rejecting the write of the movies of category 6, the
    fetch returns them all the same, the slot holds them, and the
    failure is logged; the store rejecting a removal, [clearCache]
    throws, the slots being cleared. *)
Lemma store_failures_contained_witness :
  snd (outcome movies_6_on_broken_store) = inr [heat] /\
  In (io_error "Failed to save VOD cache:" store_error)
     (calls movies_6_on_broken_store) /\
  snd (outcome cleared_on_broken_store) = inl store_error /\
  forall ty, entry ty (fst (outcome cleared_on_broken_store)) = None.
Proof.
  destruct store_failures_contained as (Hsave & _ & Hclear & _).
  destruct (Hsave VOD_STREAMS (Some "6") api_c (calls movies_6_on_broken_store)
              (fst (outcome movies_6_on_broken_store))
              (snd (outcome movies_6_on_broken_store)) store_error
              (run_outcome platform (fetchCatalog VOD_STREAMS (Some "6") api_c)
                           (with_broken (String.eqb VOD_CACHE_KEY) world_c)))
    as (Hlog & en & Hen & Hr).
  { vm_compute. exists_in_trace. }
  destruct (Hclear api_c (calls cleared_on_broken_store)
              (fst (outcome cleared_on_broken_store))
              (snd (outcome cleared_on_broken_store)) store_error
              (run_outcome platform (clearCache api_c)
                           (with_broken (String.eqb VOD_CACHE_KEY) world_c)))
    as (_ & Hthrown & Hcleared).
  { vm_compute. exists_in_trace. }
  split; [vm_compute; reflexivity|]. split; [exact Hlog|].
  split; [exact Hthrown|exact Hcleared].
Defined.


(** C9, as stated, fails: right after [logout] a fetch performs no
    network fetch, it is refused. *)
Lemma logout_then_fetch_refuted :
  ~ (forall tr this' r,
       exec (logout api_c) tr (this', r) ->
       forall ty filter tr2 this2 r2,
         exec (fetchCatalog ty filter this') tr2 (this2, r2) ->
         calls_network tr2).
Proof.
  intros Hclaim.
  pose proof (Hclaim _ _ _ (run_outcome platform (logout api_c) world_c)
                VOD_STREAMS None _ _ _
                (run_outcome platform (fetchCatalog VOD_STREAMS None api_e)
                             (world_after logged_out))) as H.
  vm_compute in H. discriminate H.
Qed.

(** After the logout of the first session nothing is cached, in memory
    or in the store; a fetch is refused; after a new login the movies
    are fetched from the remote service. *)
Lemma logout_clears_everything_witness :
  credentials api_e = None /\
  (forall ty, entry ty api_e = None) /\
  (forall ty, store_after (storage world_c) (calls logged_out) !! cache_key ty
              = None) /\
  snd (outcome movies_after_logout) = inl not_authenticated /\
  calls_network (calls movies_after_login).
Proof.
  destruct (logout_clears_everything api_c (calls logged_out) api_e
              (snd (outcome logged_out))
              (run_outcome platform (logout api_c) world_c))
    as ((Hc & _ & He) & Hstore & Hrefused & Hlogin).
  destruct (Hstore (storage world_c)) as (_ & _ & Hkeys).
  { vm_compute. repeat split. }
  destruct (Hrefused VOD_STREAMS None (calls movies_after_logout)
              (fst (outcome movies_after_logout))
              (snd (outcome movies_after_logout))
              (run_outcome platform (fetchCatalog VOD_STREAMS None api_e)
                           (world_after logged_out)))
    as (Hr & _).
  assert (Hl : snd (outcome logged_in_again) = inr alice_auth)
    by (vm_compute; reflexivity).
  assert (Hx : exec (login alice api_e) (calls logged_in_again)
                    (fst (outcome logged_in_again), inr alice_auth)).
  { rewrite <- Hl. apply run_outcome. }
  split; [exact Hc|]. split; [exact He|]. split; [exact Hkeys|].
  split; [exact Hr|].
  exact (Hlogin alice _ _ _ Hx VOD_STREAMS None _ _ _
           (run_outcome platform
              (fetchCatalog VOD_STREAMS None (fst (outcome logged_in_again)))
              (world_after logged_in_again))).
Defined.

(** ** The further properties on the sample runs *)

Import Scenario.

#[local] Existing Instance JSON_users_ref.
#[local] Existing Instance StringPrototype_ref.

(** The server URL as typed, cleaned. *)
Lemma strip_trailing_slashes_spec_witness :
  strip_trailing_slashes "http://tv.example//" = "http://tv.example" /\
  forall t, strip_trailing_slashes "http://tv.example//" <> t +:+ "/".
Proof.
  split; [reflexivity|].
  exact (proj1 (proj2 (strip_trailing_slashes_spec "http://tv.example//"))).
Defined.

(** The two slashes typed after the server URL are not in the session,
    and the request went to the cleaned URL. *)
Lemma login_stores_cleaned_credentials_witness :
  credentials api_t = Some alice /\
  authData api_t = Some alice_auth /\
  exists sr,
    calls logged_in_typed =
      io_axios TAuth "http://tv.example/player_api.php"
        [("username", "alice"); ("password", "secret")] (inr alice_auth)
      :: io_setItem AUTH_STORAGE_KEY (JSON_stringify (stored_auth api_t)) sr
      :: match sr with
         | inl e => [io_error "Failed to save auth data:" e]
         | inr _ => []
         end.
Proof.
  assert (Hr : snd (outcome logged_in_typed) = inr alice_auth)
    by (vm_compute; reflexivity).
  assert (Hx : exec (login alice_typed fields_init) (calls logged_in_typed)
                    (api_t, inr alice_auth)).
  { rewrite <- Hr. apply run_outcome. }
  destruct (login_stores_cleaned_credentials _ _ _ _ _ Hx)
    as (_ & Hc & Ha & _ & Htr).
  split; [exact Hc|]. split; [exact Ha|exact Htr].
Defined.

(** A login that the server refuses, in the middle of the first
    session: the session of [alice] is still there. *)
Lemma login_failure_changes_nothing_witness :
  fst (outcome login_refused) = api_c /\
  no_store_write (calls login_refused) /\
  snd (outcome login_refused) = inl authentication_failed.
Proof.
  assert (Hr : snd (outcome login_refused) = inl authentication_failed)
    by (vm_compute; reflexivity).
  assert (Hx : exec (login bob api_c) (calls login_refused)
                    (fst (outcome login_refused), inl authentication_failed)).
  { rewrite <- Hr. apply run_outcome. }
  destruct (login_failure_changes_nothing _ _ _ _ _ Hx) as (Hs & Hw & _).
  split; [exact Hs|]. split; [exact Hw|exact Hr].
Defined.

(** A new instance right after the first login has the session of
    [alice]. *)
Lemma login_survives_restart_witness :
  credentials (outcome restarted_session) = Some alice /\
  authData (outcome restarted_session) = Some alice_auth /\
  session (outcome restarted_session) = true /\
  no_network (calls restarted_session).
Proof.
  assert (Hr : snd (outcome logged_in) = inr alice_auth)
    by (vm_compute; reflexivity).
  assert (Hx : exec (login alice fields_init) (calls logged_in)
                    (api_a, inr alice_auth)).
  { rewrite <- Hr. apply run_outcome. }
  destruct (login_survives_restart alice fields_init (calls logged_in) api_a
              alice_auth ∅ (calls restarted_session)
              (outcome restarted_session) Hx)
    as (Hc & Ha & Hs & Hn).
  - vm_compute. repeat split.
  - vm_compute. discriminate.
  - vm_compute. reflexivity.
  - apply run_exec.
  - vm_compute. repeat split.
  - split; [rewrite Hc; vm_compute; reflexivity|].
    split; [exact Ha|]. split; [exact Hs|exact Hn].
Defined.

(** Another user logs in on the object of the first session and is
    served the series cached for [alice]. *)
Lemma login_keeps_the_cache_witness :
  entry SERIES (fst (outcome logged_in_bob)) = Some series_entry /\
  no_network (calls series_of_bob) /\
  snd (outcome series_of_bob) = inr [dark].
Proof.
  assert (Hr : snd (outcome logged_in_bob) = inr alice_auth)
    by (vm_compute; reflexivity).
  assert (Hx : exec (login bob api_c) (calls logged_in_bob)
                    (fst (outcome logged_in_bob), inr alice_auth)).
  { rewrite <- Hr. apply run_outcome. }
  apply (login_keeps_the_cache bob api_c (calls logged_in_bob)
           (fst (outcome logged_in_bob)) alice_auth SERIES series_entry None
           (calls series_of_bob) (fst (outcome series_of_bob))
           (snd (outcome series_of_bob)) Hx).
  - vm_compute. reflexivity.
  - reflexivity.
  - apply run_outcome.
  - intros now Hin. vm_compute in Hin.
    destruct Hin as [Hin|[Hin|[]]]; [|discriminate Hin].
    injection Hin as <-. vm_compute. reflexivity.
Defined.

(** In the first session the three tests say yes. *)
Lemma session_tests_agree_witness :
  snd (outcome asked_isLoggedIn) = inr true /\
  getUserInfo api_c <> None /\
  forall info, getUserInfo api_c = Some info ->
    exists c, credentials api_c = Some c /\
              UserSummary.username info = username c.
Proof.
  destruct (session_tests_agree api_c (calls asked_isLoggedIn)
              (fst (outcome asked_isLoggedIn)) (snd (outcome asked_isLoggedIn))
              (run_outcome platform (isLoggedIn api_c) world_c))
    as (_ & _ & Hr & Hinfo & _ & Hname).
  split; [rewrite Hr; vm_compute; reflexivity|].
  split; [apply Hinfo; vm_compute; reflexivity|exact Hname].
Defined.

(** The store rejects the removal of the series: [logout] rejects, and
    the key of the series categories is not removed; the session is
    gone all the same. *)
Lemma logout_stops_at_a_rejected_removal_witness :
  session (fst (outcome logout_on_broken_store)) = false /\
  snd (outcome logout_on_broken_store) = inl store_error /\
  last (calls logout_on_broken_store) =
    Some (io_removeItem SERIES_CACHE_KEY (inl store_error)).
Proof.
  destruct (logout_stops_at_a_rejected_removal api_c
              (calls logout_on_broken_store)
              (fst (outcome logout_on_broken_store))
              (snd (outcome logout_on_broken_store))
              SERIES_CACHE_KEY store_error
              (run_outcome platform (logout api_c)
                 (with_broken (String.eqb SERIES_CACHE_KEY) world_c)))
    as (Hs & _ & [(_ & Hr & Hl & _)|(u & _ & _ & Hr & _)]).
  - vm_compute. in_trace.
  - split; [exact Hs|]. split; [exact Hr|exact Hl].
  - vm_compute in Hr. discriminate Hr.
Defined.

(** The logout of the first session removes the key of the favorites
    and the three keys of the parental control of [alice]. *)
Lemma logout_removes_the_keys_of_the_user_witness :
  snd (outcome favorites_key) = inr "huluxtream_favorites_alice" /\
  removals (calls logged_out) =
    logout_keys ++ ["huluxtream_favorites_alice";
                    "alice_huluxtream_parental_control_enabled";
                    "alice_huluxtream_parental_control_pin";
                    "alice_huluxtream_restricted_categories"].
Proof.
  destruct (logout_removes_the_keys_of_the_user api_c
              (calls logged_out) (fst (outcome logged_out))
              (snd (outcome logged_out))
              (calls favorites_key) (fst (outcome favorites_key))
              (snd (outcome favorites_key))
              (calls parental_keys) (fst (outcome parental_keys))
              (snd (outcome parental_keys))
              (run_outcome platform (logout api_c) world_c))
    as (_ & _ & _ & fav & keys & Hfav & Hkeys & Hrem).
  - intros k e Hin. vm_compute in Hin.
    repeat (destruct Hin as [Hin|Hin]; [discriminate Hin|]). exact Hin.
  - apply run_outcome.
  - apply run_outcome.
  - split; vm_compute; reflexivity.
Defined.

(** The live channels of category 1 and the live categories, in the
    first session: one request each. *)
Lemma live_content_is_never_cached_witness :
  calls live_1 =
    [io_axios TChannels "http://tv.example/player_api.php"
       [("username", "alice"); ("password", "secret");
        ("action", "get_live_streams"); ("category_id", "1")]
       (snd (outcome live_1))] /\
  fst (outcome live_categories) = api_c /\
  snd (outcome live_categories) = inr [Category.with_type live drama].
Proof.
  destruct (live_content_is_never_cached api_c alice) as [Hstreams Hcats].
  - vm_compute. reflexivity.
  - vm_compute. reflexivity.
  - destruct (Hstreams (Some "1") (calls live_1) (fst (outcome live_1))
                (snd (outcome live_1))
                (run_outcome platform (getLiveStreams (Some "1") api_c) world_c))
      as [_ Htr].
    destruct (Hcats (calls live_categories) (fst (outcome live_categories))
                (snd (outcome live_categories))
                (run_outcome platform (getLiveCategories api_c) world_c))
      as [Hthis _].
    split; [exact Htr|]. split; [exact Hthis|vm_compute; reflexivity].
Defined.

(** The request for the movies of category 6. *)
Lemma fetch_request_contract_witness :
  (network_calls (calls movies_6) <= 1)%nat /\
  exists answer,
    In (io_axios TMovies "http://tv.example/player_api.php"
          [("username", "alice"); ("password", "secret");
           ("action", "get_vod_streams"); ("category_id", "6")] answer)
       (calls movies_6).
Proof.
  destruct (fetch_request_contract VOD_STREAMS (Some "6") api_c
              (calls movies_6) (fst (outcome movies_6)) (snd (outcome movies_6))
              (run_outcome platform (fetchCatalog VOD_STREAMS (Some "6") api_c)
                 world_c))
    as [Hn _].
  split; [exact Hn|]. eexists. vm_compute. right. right. left. reflexivity.
Defined.

(** The movies under the empty filter, then the whole catalog: two
    requests with the same parameters. *)
Lemma empty_filter_is_cached_apart_witness :
  (exists e, entry VOD_STREAMS (fst (outcome movies_empty_filter)) = Some e /\
             categoryId e = Some "" /\ data e = [heat]) /\
  calls_network (calls movies_all_after_empty).
Proof.
  assert (Hr : snd (outcome movies_empty_filter) = inr [heat])
    by (vm_compute; reflexivity).
  assert (Hx : exec (fetchCatalog VOD_STREAMS (Some "") api_a)
                    (calls movies_empty_filter)
                    (fst (outcome movies_empty_filter), inr [heat])).
  { rewrite <- Hr. apply run_outcome. }
  destruct (empty_filter_is_cached_apart VOD_STREAMS api_a
              (calls movies_empty_filter) (fst (outcome movies_empty_filter))
              [heat] eq_refl Hx)
    as (_ & He & Hagain).
  - vm_compute. reflexivity.
  - split; [exact He|].
    apply (Hagain (calls movies_all_after_empty)
             (fst (outcome movies_all_after_empty))
             (snd (outcome movies_all_after_empty))).
    apply run_outcome.
Defined.

(** The categories of the movies, fetched in the first session, are
    marked as such. *)
Lemma categories_are_tagged_witness :
  snd (outcome movie_categories) = inr [Category.with_type movie drama] /\
  exists e, vodCategoriesCache (fst (outcome movie_categories)) = Some e /\
            data e = [Category.with_type movie drama].
Proof.
  assert (Hr : snd (outcome movie_categories) =
               inr [Category.with_type movie drama])
    by (vm_compute; reflexivity).
  assert (Hx : exec (getVodCategories api_c) (calls movie_categories)
                    (fst (outcome movie_categories),
                     inr [Category.with_type movie drama])).
  { rewrite <- Hr. apply run_outcome. }
  destruct (proj1 categories_are_tagged api_c (calls movie_categories)
              (fst (outcome movie_categories))
              [Category.with_type movie drama] Hx)
    as (_ & _ & _ & e & _ & _ & He & Hd & _).
  - vm_compute. reflexivity.
  - split; [exact Hr|]. exists e. split; [exact He|exact Hd].
Defined.


(** A search for 'HEA' on a server with two movies finds 'Heat' and
    leaves both movies in the cache; a search for 'lie' right after
    finds 'Alien' there. *)
Lemma search_selects_from_the_cached_catalog_witness :
  snd (outcome search_heat) = inr [heat] /\
  (exists e, vodCache (fst (outcome search_heat)) = Some e /\
             categoryId e = None) /\
  no_network (calls search_alien) /\
  snd (outcome search_alien) = inr [alien].
Proof.
  assert (Hr : snd (outcome search_heat) = inr [heat])
    by (vm_compute; reflexivity).
  assert (Hx : exec (searchVodStreams "HEA" api_c) (calls search_heat)
                    (fst (outcome search_heat), inr [heat])).
  { rewrite <- Hr. apply run_outcome. }
  destruct (proj1 search_selects_from_the_cached_catalog "HEA" api_c
              (calls search_heat) (fst (outcome search_heat)) [heat] Hx)
    as (e & He & Hf & _ & Hnext).
  destruct (Hnext "lie" (calls search_alien) (fst (outcome search_alien))
              (snd (outcome search_alien))
              (run_outcome platform
                 (searchVodStreams "lie" (fst (outcome search_heat)))
                 (world_after search_heat)))
    as (Hn & _ & _).
  { intros now Hin. vm_compute in Hin.
    destruct Hin as [Hin|[Hin|[]]]; [|discriminate Hin].
    injection Hin as <-. vm_compute in He. injection He as <-.
    vm_compute. reflexivity. }
  split; [exact Hr|]. split; [exists e; split; [exact He|exact Hf]|].
  split; [exact Hn|vm_compute; reflexivity].
Defined.

(** A search for 'sport' among the live channels: one request, one
    channel found. *)
Lemma search_of_live_channels_always_fetches_witness :
  network_calls (calls search_sports) = 1%nat /\
  snd (outcome search_sports) = inr [sports].
Proof.
  destruct (search_of_live_channels_always_fetches "sport" api_c alice
              (calls search_sports) (fst (outcome search_sports))
              (snd (outcome search_sports)))
    as (_ & answer & Htr & _).
  - vm_compute. reflexivity.
  - vm_compute. reflexivity.
  - apply run_outcome.
  - split; [rewrite Htr; reflexivity|vm_compute; reflexivity].
Defined.

(** The empty query finds both movies. *)
Lemma search_with_the_empty_query_witness :
  snd (outcome search_everything) = inr [heat; alien] /\
  exists e, vodCache (fst (outcome search_everything)) = Some e /\
            data e = [heat; alien].
Proof.
  assert (Hr : snd (outcome search_everything) = inr [heat; alien])
    by (vm_compute; reflexivity).
  assert (Hx : exec (searchVodStreams "" api_c) (calls search_everything)
                    (fst (outcome search_everything), inr [heat; alien])).
  { rewrite <- Hr. apply run_outcome. }
  assert (Hlow : toLowerCase "" = "") by reflexivity.
  destruct (search_with_the_empty_query Hlow) as (Hvod & _ & _).
  destruct (Hvod api_c (calls search_everything)
              (fst (outcome search_everything)) [heat; alien] Hx)
    as (e & He & Hd).
  split; [exact Hr|]. exists e. split; [exact He|symmetry; exact Hd].
Defined.

(** The text under the key of the saved users is damaged: the list
    reads as empty. *)
Lemma getSavedUsers_never_rejects_witness :
  snd (outcome users_read_damaged) = inr [] /\
  no_network (calls users_read_damaged) /\
  no_store_write (calls users_read_damaged).
Proof.
  destruct (getSavedUsers_never_rejects tt (calls users_read_damaged)
              (fst (outcome users_read_damaged))
              (snd (outcome users_read_damaged))
              (run_outcome platform (UserManager.getSavedUsers tt) damaged_users))
    as (_ & Hn & Hw & _).
  split; [vm_compute; reflexivity|]. split; [exact Hn|exact Hw].
Defined.

(** [alice], [bob], then [alice] again: the list read back has one
    entry for each, [alice] first. *)
Lemma saveUser_then_getSavedUsers_witness :
  exists l,
    snd (outcome users_read) = inr l /\
    most_recent_first l /\
    List.NoDup (map SavedUser.username l) /\
    exists rest, l = saved_at alice (t0 + 2) :: rest.
Proof.
  destruct (saveUser_then_getSavedUsers alice tt (calls saved_alice_again)
              (fst (outcome saved_alice_again))
              (snd (outcome saved_alice_again))
              (storage (world_after saved_bob))
              (stored_users
                 (inr (storage (world_after saved_bob)
                         !! UserManager.SAVED_USERS_KEY)))
              (calls users_read) (fst (outcome users_read))
              (snd (outcome users_read))
              (run_outcome platform (UserManager.saveUser alice tt)
                 (world_after saved_bob)))
    as (_ & now & l & Hnow & Hr & _ & Hsorted & _ & Hnodup & Hfirst).
  - vm_compute. repeat split.
  - reflexivity.
  - intros now Hin. vm_compute in Hin.
    destruct Hin as [Hin|[Hin|[Hin|[]]]]; try discriminate Hin.
    injection Hin as <-.
    split; [vm_compute; discriminate|vm_compute; reflexivity].
  - apply run_outcome.
  - vm_compute. repeat split.
  - assert (now = t0 + 2) as ->.
    { vm_compute in Hnow.
      destruct Hnow as [Hin|[Hin|[Hin|[]]]]; try discriminate Hin.
      injection Hin as <-. reflexivity. }
    exists l. split; [exact Hr|]. split; [exact Hsorted|]. split.
    + apply Hnodup. vm_compute.
      repeat (constructor; [simpl; intuition discriminate|]). constructor.
    + apply Hfirst. intros u Hu. vm_compute in Hu.
      destruct Hu as [<-|[<-|[]]]; vm_compute; reflexivity.
Defined.

(** Saving [alice] over a damaged list leaves a list with [alice]
    alone. *)
Lemma saveUser_after_a_failed_read_witness :
  snd (outcome saved_over_damaged) = inr tt /\
  exists now sr,
    In (io_now now) (calls saved_over_damaged) /\
    In (io_setItem UserManager.SAVED_USERS_KEY
          (JSON_stringify [saved_at alice now]) sr) (calls saved_over_damaged).
Proof.
  destruct (saveUser_after_a_failed_read alice tt (calls saved_over_damaged)
              (fst (outcome saved_over_damaged))
              (snd (outcome saved_over_damaged))
              (inr (Some "[oops"))
              (SyntaxError "Unexpected token in JSON")
              (run_outcome platform (UserManager.saveUser alice tt)
                 damaged_users))
    as (Hr & _ & Hset).
  - vm_compute. left. reflexivity.
  - vm_compute. reflexivity.
  - split; [exact Hr|exact Hset].
Defined.

(** [bob] removed: the list read back holds [alice] alone. *)
Lemma removeUser_then_getSavedUsers_witness :
  snd (outcome users_without_bob) = inr [saved_at alice (t0 + 2)].
Proof.
  destruct (removeUser_then_getSavedUsers "bob" tt (calls removed_bob)
              (fst (outcome removed_bob)) (snd (outcome removed_bob))
              (storage (world_after saved_alice_again))
              (stored_users
                 (inr (storage (world_after saved_alice_again)
                         !! UserManager.SAVED_USERS_KEY)))
              (calls users_without_bob) (fst (outcome users_without_bob))
              (snd (outcome users_without_bob))
              (run_outcome platform (UserManager.removeUser "bob" tt)
                 (world_after saved_alice_again)))
    as (_ & Hr & _).
  - vm_compute. repeat split.
  - reflexivity.
  - vm_compute. discriminate.
  - vm_compute. reflexivity.
  - apply run_outcome.
  - vm_compute. repeat split.
  - rewrite Hr. vm_compute. reflexivity.
Defined.

(** The list cleared: nothing under the key, and the list reads as
    empty. *)
Lemma clearAllUsers_then_getSavedUsers_witness :
  snd (outcome users_cleared) = inr tt /\
  store_after (storage (world_after saved_alice_again)) (calls users_cleared)
    !! UserManager.SAVED_USERS_KEY = None /\
  snd (outcome users_after_clear) = inr [].
Proof.
  destruct (clearAllUsers_then_getSavedUsers tt (calls users_cleared)
              (fst (outcome users_cleared)) (snd (outcome users_cleared))
              (run_outcome platform (UserManager.clearAllUsers tt)
                 (world_after saved_alice_again)))
    as (Hr & _ & _ & Hread).
  destruct (Hread (storage (world_after saved_alice_again))
              (calls users_after_clear) (fst (outcome users_after_clear))
              (snd (outcome users_after_clear)))
    as (Hk & Hr2 & _).
  - vm_compute. repeat split.
  - apply run_outcome.
  - vm_compute. repeat split.
  - split; [exact Hr|]. split; [exact Hk|exact Hr2].
Defined.


(** A logout through the context when the store rejects the removal of
    the auth key: the context still says logged in, over an object
    without a session. *)
Lemma AuthContext_logout_outcome_witness :
  AuthContext.State.isLoggedIn
    (AuthContext.state (fst (outcome app_logout_on_broken_store))) = true /\
  session (AuthContext.xtreamApi (fst (outcome app_logout_on_broken_store)))
    = false /\
  AuthContext.replaced (fst (outcome app_logout_on_broken_store)) = ["/"] /\
  snd (outcome app_logout_on_broken_store) = inr tt.
Proof.
  destruct (AuthContext_logout_outcome app1 (calls app_logout_on_broken_store)
              (fst (outcome app_logout_on_broken_store))
              (snd (outcome app_logout_on_broken_store))
              (run_outcome platform (AuthContext.logout app1)
                 (with_broken (String.eqb AUTH_STORAGE_KEY)
                    (world_after app_logged_in))))
    as (Hr & _ & Hs & _ & [(Hok & _)|(k & e & _ & _ & _ & Hli & _ & Hrep)]).
  - exfalso. apply (Hok AUTH_STORAGE_KEY store_error); [left; reflexivity|].
    vm_compute. left. reflexivity.
  - split; [rewrite Hli; vm_compute; reflexivity|]. split; [exact Hs|].
    split; [rewrite Hrep; vm_compute; reflexivity|exact Hr].
Defined.
